(** * storage_bench: open-loop load generator for the block-storage service

    A shallow embedding of [apps/bench/storage_bench.cc] and the proofs of
    its properties.

    Conventions of the embedding.
    - [double] is IEEE binary64: Rocq's primitive [float], with the
      operations and comparisons of the code ([+], [-], [*], [/], [<], [==]).
      A comparison with a NaN operand is false, as in C++.
    - [size_t] and [uint64_t] are integers of [Z] in [0, 2^64).
    - [steady_clock::time_point] is the tick count of the clock in
      nanoseconds, a [Z].
    - A sampler (the [Arrival] and [Service] callables of [GenerateWork],
      each a distribution bound to its own generator) is the sequence of the
      values its successive calls return, [nat -> _], and the code that draws
      from it threads the number of calls made so far.
    - What the environment decides (clock readings, the status the storage
      backend returns) is given by oracles, quantified over in every theorem.
    - A loop whose trip count the code does not bound takes fuel and returns
      [None] when the fuel runs out. *)

From Stdlib Require Import ZArith List Bool Lia Floats Uint63 Permutation Sorted.
From Stdlib Require String.
Import ListNotations.

Set Warnings "-inexact-float".

Local Open Scope Z_scope.

(** ** Numeric conversions of C++ *)

Module Cxx.

(** [size_t] is 64 bits wide. *)
Definition size_max : Z := 2 ^ 64.
Definition to_size_t (z : Z) : Z := z mod size_max.

(** Integer to [double]: [static_cast<double>] of a signed 64-bit count or of
    a [size_t] below [2^63] (round to nearest even, done by [of_uint63]). *)
Definition double_of_Z (z : Z) : float :=
  if z <? 0 then PrimFloat.opp (PrimFloat.of_uint63 (Uint63.of_Z (- z)))
  else PrimFloat.of_uint63 (Uint63.of_Z z).

Definition double_of_size (n : nat) : float := double_of_Z (Z.of_nat n).

(** [double] to [size_t]: the fractional part is discarded (truncation toward
    zero); the conversion is undefined ([None]) when the truncated value is
    not a [size_t], and for infinities and NaN. *)
Definition size_of_double (x : float) : option Z :=
  match Prim2SF x with
  | S754_zero _ => Some 0
  | S754_finite s m e =>
      let t := if 0 <=? e then Z.pos m * 2 ^ e else Z.pos m / 2 ^ (- e) in
      if s then (if t =? 0 then Some 0 else None)
      else if t <? size_max then Some t else None
  | S754_infinity _ | S754_nan => None
  end.

(** [x > y] on [double]. *)
Definition gtb (x y : float) : bool := PrimFloat.ltb y x.

(** [INT_MAX]: [int] is 32 bits wide. *)
Definition int_max : Z := 2 ^ 31 - 1.

End Cxx.

(** ** The work unit and the global arguments of the experiment *)

Record work_unit : Type := mk_work_unit {
  start_us : float;
  lba : Z;
  is_set : bool;
  duration_us : float
}.

(** The maximum lateness to tolerate before dropping egress samples. *)
Definition kMaxCatchUpUS : Z := 5.

(** [~0x7]: the [int] -8, converted to [size_t] by the [&] with a [size_t]. *)
Definition lba_mask : Z := Cxx.to_size_t (Z.lnot 7).

Section GenerateWork.

(** The global [pct_set], set from the command line. *)
Variable pct_set : Z.

(** The samplers: [a k] is what the [k]-th call [a()] returns, [s k] what the
    [k]-th call [s()] returns (a [size_t]). *)
Variable a : nat -> float.
Variable s : nat -> Z.

(** One trip of the loop body, from the state [(cur_us, w)] and the numbers
    [na], [ns] of draws already made. *)
Definition GenerateWork_body (na ns : nat) (cur_us : float)
    (w : list work_unit) : float * list work_unit :=
  let cur_us := (cur_us + a na)%float in
  let set := Cxx.to_size_t (s ns) mod 100 <? pct_set in
  (cur_us,
   w ++ [mk_work_unit cur_us (Z.land (Cxx.to_size_t (s (S ns))) lba_mask)
           set 0%float]).

(** [while (cur_us < last_us) { ... }] *)
Fixpoint GenerateWork_loop (fuel : nat) (na ns : nat) (cur_us last_us : float)
    (w : list work_unit) : option (list work_unit) :=
  if (cur_us <? last_us)%float then
    match fuel with
    | O => None
    | S fuel' =>
        let '(cur_us', w') := GenerateWork_body na ns cur_us w in
        GenerateWork_loop fuel' (S na) (S (S ns)) cur_us' last_us w'
    end
  else Some w.

Definition GenerateWork (fuel : nat) (cur_us last_us : float)
    : option (list work_unit) :=
  GenerateWork_loop fuel O O cur_us last_us [].

End GenerateWork.

(** ** Vectors, subscripts and the memory of the out-parameters *)

Module Vec.

(** A [std::vector]: the slots of its allocated storage (as many as its
    capacity; [None] is a slot that holds no constructed element) and its
    size. The elements are the first [size] slots. *)
Record vector (A : Type) : Type := mk_vector {
  slots : list (option A);
  size : nat
}.
Arguments mk_vector {A}.
Arguments slots {A}.
Arguments size {A}.

Definition capacity {A} (v : vector A) : nat := length (slots v).

(** A default-constructed vector. *)
Definition empty {A} : vector A := mk_vector [] 0.

(** [v.reserve(n)] on a vector that owns no storage yet: storage for [n]
    elements, the size unchanged. *)
Definition reserve {A} (n : nat) (v : vector A) : vector A :=
  if (capacity v <? n)%nat
  then mk_vector (slots v ++ repeat None (n - capacity v)) (size v)
  else v.

Fixpoint set_slot {A} (i : nat) (x : A) (l : list (option A))
    : list (option A) :=
  match l, i with
  | [], _ => []
  | _ :: l', O => Some x :: l'
  | y :: l', S i' => y :: set_slot i' x l'
  end.

(** [v[i] = x]: [operator[]] does not check [i]; the store goes to slot [i]
    of the storage and the size is not changed. *)
Definition store {A} (i : nat) (x : A) (v : vector A) : vector A :=
  mk_vector (set_slot i x (slots v)) (size v).

(** [v[i]] read from the storage. *)
Definition load {A} (i : nat) (v : vector A) : option A :=
  nth i (slots v) None.

End Vec.

(** A subscript [v[i]] the code performs, with [v.size()] at that point. *)
Inductive vec_name : Type := Vec_w | Vec_timings.

Record subscript : Type := mk_subscript {
  sub_vec : vec_name;
  sub_index : nat;
  sub_size : nat
}.

(** The precondition of [operator[]]: the index is below the size. *)
Definition in_bounds (e : subscript) : bool :=
  (sub_index e <? sub_size e)%nat.

(** The memory that holds the [double] variables pointers point to; a
    pointer is an address or [nullptr]. *)
Definition heap : Type := nat -> float.
Definition ptr : Type := option nat.
Definition nullptr : ptr := None.

Definition heap_store (h : heap) (l : nat) (v : float) : heap :=
  fun l' => if Nat.eqb l' l then v else h l'.

(** [duration_cast<sec>(d).count()] of a difference [d] of two time points:
    nanosecond ticks to microseconds in [double]. *)
Definition us_of_ticks (d : Z) : float := (Cxx.double_of_Z d / 1000)%float.

(** ** ClientWorker *)

(** The requests a worker issues against the storage backend. *)
Inductive request : Type :=
  | Storage_write (lba : Z) (block_count : Z)
  | Storage_read (lba : Z) (block_count : Z).

(** What the environment decides for one worker: the clock readings at each
    [steady_clock::now()] (the one at the synchronized start, and for the
    item of index [i] the reading before the sleep decision, the one after
    it, the one at dispatch and the one the spawned thread takes when its
    storage operation has returned) and the status of the storage operation
    issued for the item of index [i]. *)
Record worker_env : Type := mk_worker_env {
  expstart : Z;
  now_before : nat -> Z;
  now_after : nat -> Z;
  now_dispatch : nat -> Z;
  now_done : nat -> Z;
  storage_status : nat -> request -> Z
}.

(** The state of the replay loop. [wg] is the counter of the wait group the
    spawned threads are joined with; [issued], [slept] and [subscripts] record
    what the worker did. *)
Record worker_state : Type := mk_worker_state {
  ws_w : list work_unit;
  ws_timings : Vec.vector Z;
  ws_dropped : Z;
  ws_wg : Z;
  ws_issued : list (nat * request);
  ws_slept : list (nat * float);
  ws_subscripts : list subscript
}.

Definition set_duration (d : float) (u : work_unit) : work_unit :=
  mk_work_unit (start_us u) (lba u) (is_set u) d.

Fixpoint update_nth {A} (i : nat) (f : A -> A) (l : list A) : list A :=
  match l, i with
  | [], _ => []
  | x :: l', O => f x :: l'
  | x :: l', S i' => x :: update_nth i' f l'
  end.

(** A work unit for a subscript of [w] that is out of range (the loop makes
    none). *)
Definition no_unit : work_unit := mk_work_unit 0 0 false 0.

(** The storage operation for the item [u]: a write when [u.is_set], a read
    otherwise, of [block_count] blocks at [u.lba]. *)
Definition request_of (block_count : Z) (u : work_unit) : request :=
  if is_set u then Storage_write (lba u) block_count
  else Storage_read (lba u) block_count.

Section ClientWorker.

(** The global [block_count], set from the command line. *)
Variable block_count : Z.
Variable env : worker_env.

Definition elapsed_us (now : Z) : float := us_of_ticks (now - expstart env).

Definition log_subscript (v : vec_name) (i : nat) (st : worker_state)
    : worker_state :=
  let n := match v with
           | Vec_w => length (ws_w st)
           | Vec_timings => Vec.size (ws_timings st)
           end in
  mk_worker_state (ws_w st) (ws_timings st) (ws_dropped st) (ws_wg st)
    (ws_issued st) (ws_slept st) (ws_subscripts st ++ [mk_subscript v i n]).

(** The thread spawned for the item of index [i]: the storage operation,
    then the latency when the status is 0, then [wg.Done()]. *)
Definition spawned (i : nat) (st : worker_state) : worker_state :=
  let st := log_subscript Vec_w i st in
  let u := nth i (ws_w st) no_unit in
  let req := request_of block_count u in
  let ret := storage_status env i req in
  let ts := now_done env i in
  let st := log_subscript Vec_timings i st in
  let w' :=
    if ret =? 0 then
      match Vec.load i (ws_timings st) with
      | Some t => update_nth i (set_duration (us_of_ticks (ts - t))) (ws_w st)
      | None => ws_w st
      end
    else ws_w st in
  mk_worker_state w' (ws_timings st) (ws_dropped st) (ws_wg st - 1)
    (ws_issued st ++ [(i, req)]) (ws_slept st) (ws_subscripts st).

(** The lateness test of the item [u] at the clock reading [now]. *)
Definition too_late (now : Z) (u : work_unit) : bool :=
  Cxx.gtb (elapsed_us now - start_us u)%float (Cxx.double_of_Z kMaxCatchUpUS).

(** One trip of [for (unsigned int i = 0; i < wsize; ++i)]. The thread
    spawned for the item runs concurrently with the rest of the loop; it
    reads and writes only the elements of index [i] of [w] and [timings],
    which the loop does not touch after the spawn, so its effect is applied
    at the spawn. *)
Definition ClientWorker_iter (i : nat) (st : worker_state) : worker_state :=
  let st := log_subscript Vec_w i st in
  let u := nth i (ws_w st) no_unit in
  let now := now_before env i in
  let st :=
    if (elapsed_us now <? start_us u)%float then
      mk_worker_state (ws_w st) (ws_timings st) (ws_dropped st) (ws_wg st)
        (ws_issued st)
        (ws_slept st ++ [(i, (start_us u - elapsed_us now)%float)])
        (ws_subscripts st)
    else st in
  let now := now_after env i in
  if too_late now u then
    mk_worker_state (ws_w st) (ws_timings st) (ws_dropped st + 1) (ws_wg st)
      (ws_issued st) (ws_slept st) (ws_subscripts st)
  else
    let st := log_subscript Vec_timings i st in
    let st :=
      mk_worker_state (ws_w st)
        (Vec.store i (now_dispatch env i) (ws_timings st))
        (ws_dropped st) (ws_wg st) (ws_issued st) (ws_slept st)
        (ws_subscripts st) in
    spawned i st.

(** The trips [i], [i+1], ..., [i+n-1] of the loop. *)
Fixpoint ClientWorker_loop (n i : nat) (st : worker_state) : worker_state :=
  match n with
  | O => st
  | S n' => ClientWorker_loop n' (S i) (ClientWorker_iter i st)
  end.

(** The state the loop starts from: [w] as [wf()] returned it, [timings]
    with [w.size()] slots reserved, the wait group at [wsize]. *)
Definition ClientWorker_init (w : list work_unit) : worker_state :=
  mk_worker_state w (Vec.reserve (length w) Vec.empty) 0
    (Z.of_nat (length w)) [] [] [].

(** [ClientWorker]: [wf] is what the call [wf()] returns, [None] when it
    does not return. After the loop, [wg.Add(-1 * dropped)] and [wg.Wait()],
    which returns when the counter is 0. The counter of the wait group and
    [dropped] are [int]s and the loop index an [unsigned int]: the embedding
    covers the schedules of at most [INT_MAX] items and gives no result
    for a longer one. *)
Definition ClientWorker (wf : option (list work_unit))
    : option worker_state :=
  match wf with
  | None => None
  | Some w =>
      if Cxx.int_max <? Z.of_nat (length w) then None
      else
        let st := ClientWorker_loop (length w) 0 (ClientWorker_init w) in
        let wg := ws_wg st + (-1) * ws_dropped st in
        if wg =? 0 then Some st else None
  end.

End ClientWorker.

(** ** RunExperiment *)

(** [std::remove_if] followed by [erase]: the elements that satisfy [p] are
    removed, the others keep their order. *)
Fixpoint remove_if {A} (p : A -> bool) (l : list A) : list A :=
  match l with
  | [] => []
  | x :: l' => if p x then remove_if p l' else x :: remove_if p l'
  end.

(** The predicate of the removal: [s.duration_us == 0]. *)
Definition did_not_complete (u : work_unit) : bool :=
  (duration_us u =? 0)%float.

(** The sample vectors of the workers, in thread order; [None] when one of
    the workers does not return, so that its [Join] does not either. *)
Fixpoint join_all (l : list (option worker_state))
    : option (list (list work_unit)) :=
  match l with
  | [] => Some []
  | None :: _ => None
  | Some st :: l' =>
      match join_all l' with
      | None => None
      | Some vs => Some (ws_w st :: vs)
      end
  end.

Section RunExperiment.

Variable block_count : Z.

(** What the environment decides for one experiment: the environment of
    each worker thread and the two clock readings of the coordinator. *)
Variable envs : nat -> worker_env.
Variable start finish : Z.

(** [wf i] is what the call [wf()] made by the thread of index [i] returns. *)
Definition RunExperiment (threads : Z) (reqs_per_sec cpu_usage : ptr)
    (wf : nat -> option (list work_unit)) (h : heap)
    : option (list work_unit * heap) :=
  let th := map (fun i => ClientWorker block_count (envs i) (wf i))
                (seq 0 (Z.to_nat threads)) in
  match join_all th with
  | None => None
  | Some samples =>
      (* Aggregate all the samples together. *)
      let w := fold_left (fun w v => w ++ v) samples [] in
      (* Remove requests that did not complete. *)
      let w := remove_if did_not_complete w in
      (* Report results. *)
      let elapsed := us_of_ticks (finish - start) in
      let h :=
        match reqs_per_sec with
        | Some l =>
            heap_store h l
              (Cxx.double_of_size (length w) / elapsed * 1000000)%float
        | None => h
        end in
      Some (w, h)
  end.

End RunExperiment.

(** ** PrintStatResults *)

(** [std::sort] with the comparator [less]: the order it leaves between
    elements that compare equivalent is unspecified; of the sorted vector the
    code reads the keys only. Insertion sort. *)
Section Sort.

Context {A : Type}.
Variable less : A -> A -> bool.

Fixpoint sort_insert (x : A) (l : list A) : list A :=
  match l with
  | [] => [x]
  | y :: l' => if less x y then x :: l else y :: sort_insert x l'
  end.

Fixpoint sort (l : list A) : list A :=
  match l with
  | [] => []
  | x :: l' => sort_insert x (sort l')
  end.

End Sort.

(** The comparator of the sort: [s1.duration_us < s2.duration_us]. *)
Definition by_duration (s1 s2 : work_unit) : bool :=
  (duration_us s1 <? duration_us s2)%float.

(** The line [PrintStatResults] prints, field by field. *)
Record summary : Type := mk_summary {
  out_threads : Z;
  out_offered_rps : float;
  out_rps : float;
  out_cpu_usage : float;
  out_samples : nat;
  out_min : float;
  out_mean : float;
  out_p90 : float;
  out_p99 : float;
  out_p999 : float;
  out_p9999 : float;
  out_max : float
}.

(** [w[k].duration_us] for a [size_t] index [k]; [None] when [k] is not
    below [w.size()]: the vector is a copy, its storage ends with its
    elements, and the read has no defined result. *)
Definition at_index (w : list work_unit) (k : Z) : option float :=
  if (0 <=? k) && (k <? Z.of_nat (length w))
  then option_map duration_us (nth_error w (Z.to_nat k))
  else None.

(** [w[x].duration_us] for a [double] index [x], converted to [size_t]. *)
Definition at_rank (w : list work_unit) (x : float) : option float :=
  match Cxx.size_of_double x with
  | Some k => at_index w k
  | None => None
  end.

(** [w[count * p].duration_us] with [count = static_cast<double>(w.size())]:
    the percentile PrintStatResults reads from the sorted vector [w] at the
    rank fraction [p]. *)
Definition percentile (w : list work_unit) (p : float) : option float :=
  at_rank w (Cxx.double_of_size (length w) * p)%float.

Section PrintStatResults.

(** The global [threads]. *)
Variable threads : Z.

Definition PrintStatResults (w : list work_unit)
    (offered_rps rps cpu_usage : float) : option summary :=
  let w := sort by_duration w in
  let sum := fold_left (fun s c => (s + duration_us c)%float) w 0%float in
  let mean := (sum / Cxx.double_of_size (length w))%float in
  match percentile w 0.9, percentile w 0.99,
        percentile w 0.999, percentile w 0.9999,
        at_index w 0,
        at_index w (Cxx.to_size_t (Z.of_nat (length w) - 1)) with
  | Some p90, Some p99, Some p999, Some p9999, Some min, Some max =>
      Some (mk_summary threads offered_rps rps cpu_usage (length w)
              min mean p90 p99 p999 p9999 max)
  | _, _, _, _, _, _ => None
  end.

End PrintStatResults.

(** ** SteadyStateExperiment *)

Section SteadyStateExperiment.

Variables block_count pct_set : Z.
(** The global [threads], which [PrintStatResults] prints. *)
Variable global_threads : Z.
Variable envs : nat -> worker_env.
Variable start finish : Z.

(** The draws of the two distributions in the thread of index [i]: [rd i]
    those of the exponential distribution of the inter-arrival times, [wd i]
    those of the uniform distribution of the block numbers. *)
Variable rd : nat -> nat -> float.
Variable wd : nat -> nat -> Z.

(** The locals [rps] and [cpu_usage] are the two [double]s at the addresses
    [sp] and [sp + 1] of the memory [h]; neither is initialised, so they hold
    what [h] holds there. [fuel] bounds the loop of each [GenerateWork]. *)
Definition SteadyStateExperiment (fuel : nat) (threads : Z)
    (offered_rps service_time : float) (sp : nat) (h : heap)
    : option (option summary * heap) :=
  let rps := sp in
  let cpu_usage := S sp in
  match RunExperiment block_count envs start finish threads
          (Some rps) (Some cpu_usage)
          (fun i => GenerateWork pct_set (rd i) (wd i) fuel 0 5000000) h with
  | None => None
  | Some (w, h) =>
      (* Print the results. *)
      Some (PrintStatResults global_threads w offered_rps (h rps)
              (h cpu_usage), h)
  end.

End SteadyStateExperiment.

(** ** ClientHandler *)

(** What the environment decides for one experiment of the sweep: the
    environments of its worker threads, the two clock readings of the
    coordinator, the draws of the distributions in each thread, and the
    memory the frame of [SteadyStateExperiment] finds: the address [ex_sp] of
    its two locals and what the memory holds. [ex_fuel] bounds the loop of
    each [GenerateWork] of the experiment. *)
Record experiment_env : Type := mk_experiment_env {
  ex_envs : nat -> worker_env;
  ex_start : Z;
  ex_finish : Z;
  ex_rd : nat -> nat -> float;
  ex_wd : nat -> nat -> Z;
  ex_fuel : nat;
  ex_sp : nat;
  ex_heap : heap
}.

Section ClientHandler.

(** The globals [block_count], [pct_set] and [threads]. *)
Variables block_count pct_set threads : Z.
(** [exps k]: the environment of the experiment of index [k]. *)
Variable exps : nat -> experiment_env.

(** The call [SteadyStateExperiment(threads, offered_rps, service_time)]
    that is the experiment of index [k]. *)
Definition experiment (k : nat) (offered_rps service_time : float)
    : option (option summary * heap) :=
  let e := exps k in
  SteadyStateExperiment block_count pct_set threads (ex_envs e) (ex_start e)
    (ex_finish e) (ex_rd e) (ex_wd e) (ex_fuel e) threads offered_rps
    service_time (ex_sp e) (ex_heap e).

(** [for (double i = 20000; i <= 600000; i += 20000)], when [k] experiments
    have run and printed the lines [out]; a line is [None] when
    [PrintStatResults] has no defined output. *)
Fixpoint ClientHandler_loop (fuel k : nat) (i : float)
    (out : list (option summary)) : option (list (option summary)) :=
  if (i <=? 600000)%float then
    match fuel with
    | O => None
    | S fuel' =>
        match experiment k i 0 with
        | None => None
        | Some (line, _) =>
            ClientHandler_loop fuel' (S k) (i + 20000)%float (out ++ [line])
        end
    end
  else Some out.

Definition ClientHandler (fuel : nat) : option (list (option summary)) :=
  ClientHandler_loop fuel 0 20000 [].

End ClientHandler.

(** ** main *)

(** The globals the command line sets. *)
Record globals : Type := mk_globals {
  g_threads : Z;
  g_block_count : Z;
  g_pct_set : Z
}.

(** What [main] does that is visible from outside: the usage line on
    [std::cerr], the call [runtime_init(argv[1], ClientHandler, NULL)] with
    the globals as they are at the call, the line
    [failed to start runtime]. *)
Inductive main_event : Type :=
  | Usage
  | Runtime_init (cfg : String.string) (g : globals)
  | Failed_to_start.

(** [main] returns a status, or an exception of [std::stoi] leaves it. *)
Inductive main_result : Type :=
  | Exit (status : Z)
  | Uncaught.

Definition EINVAL : Z := 22.

Section main.

(** [std::stoi(str, nullptr, 0)]: the [int] it returns, [None] when it
    throws. *)
Variable stoi : String.string -> option Z.
(** The status [runtime_init] returns. *)
Variable runtime_init : String.string -> globals -> Z.

(** [argv] has [argc] entries. *)
Definition main (argv : list String.string) (g : globals)
    : main_result * list main_event * globals :=
  let argc := Z.of_nat (length argv) in
  let arg := fun i => nth i argv String.EmptyString in
  if argc <? 5 then (Exit (- EINVAL), [Usage], g)
  else
    match stoi (arg 2%nat) with
    | None => (Uncaught, [], g)
    | Some v =>
        let g := mk_globals v (g_block_count g) (g_pct_set g) in
        match stoi (arg 3%nat) with
        | None => (Uncaught, [], g)
        | Some v =>
            let g := mk_globals (g_threads g) (Cxx.to_size_t v) (g_pct_set g) in
            match stoi (arg 4%nat) with
            | None => (Uncaught, [], g)
            | Some v =>
                let g :=
                  mk_globals (g_threads g) (g_block_count g)
                    (Cxx.to_size_t v) in
                let ret := runtime_init (arg 1%nat) g in
                if ret =? 0 then (Exit 0, [Runtime_init (arg 1%nat) g], g)
                else
                  (Exit ret, [Runtime_init (arg 1%nat) g; Failed_to_start], g)
            end
        end
    end.

End main.

(** ** What a run of the loop of GenerateWork generates *)

(** [generated pct_set a s last_us na ns cur_us items]: from the running time
    [cur_us], with [na] and [ns] draws made, the loop appends exactly [items]
    and stops. *)
Inductive generated (pct_set : Z) (a : nat -> float) (s : nat -> Z)
    (last_us : float) : nat -> nat -> float -> list work_unit -> Prop :=
  | generated_stop : forall na ns cur_us,
      (cur_us <? last_us)%float = false ->
      generated pct_set a s last_us na ns cur_us []
  | generated_step : forall na ns cur_us items,
      (cur_us <? last_us)%float = true ->
      generated pct_set a s last_us (S na) (S (S ns)) (cur_us + a na)%float
        items ->
      generated pct_set a s last_us na ns cur_us
        (mk_work_unit (cur_us + a na)%float
           (Z.land (Cxx.to_size_t (s (S ns))) lba_mask)
           (Cxx.to_size_t (s ns) mod 100 <? pct_set) 0%float :: items).

(** The last element of a vector, [None] when it is empty. *)
Definition back {A} (l : list A) : option A := nth_error l (length l - 1).

(** The latencies of [w] are in non-decreasing order. *)
Definition latency_sorted (w : list work_unit) : Prop :=
  forall i j u v, (i <= j)%nat ->
    nth_error w i = Some u -> nth_error w j = Some v ->
    (duration_us u <=? duration_us v)%float = true.

(** What PrintStatResults prints of the samples [w] in the line [r]: with
    [sorted] the samples sorted by duration and [n] their number, the
    number of samples, the mean (the sum of the sorted latencies, added up
    from 0.0 in that order, divided by the count), the minimum at rank 0,
    the maximum at rank [n - 1] and the percentiles at the ranks
    [floor (n * p)]. *)
Definition order_statistics (w : list work_unit) (r : summary) : Prop :=
  let n := Z.of_nat (length w) in
  let sorted := sort by_duration w in
  out_samples r = length w /\
  out_mean r
  = (fold_left (fun s c => s + duration_us c) sorted 0
     / Cxx.double_of_size (length w))%float /\
  at_index sorted 0 = Some (out_min r) /\
  at_index sorted (n - 1) = Some (out_max r) /\
  at_index sorted (n * 9 / 10) = Some (out_p90 r) /\
  at_index sorted (n * 99 / 100) = Some (out_p99 r) /\
  at_index sorted (n * 999 / 1000) = Some (out_p999 r) /\
  at_index sorted (n * 9999 / 10000) = Some (out_p9999 r).

(** * Proofs *)

(** ** Binary64 arithmetic

    The operations of the primitive floats are specified (FloatAxioms) by
    the functions of SpecFloat on [spec_float]. This module relates them to
    integer arithmetic: every number is read as an integer multiple of a
    fixed power of two, rounding becomes a function on integers, and the
    comparisons become the comparisons of [Z]. *)

Module Binary64.

Definition fexp64 (e : Z) : Z := Z.max (e - 53) (-1074).

Lemma fexp_fexp64 : forall e, SpecFloat.fexp prec emax e = fexp64 e.
Proof. reflexivity. Qed.

Lemma digits2_pos_size : forall p, digits2_pos p = Pos.size p.
Proof. induction p; simpl; congruence. Qed.

Lemma digits2_log2 : forall p, Z.pos (digits2_pos p) = Z.log2 (Z.pos p) + 1.
Proof.
  intros p. rewrite digits2_pos_size.
  destruct p; simpl; try reflexivity; rewrite Pos.add_1_r; reflexivity.
Qed.

Lemma log2_bounds : forall v, 0 < v -> 2 ^ Z.log2 v <= v < 2 ^ (Z.log2 v + 1).
Proof. intros v H. apply Z.log2_spec. exact H. Qed.

(** shr_1 *)
Lemma shr_1_spec : forall m r s, 0 <= m ->
  shr_1 (Build_shr_record m r s) = Build_shr_record (m / 2) (Z.odd m) (r || s).
Proof.
  intros m r s Hm. unfold shr_1.
  destruct m as [|p|p]; [reflexivity| |lia].
  rewrite <- Z.div2_div. destruct p; reflexivity.
Qed.

Lemma iter_pos_nat : forall {A} (f : A -> A) p x,
  iter_pos f p x = Nat.iter (Pos.to_nat p) f x.
Proof.
  intros A f. induction p as [p IH|p IH|]; intros x; cbn [iter_pos].
  - rewrite !IH, Pos2Nat.inj_xI, <- Nat.iter_add.
    replace (S (2 * Pos.to_nat p))%nat
      with (Pos.to_nat p + Pos.to_nat p + 1)%nat by lia.
    rewrite (Nat.iter_add _ 1). reflexivity.
  - rewrite !IH, Pos2Nat.inj_xO, <- Nat.iter_add.
    f_equal. lia.
  - reflexivity.
Qed.

(** Rounding of the integer [x] to a multiple of [2^n], to nearest, ties to
    even; the result is the multiplier. *)
Definition Zrnd (x n : Z) : Z :=
  let q := x / 2 ^ n in
  match 2 * (x mod 2 ^ n) ?= 2 ^ n with
  | Lt => q
  | Eq => if Z.even q then q else q + 1
  | Gt => q + 1
  end.

Definition shr_ok (x : Z) (k : nat) (mrs : shr_record) : Prop :=
  shr_m mrs = x / 2 ^ Z.of_nat k /\
  match k with
  | O => shr_r mrs = false /\ shr_s mrs = false
  | S k' => shr_r mrs = Z.odd (x / 2 ^ Z.of_nat k') /\
            shr_s mrs = negb (x mod 2 ^ Z.of_nat k' =? 0)
  end.

Lemma mod_pow2_succ : forall x k, 0 <= k ->
  x mod 2 ^ (k + 1) = x mod 2 ^ k + 2 ^ k * (if Z.odd (x / 2 ^ k) then 1 else 0).
Proof.
  intros x k Hk. rewrite Z.pow_add_r, Z.pow_1_r by lia.
  rewrite Z.rem_mul_r by lia. rewrite Zmod_odd. reflexivity.
Qed.

Lemma shr_ok_step : forall x k mrs, 0 <= x ->
  shr_ok x k mrs -> shr_ok x (S k) (shr_1 mrs).
Proof.
  intros x k [m r s] Hx [Hm Hrs]. simpl in Hm. subst m.
  rewrite shr_1_spec by (apply Z.div_pos; lia).
  split; simpl shr_m; simpl shr_r; simpl shr_s.
  - rewrite Z.div_div by lia. rewrite Nat2Z.inj_succ, Z.pow_succ_r by lia.
    f_equal. lia.
  - split; [reflexivity|].
    destruct k as [|k'].
    + destruct Hrs as [Hr Hs]. simpl in Hr, Hs. subst r s. simpl.
      now rewrite Z.mod_1_r.
    + destruct Hrs as [Hr Hs]. simpl in Hr, Hs. subst r s.
      rewrite (Nat2Z.inj_succ k'). unfold Z.succ.
      rewrite mod_pow2_succ by lia.
      pose proof (Z.mod_pos_bound x (2 ^ Z.of_nat k') ltac:(lia)) as Hb.
      assert (0 < 2 ^ Z.of_nat k') by lia.
      destruct (Z.odd (x / 2 ^ Z.of_nat k'));
        destruct (x mod 2 ^ Z.of_nat k' =? 0) eqn:E; simpl orb; simpl negb;
        try (rewrite Z.eqb_eq in E); try (rewrite Z.eqb_neq in E); symmetry;
        first [ apply negb_true_iff, Z.eqb_neq; lia
              | apply negb_false_iff, Z.eqb_eq; lia ].
Qed.

Lemma shr_ok_iter : forall x k, 0 <= x ->
  shr_ok x k (Nat.iter k shr_1 (Build_shr_record x false false)).
Proof.
  intros x k Hx. induction k as [|k IH].
  - split; simpl; [now rewrite Z.div_1_r | now split].
  - simpl Nat.iter. now apply shr_ok_step.
Qed.

Lemma shr_ok_round : forall x k mrs, 0 <= x ->
  shr_ok x k mrs ->
  round_nearest_even (shr_m mrs) (loc_of_shr_record mrs) = Zrnd x (Z.of_nat k).
Proof.
  intros x k [m r s] Hx [Hm Hrs]. simpl in Hm. subst m. unfold Zrnd.
  destruct k as [|k'].
  - destruct Hrs as [Hr Hs]. simpl in Hr, Hs. subst r s. simpl.
    now rewrite Z.mod_1_r.
  - destruct Hrs as [Hr Hs]. simpl in Hr, Hs. subst r s.
    rewrite (Nat2Z.inj_succ k'). unfold Z.succ.
    rewrite mod_pow2_succ by lia.
    rewrite Z.pow_add_r, Z.pow_1_r by lia.
    pose proof (Z.mod_pos_bound x (2 ^ Z.of_nat k') ltac:(lia)) as Hb.
    assert (0 < 2 ^ Z.of_nat k') by lia.
    set (q := x / (2 ^ Z.of_nat k' * 2)).
    simpl shr_m. simpl loc_of_shr_record.
    destruct (Z.odd (x / 2 ^ Z.of_nat k'));
      destruct (x mod 2 ^ Z.of_nat k' =? 0) eqn:E;
      try (rewrite Z.eqb_eq in E); try (rewrite Z.eqb_neq in E);
      cbn [negb loc_of_shr_record round_nearest_even shr_m].
    + replace (2 * (x mod 2 ^ Z.of_nat k' + 2 ^ Z.of_nat k' * 1)
               ?= 2 ^ Z.of_nat k' * 2) with Eq
        by (symmetry; apply Z.compare_eq_iff; lia).
      reflexivity.
    + replace (2 * (x mod 2 ^ Z.of_nat k' + 2 ^ Z.of_nat k' * 1)
               ?= 2 ^ Z.of_nat k' * 2) with Gt
        by (symmetry; apply Z.compare_gt_iff; lia).
      reflexivity.
    + replace (2 * (x mod 2 ^ Z.of_nat k' + 2 ^ Z.of_nat k' * 0)
               ?= 2 ^ Z.of_nat k' * 2) with Lt
        by (symmetry; apply Z.compare_lt_iff; lia).
      reflexivity.
    + replace (2 * (x mod 2 ^ Z.of_nat k' + 2 ^ Z.of_nat k' * 0)
               ?= 2 ^ Z.of_nat k' * 2) with Lt
        by (symmetry; apply Z.compare_lt_iff; lia).
      reflexivity.
Qed.

(** [shr] on an exact record: the quotient, and the rounding of it. *)
Lemma shr_exact : forall x e n, 0 <= x -> 0 <= n ->
  exists mrs,
    shr (Build_shr_record x false false) e n = (mrs, e + n) /\
    shr_m mrs = x / 2 ^ n /\
    round_nearest_even (shr_m mrs) (loc_of_shr_record mrs) = Zrnd x n.
Proof.
  intros x e n Hx Hn. destruct n as [|p|p]; [| |lia].
  - exists (Build_shr_record x false false). simpl.
    rewrite Z.add_0_r, Z.div_1_r. repeat split.
    unfold Zrnd. now rewrite Z.mod_1_r, Z.pow_0_r, Z.div_1_r.
  - exists (iter_pos shr_1 p (Build_shr_record x false false)).
    split; [reflexivity|].
    rewrite iter_pos_nat.
    pose proof (shr_ok_iter x (Pos.to_nat p) Hx) as Hok.
    rewrite <- (positive_nat_Z p).
    split; [apply Hok | now apply shr_ok_round].
Qed.

Lemma Zrnd_cases : forall x n, 0 <= n ->
  let q := x / 2 ^ n in
  let r := x mod 2 ^ n in
  (2 * r < 2 ^ n /\ Zrnd x n = q) \/
  (2 * r = 2 ^ n /\ Zrnd x n = if Z.even q then q else q + 1) \/
  (2 * r > 2 ^ n /\ Zrnd x n = q + 1).
Proof.
  intros x n Hn q r. unfold Zrnd. fold q. fold r.
  destruct (Z.compare_spec (2 * r) (2 ^ n)) as [H|H|H].
  - right. left. now split.
  - left. now split.
  - right. right. split; [lia | reflexivity].
Qed.

Lemma Zrnd_bounds : forall x n, 0 <= n ->
  x / 2 ^ n <= Zrnd x n <= x / 2 ^ n + 1.
Proof.
  intros x n Hn.
  destruct (Zrnd_cases x n Hn) as [[_ ->]|[[_ ->]|[_ ->]]]; try lia.
  destruct (Z.even _); lia.
Qed.

Lemma Zrnd_exact : forall x n, 0 <= n -> x mod 2 ^ n = 0 ->
  Zrnd x n = x / 2 ^ n.
Proof.
  intros x n Hn H. assert (0 < 2 ^ n) by lia.
  destruct (Zrnd_cases x n Hn) as [[_ ->]|[[E _]|[E _]]]; try reflexivity;
    rewrite H in E; lia.
Qed.

Lemma Zrnd_mono : forall x x' n, 0 <= n -> x <= x' ->
  Zrnd x n <= Zrnd x' n.
Proof.
  intros x x' n Hn Hle.
  assert (HP : 0 < 2 ^ n) by lia.
  pose proof (Z.div_mod x (2 ^ n) ltac:(lia)) as Dx.
  pose proof (Z.div_mod x' (2 ^ n) ltac:(lia)) as Dx'.
  pose proof (Z.mod_pos_bound x (2 ^ n) HP) as Bx.
  pose proof (Z.mod_pos_bound x' (2 ^ n) HP) as Bx'.
  pose proof (Z.div_le_mono x x' (2 ^ n) HP Hle) as Hq.
  pose proof (Zrnd_bounds x n Hn) as B1.
  pose proof (Zrnd_bounds x' n Hn) as B2.
  destruct (Z.eq_dec (x / 2 ^ n) (x' / 2 ^ n)) as [Heq|Hne]; [|lia].
  assert (Hr : x mod 2 ^ n <= x' mod 2 ^ n) by (rewrite Heq in Dx; lia).
  destruct (Zrnd_cases x n Hn) as [[E1 R1]|[[E1 R1]|[E1 R1]]];
    destruct (Zrnd_cases x' n Hn) as [[E2 R2]|[[E2 R2]|[E2 R2]]];
    rewrite R1, R2, Heq; clear R1 R2 B1 B2; try lia;
    destruct (Z.even (x' / 2 ^ n)); lia.
Qed.

Lemma Zrnd_scale : forall x n k, 0 <= n -> 0 <= k ->
  Zrnd (x * 2 ^ k) (n + k) = Zrnd x n.
Proof.
  intros x n k Hn Hk. unfold Zrnd.
  assert (0 < 2 ^ n) by lia. assert (0 < 2 ^ k) by lia.
  rewrite Z.pow_add_r by lia.
  rewrite Z.div_mul_cancel_r by lia.
  rewrite Z.mul_mod_distr_r by lia.
  replace (2 * (x mod 2 ^ n * 2 ^ k)) with (2 * (x mod 2 ^ n) * 2 ^ k) by lia.
  rewrite <- Zmult_compare_compat_r by lia. reflexivity.
Qed.

(** The rounded multiple is within half a unit of [x]. *)
Lemma Zrnd_near : forall x n, 0 <= n ->
  2 * Z.abs (Zrnd x n * 2 ^ n - x) <= 2 ^ n.
Proof.
  intros x n Hn. assert (HP : 0 < 2 ^ n) by lia.
  pose proof (Z.div_mod x (2 ^ n) ltac:(lia)) as Dx.
  pose proof (Z.mod_pos_bound x (2 ^ n) HP) as Bx.
  destruct (Zrnd_cases x n Hn) as [[E1 R1]|[[E1 R1]|[E1 R1]]]; rewrite R1;
    try destruct (Z.even _); lia.
Qed.

(** ** Rounding of scaled values

    A value [v] is handled as the integer [V = v * 2^s], for a scale [s] of
    at least 1074, so that every binary64 number is an integer. [qexp s V]
    is the exponent (scaled as well) of the binary64 numbers of the
    magnitude of [V], and [RN s V] the multiple of [2^(qexp s V)] nearest to
    [V], ties to even. *)
Definition qexp (s V : Z) : Z := fexp64 (Z.log2 V + 1 - s) + s.
Definition RN (s V : Z) : Z := Zrnd V (qexp s V) * 2 ^ qexp s V.

Lemma qexp_nonneg : forall s V, 1074 <= s -> 0 <= qexp s V.
Proof. intros s V Hs. unfold qexp, fexp64. lia. Qed.

Lemma qexp_mono : forall s V V', 0 < V -> V <= V' -> qexp s V <= qexp s V'.
Proof.
  intros s V V' H0 Hle. unfold qexp, fexp64.
  pose proof (Z.log2_le_mono V V' Hle). lia.
Qed.

Lemma pow2_le : forall a b, 0 <= a <= b -> 2 ^ a <= 2 ^ b.
Proof. intros a b H. apply Z.pow_le_mono_r; lia. Qed.

Lemma pow2_lt : forall a b, 0 <= a < b -> 2 ^ a < 2 ^ b.
Proof. intros a b H. apply Z.pow_lt_mono_r; lia. Qed.

Lemma pow2_split : forall a b, 0 <= b <= a -> 2 ^ a = 2 ^ (a - b) * 2 ^ b.
Proof.
  intros a b H. rewrite <- Z.pow_add_r by lia. f_equal. lia.
Qed.

Lemma div_pow2_lt : forall V D q, 0 <= q <= D -> V < 2 ^ D ->
  V / 2 ^ q < 2 ^ (D - q).
Proof.
  intros V D q Hq HV. apply Z.div_lt_upper_bound; [lia|].
  rewrite <- Z.pow_add_r by lia. replace (q + (D - q)) with D by lia. exact HV.
Qed.

Lemma div_pow2_ge : forall V D q, 0 <= q <= D -> 2 ^ D <= V ->
  2 ^ (D - q) <= V / 2 ^ q.
Proof.
  intros V D q Hq HV. apply Z.div_le_lower_bound; [lia|].
  rewrite <- Z.pow_add_r by lia. replace (q + (D - q)) with D by lia. exact HV.
Qed.

Lemma RN_nonneg : forall s V, 1074 <= s -> 0 <= V -> 0 <= RN s V.
Proof.
  intros s V Hs HV. unfold RN.
  pose proof (qexp_nonneg s V Hs) as Hq.
  pose proof (Zrnd_bounds V (qexp s V) Hq) as [B _].
  assert (0 <= V / 2 ^ qexp s V) by (apply Z.div_pos; lia).
  apply Z.mul_nonneg_nonneg; lia.
Qed.

Lemma RN_0 : forall s, 1074 <= s -> RN s 0 = 0.
Proof.
  intros s Hs. unfold RN. rewrite Zrnd_exact.
  - now rewrite Z.div_0_l by (pose proof (qexp_nonneg s 0 Hs); lia).
  - now apply qexp_nonneg.
  - apply Z.mod_0_l. pose proof (qexp_nonneg s 0 Hs). lia.
Qed.

(** The lower and upper bounds of [RN s V] by powers of two. *)
Lemma RN_ge_pow2 : forall s V D, 1074 <= s -> 0 <= D ->
  2 ^ D <= V -> qexp s V <= D -> 2 ^ D <= RN s V.
Proof.
  intros s V D Hs HD HV Hq. unfold RN.
  pose proof (qexp_nonneg s V Hs) as Hq0.
  pose proof (Zrnd_bounds V (qexp s V) Hq0) as [B _].
  pose proof (div_pow2_ge V D (qexp s V) ltac:(lia) HV) as B'.
  rewrite (pow2_split D (qexp s V)) by lia.
  apply Z.mul_le_mono_nonneg_r; lia.
Qed.

Lemma RN_le_pow2 : forall s V D, 1074 <= s ->
  0 <= V < 2 ^ D -> qexp s V <= D -> RN s V <= 2 ^ D.
Proof.
  intros s V D Hs HV Hq. unfold RN.
  pose proof (qexp_nonneg s V Hs) as Hq0.
  pose proof (Zrnd_bounds V (qexp s V) Hq0) as [_ B].
  pose proof (div_pow2_lt V D (qexp s V) ltac:(lia) ltac:(lia)) as B'.
  rewrite (pow2_split D (qexp s V)) by lia.
  apply Z.mul_le_mono_nonneg_r; lia.
Qed.

Lemma RN_small : forall s V, 1074 <= s ->
  0 <= V < 2 ^ qexp s V -> RN s V <= 2 ^ qexp s V.
Proof.
  intros s V Hs HV. unfold RN.
  pose proof (qexp_nonneg s V Hs) as Hq0.
  pose proof (Zrnd_bounds V (qexp s V) Hq0) as [_ B].
  rewrite Z.div_small in B by lia.
  assert (0 < 2 ^ qexp s V) by lia. nia.
Qed.

Theorem RN_mono : forall s V V', 1074 <= s -> 0 <= V <= V' ->
  RN s V <= RN s V'.
Proof.
  intros s V V' Hs [H0 Hle].
  destruct (Z.eq_dec V 0) as [->|Hnz].
  { rewrite RN_0 by exact Hs. apply RN_nonneg; lia. }
  assert (HV : 0 < V) by lia. assert (HV' : 0 < V') by lia.
  pose proof (qexp_mono s V V' HV Hle) as Hq.
  pose proof (qexp_nonneg s V Hs) as Hq0.
  destruct (Z.eq_dec (qexp s V) (qexp s V')) as [Heq|Hne].
  - unfold RN. rewrite <- Heq.
    apply Z.mul_le_mono_nonneg_r; [lia|]. now apply Zrnd_mono.
  - pose proof (log2_bounds V HV) as [_ BV].
    pose proof (log2_bounds V' HV') as [BV' _].
    pose proof (Z.log2_nonneg V). pose proof (Z.log2_nonneg V').
    pose proof (Z.log2_le_mono V V' Hle) as Hl.
    assert (Hq' : qexp s V' = Z.log2 V' + 1 - 53) by (unfold qexp, fexp64 in *; lia).
    assert (Hll : Z.log2 V < Z.log2 V').
    { destruct (Z.eq_dec (Z.log2 V) (Z.log2 V')) as [E|E]; [|lia].
      exfalso. apply Hne. unfold qexp. now rewrite E. }
    apply Z.le_trans with (2 ^ Z.log2 V').
    + destruct (Z_le_gt_dec (qexp s V) (Z.log2 V + 1)) as [Hc|Hc].
      * apply Z.le_trans with (2 ^ (Z.log2 V + 1)).
        -- apply RN_le_pow2; [exact Hs | lia | exact Hc].
        -- apply pow2_le. lia.
      * apply Z.le_trans with (2 ^ qexp s V).
        -- apply RN_small; [exact Hs|]. split; [lia|].
           apply Z.lt_le_trans with (2 ^ (Z.log2 V + 1)); [exact BV|].
           apply pow2_le. lia.
        -- apply pow2_le. lia.
    + apply RN_ge_pow2; [exact Hs | lia | exact BV' | lia].
Qed.

(** [V] is a binary64 number (scaled): a multiple of the unit of its
    magnitude. *)
Definition representable (s V : Z) : Prop := V mod 2 ^ qexp s V = 0.

Theorem RN_representable : forall s V, 1074 <= s -> 0 <= V ->
  representable s V -> RN s V = V.
Proof.
  intros s V Hs HV Hr. unfold RN. pose proof (qexp_nonneg s V Hs) as Hq.
  rewrite Zrnd_exact by assumption.
  pose proof (Z.div_mod V (2 ^ qexp s V) ltac:(lia)) as D.
  unfold representable in Hr. rewrite Hr in D. lia.
Qed.

Lemma qexp_scale : forall s V k, 0 < V -> 0 <= k ->
  qexp (s + k) (V * 2 ^ k) = qexp s V + k.
Proof.
  intros s V k HV Hk. unfold qexp.
  rewrite Z.log2_mul_pow2 by lia.
  replace (k + Z.log2 V + 1 - (s + k)) with (Z.log2 V + 1 - s) by lia. lia.
Qed.

Lemma RN_scale : forall s V k, 1074 <= s -> 0 < V -> 0 <= k ->
  RN (s + k) (V * 2 ^ k) = RN s V * 2 ^ k.
Proof.
  intros s V k Hs HV Hk. unfold RN. rewrite qexp_scale by assumption.
  pose proof (qexp_nonneg s V Hs).
  rewrite Zrnd_scale by lia. rewrite Z.pow_add_r by lia. lia.
Qed.

(** ** The value of a [spec_float], scaled by [2^s] *)

Definition SFmag (s : Z) (x : spec_float) : Z :=
  match x with
  | S754_zero _ | S754_nan => 0
  | S754_infinity _ => 2 ^ (1024 + s)
  | S754_finite _ m e => Z.pos m * 2 ^ (e + s)
  end.

Definition SFneg (x : spec_float) : bool :=
  match x with
  | S754_zero sx | S754_infinity sx | S754_finite sx _ _ => sx
  | S754_nan => false
  end.

Definition SFval (s : Z) (x : spec_float) : Z :=
  if SFneg x then - SFmag s x else SFmag s x.

Lemma shr_nonpos : forall mrs e n, n <= 0 -> shr mrs e n = (mrs, e).
Proof. intros mrs e [|p|p] H; try reflexivity. lia. Qed.

Lemma log2_mul_pow2 : forall m k, 0 < m -> 0 <= k ->
  Z.log2 (m * 2 ^ k) = Z.log2 m + k.
Proof. intros m k Hm Hk. rewrite Z.log2_mul_pow2 by lia. lia. Qed.

(** [RN] of the value [m * 2^e], from the rounding of [m]. *)
Lemma RN_mantissa : forall s m e, 1074 <= s -> 0 < m -> 0 <= e + s ->
  e <= fexp64 (Z.log2 m + 1 + e) ->
  RN s (m * 2 ^ (e + s))
  = Zrnd m (fexp64 (Z.log2 m + 1 + e) - e)
    * 2 ^ (fexp64 (Z.log2 m + 1 + e) + s).
Proof.
  intros s m e Hs Hm He Ha. unfold RN, qexp.
  rewrite log2_mul_pow2 by lia.
  replace (Z.log2 m + (e + s) + 1 - s) with (Z.log2 m + 1 + e) by lia.
  set (E := fexp64 (Z.log2 m + 1 + e)) in *.
  replace (E + s) with ((E - e) + (e + s)) at 1 by lia.
  rewrite Zrnd_scale by lia. reflexivity.
Qed.

Theorem binary_round_aux_spec : forall s sx m e,
  1074 <= s -> 0 <= e + s ->
  e <= fexp64 (Z.pos (digits2_pos m) + e) ->
  let r := binary_round_aux prec emax sx (Z.pos m) e loc_Exact in
  r <> S754_nan /\ SFneg r = sx /\
  SFmag s r = Z.min (RN s (Z.pos m * 2 ^ (e + s))) (2 ^ (1024 + s)).
Proof.
  intros s sx m e Hs He Ha r. subst r.
  rewrite RN_mantissa; try lia; [|rewrite <- digits2_log2; exact Ha].
  rewrite <- digits2_log2.
  unfold binary_round_aux, shr_fexp.
  change (SpecFloat.fexp prec emax) with fexp64.
  change (Zdigits2 (Z.pos m)) with (Z.pos (digits2_pos m)).
  change (shr_record_of_loc (Z.pos m) loc_Exact)
    with (Build_shr_record (Z.pos m) false false).
  set (d := Z.pos (digits2_pos m)) in *.
  set (E := fexp64 (d + e)) in *.
  assert (HE : -1074 <= E /\ d + e - 53 <= E /\
               (E = -1074 \/ E = d + e - 53))
    by (unfold E, fexp64; lia).
  destruct (shr_exact (Z.pos m) e (E - e) ltac:(lia) ltac:(lia))
    as (mrs & -> & Hm1 & Hrnd).
  rewrite Hrnd. clear Hrnd.
  replace (e + (E - e)) with E by lia.
  set (m2 := Zrnd (Z.pos m) (E - e)) in *.
  pose proof (Zrnd_bounds (Z.pos m) (E - e) ltac:(lia)) as Hb. fold m2 in Hb.
  assert (Hd : 2 ^ (d - 1) <= Z.pos m < 2 ^ d).
  { unfold d. rewrite digits2_log2.
    replace (Z.log2 (Z.pos m) + 1 - 1) with (Z.log2 (Z.pos m)) by lia.
    apply log2_bounds. lia. }
  assert (Hd0 : 1 <= d) by (unfold d; lia).
  assert (Hm1lt : Z.pos m / 2 ^ (E - e) < 2 ^ 53).
  { destruct (Z_le_gt_dec (E - e) d) as [Hc|Hc].
    - apply Z.lt_le_trans with (2 ^ (d - (E - e))).
      + apply div_pow2_lt; lia.
      + apply pow2_le. lia.
    - rewrite Z.div_small; [lia|]. split; [lia|].
      apply Z.lt_le_trans with (2 ^ d); [lia|]. apply pow2_le. lia. }
  assert (Hm1ge : 0 <= Z.pos m / 2 ^ (E - e)) by (apply Z.div_pos; lia).
  assert (Hbig : -1074 < E -> 2 ^ 52 <= Z.pos m / 2 ^ (E - e)).
  { intros HEn. replace 52 with ((d - 1) - (E - e)) by lia.
    apply div_pow2_ge; lia. }
  assert (Hm2 : 0 <= m2 <= 2 ^ 53) by lia.
  assert (HpE : 0 < 2 ^ (E + s)) by (apply Z.pow_pos_nonneg; lia).
  (* the second shift *)
  destruct (Z.eq_dec m2 (2 ^ 53)) as [Htop|Htop].
  - rewrite Htop.
    change (Zdigits2 (2 ^ 53)) with 54.
    replace (fexp64 (54 + E) - E) with 1 by (unfold fexp64; lia).
    change (shr (shr_record_of_loc (2 ^ 53) loc_Exact) E 1)
      with (Build_shr_record (2 ^ 52) false false, E + 1).
    cbn [shr_m]. change (2 ^ 52) with (Z.pos 4503599627370496).
    cbv iota. change (emax - prec) with 971.
    assert (Hv : 2 ^ 52 * 2 ^ (E + 1 + s) = 2 ^ 53 * 2 ^ (E + s)).
    { replace (E + 1 + s) with (1 + (E + s)) by lia.
      rewrite (Z.pow_add_r 2 1) by lia. lia. }
    destruct (E + 1 <=? 971) eqn:Ele.
    + apply Z.leb_le in Ele. cbn [SFneg SFmag]. repeat split; try discriminate.
      change (Z.pos 4503599627370496) with (2 ^ 52). rewrite Hv.
      rewrite Z.min_l; [reflexivity|].
      replace (1024 + s) with (53 + (971 + s)) by lia.
      rewrite (Z.pow_add_r 2 53) by lia.
      apply Z.mul_le_mono_nonneg_l; [lia|]. apply pow2_le. lia.
    + apply Z.leb_gt in Ele. cbn [SFneg SFmag]. repeat split; try discriminate.
      rewrite Z.min_r; [reflexivity|].
      replace (1024 + s) with (53 + (971 + s)) by lia.
      rewrite (Z.pow_add_r 2 53) by lia.
      apply Z.mul_le_mono_nonneg_l; [lia|]. apply pow2_le. lia.
  - assert (Hm2' : 0 <= m2 < 2 ^ 53) by lia.
    assert (Hn2 : fexp64 (Zdigits2 m2 + E) - E <= 0).
    { destruct m2 as [|p|p]; [simpl; unfold fexp64; lia| |lia].
      change (Zdigits2 (Z.pos p)) with (Z.pos (digits2_pos p)).
      rewrite digits2_log2.
      assert (Z.log2 (Z.pos p) < 53) by (apply Z.log2_lt_pow2; lia).
      unfold fexp64. lia. }
    change (shr_record_of_loc m2 loc_Exact)
      with (Build_shr_record m2 false false).
    rewrite shr_nonpos by exact Hn2. cbn [shr_m].
    change (emax - prec) with 971.
    destruct m2 as [|p|p] eqn:Em2; [| |lia].
    + cbn [SFneg SFmag]. repeat split; try discriminate.
      rewrite Z.mul_0_l. rewrite Z.min_l; [reflexivity|].
      apply Z.pow_nonneg. lia.
    + destruct (E <=? 971) eqn:Ele.
      * apply Z.leb_le in Ele. cbn [SFneg SFmag].
        repeat split; try discriminate.
        rewrite Z.min_l; [reflexivity|].
        replace (1024 + s) with (53 + (971 + s)) by lia.
        rewrite (Z.pow_add_r 2 53) by lia.
        apply Z.le_trans with (2 ^ 53 * 2 ^ (E + s)).
        -- apply Z.mul_le_mono_nonneg_r; lia.
        -- apply Z.mul_le_mono_nonneg_l; [lia|]. apply pow2_le. lia.
      * apply Z.leb_gt in Ele. cbn [SFneg SFmag].
        repeat split; try discriminate.
        rewrite Z.min_r; [reflexivity|].
        replace (1024 + s) with (52 + (972 + s)) by lia.
        rewrite (Z.pow_add_r 2 52) by lia.
        apply Z.le_trans with (2 ^ 52 * 2 ^ (E + s)).
        -- apply Z.mul_le_mono_nonneg_l; [lia|]. apply pow2_le. lia.
        -- apply Z.mul_le_mono_nonneg_r; [lia|].
           specialize (Hbig ltac:(lia)). lia.
Qed.

Lemma iter_xO : forall m d, Z.pos (Pos.iter xO m d) = Z.pos m * 2 ^ Z.pos d.
Proof.
  intros m d. induction d as [|d IH] using Pos.peano_ind.
  - simpl. lia.
  - rewrite Pos.iter_succ, Pos2Z.inj_xO, IH, Pos2Z.inj_succ.
    rewrite Z.pow_succ_r by lia. lia.
Qed.

Lemma shl_align_spec : forall m e e',
  exists mz, shl_align m e e' = (mz, Z.min e e') /\
             Z.pos mz = Z.pos m * 2 ^ (e - Z.min e e').
Proof.
  intros m e e'. unfold shl_align.
  destruct (e' - e) as [|p|p] eqn:E.
  - exists m. replace (Z.min e e') with e by lia.
    rewrite Z.sub_diag. simpl. split; [reflexivity | lia].
  - exists m. replace (Z.min e e') with e by lia.
    rewrite Z.sub_diag. simpl. split; [reflexivity | lia].
  - exists (Pos.iter xO m p). replace (Z.min e e') with e' by lia.
    split; [reflexivity|]. rewrite iter_xO. f_equal. f_equal. lia.
Qed.

Theorem binary_round_spec : forall s sx m e,
  1074 <= s -> 0 <= e + s ->
  let r := binary_round prec emax sx m e in
  r <> S754_nan /\ SFneg r = sx /\
  SFmag s r = Z.min (RN s (Z.pos m * 2 ^ (e + s))) (2 ^ (1024 + s)).
Proof.
  intros s sx m e Hs He. unfold binary_round.
  change (SpecFloat.fexp prec emax) with fexp64.
  destruct (shl_align_spec m e (fexp64 (Z.pos (digits2_pos m) + e)))
    as (mz & -> & Hmz).
  set (ez := Z.min e (fexp64 (Z.pos (digits2_pos m) + e))) in *.
  assert (Hdz : Z.pos (digits2_pos mz) = Z.pos (digits2_pos m) + (e - ez)).
  { rewrite !digits2_log2, Hmz, log2_mul_pow2 by lia. lia. }
  assert (Hez : -1074 <= ez \/ ez = e) by (unfold ez, fexp64; lia).
  pose proof (binary_round_aux_spec s sx mz ez Hs ltac:(lia)) as H.
  rewrite Hdz in H.
  replace (Z.pos (digits2_pos m) + (e - ez) + ez)
    with (Z.pos (digits2_pos m) + e) in H by lia.
  specialize (H ltac:(unfold ez; lia)).
  replace (Z.pos mz * 2 ^ (ez + s)) with (Z.pos m * 2 ^ (e + s)) in H.
  - exact H.
  - rewrite Hmz, <- Z.mul_assoc, <- Z.pow_add_r by lia. f_equal. f_equal. lia.
Qed.

(** Rounding to nearest even of a signed scaled value, with overflow to
    the infinities, whose scaled value is [2^(1024 + s)]. *)
Definition clip (s V : Z) : Z := Z.min V (2 ^ (1024 + s)).
Definition RNs (s V : Z) : Z :=
  if V <? 0 then - clip s (RN s (- V)) else clip s (RN s V).

Lemma clip_mono : forall s V V', V <= V' -> clip s V <= clip s V'.
Proof. intros s V V' H. unfold clip. lia. Qed.

Lemma clip_nonneg : forall s V, 0 <= s -> 0 <= V -> 0 <= clip s V.
Proof.
  intros s V Hs HV. unfold clip.
  assert (0 < 2 ^ (1024 + s)) by (apply Z.pow_pos_nonneg; lia). lia.
Qed.

Theorem RNs_mono : forall s V V', 1074 <= s -> V <= V' -> RNs s V <= RNs s V'.
Proof.
  intros s V V' Hs Hle. unfold RNs.
  destruct (V <? 0) eqn:E1; destruct (V' <? 0) eqn:E2;
    try apply Z.ltb_lt in E1; try apply Z.ltb_ge in E1;
    try apply Z.ltb_lt in E2; try apply Z.ltb_ge in E2.
  - apply Z.opp_le_mono. rewrite !Z.opp_involutive.
    apply clip_mono, RN_mono; lia.
  - pose proof (clip_nonneg s (RN s (- V)) ltac:(lia)
                  (RN_nonneg s (- V) Hs ltac:(lia))).
    pose proof (clip_nonneg s (RN s V') ltac:(lia)
                  (RN_nonneg s V' Hs ltac:(lia))).
    lia.
  - lia.
  - apply clip_mono, RN_mono; lia.
Qed.

Theorem binary_normalize_spec : forall s m e szero,
  1074 <= s -> 0 <= e + s ->
  let r := binary_normalize prec emax m e szero in
  r <> S754_nan /\
  SFval s r = RNs s (m * 2 ^ (e + s)) /\
  (0 < m -> SFneg r = false) /\ (m < 0 -> SFneg r = true).
Proof.
  intros s m e szero Hs He.
  assert (HP : 0 < 2 ^ (e + s)) by (apply Z.pow_pos_nonneg; lia).
  destruct m as [|p|p]; simpl binary_normalize.
  - split; [discriminate|]. split; [|split; lia].
    unfold SFval, RNs. simpl. rewrite RN_0 by exact Hs. unfold clip.
    assert (0 < 2 ^ (1024 + s)) by (apply Z.pow_pos_nonneg; lia).
    destruct szero; lia.
  - destruct (binary_round_spec s false p e Hs He) as (Hn & Hsg & Hm).
    split; [exact Hn|]. split; [|split; [auto | lia]].
    unfold SFval, RNs. rewrite Hsg, Hm.
    replace (Z.pos p * 2 ^ (e + s) <? 0) with false
      by (symmetry; apply Z.ltb_ge; lia).
    reflexivity.
  - destruct (binary_round_spec s true p e Hs He) as (Hn & Hsg & Hm).
    split; [exact Hn|]. split; [|split; [lia | auto]].
    unfold SFval, RNs. rewrite Hsg, Hm.
    replace (Z.neg p * 2 ^ (e + s) <? 0) with true
      by (symmetry; apply Z.ltb_lt; lia).
    replace (- (Z.neg p * 2 ^ (e + s))) with (Z.pos p * 2 ^ (e + s)) by lia.
    reflexivity.
Qed.

(** ** Valid binary64 numbers *)

Lemma valid_finite : forall sx m e,
  valid_binary (S754_finite sx m e) = true ->
  e = fexp64 (Z.log2 (Z.pos m) + 1 + e) /\ -1074 <= e <= 971 /\
  Z.pos m < 2 ^ 53 /\ (-1074 < e -> 2 ^ 52 <= Z.pos m).
Proof.
  intros sx m e H. simpl in H. unfold bounded, canonical_mantissa in H.
  apply andb_true_iff in H. destruct H as [Hc He].
  apply Z.eqb_eq in Hc. apply Z.leb_le in He.
  change (SpecFloat.fexp prec emax) with fexp64 in Hc.
  change (emax - prec) with 971 in He.
  rewrite digits2_log2 in Hc.
  pose proof (log2_bounds (Z.pos m) ltac:(lia)) as [B1 B2].
  pose proof (Z.log2_nonneg (Z.pos m)) as Hl.
  assert (Hl53 : Z.log2 (Z.pos m) + 1 <= 53) by (unfold fexp64 in Hc; lia).
  split; [now symmetry|]. split; [unfold fexp64 in Hc; lia|]. split.
  - apply Z.lt_le_trans with (2 ^ (Z.log2 (Z.pos m) + 1)); [exact B2|].
    apply pow2_le. lia.
  - intros Hn. assert (Z.log2 (Z.pos m) = 52) as E by (unfold fexp64 in Hc; lia).
    now rewrite E in B1.
Qed.

Lemma finite_mag_bounds : forall s sx m e, 1074 <= s ->
  valid_binary (S754_finite sx m e) = true ->
  0 < SFmag s (S754_finite sx m e) < 2 ^ (1024 + s).
Proof.
  intros s sx m e Hs H. apply valid_finite in H.
  destruct H as (_ & He & Hm & _). cbn [SFmag].
  assert (0 < 2 ^ (e + s)) by (apply Z.pow_pos_nonneg; lia).
  split; [apply Z.mul_pos_pos; lia|].
  apply Z.lt_le_trans with (2 ^ 53 * 2 ^ (e + s)).
  - apply Z.mul_lt_mono_pos_r; lia.
  - rewrite <- Z.pow_add_r by lia. apply pow2_le. lia.
Qed.

Lemma canonical_lt : forall s s1 m1 e1 s2 m2 e2, 1074 <= s ->
  valid_binary (S754_finite s1 m1 e1) = true ->
  valid_binary (S754_finite s2 m2 e2) = true ->
  e1 < e2 -> Z.pos m1 * 2 ^ (e1 + s) < Z.pos m2 * 2 ^ (e2 + s).
Proof.
  intros s s1 m1 e1 s2 m2 e2 Hs H1 H2 He.
  apply valid_finite in H1. apply valid_finite in H2.
  destruct H1 as (_ & He1 & Hm1 & _). destruct H2 as (_ & He2 & _ & Hm2).
  specialize (Hm2 ltac:(lia)).
  assert (0 < 2 ^ (e1 + s)) by (apply Z.pow_pos_nonneg; lia).
  assert (0 < 2 ^ (e2 + s)) by (apply Z.pow_pos_nonneg; lia).
  apply Z.lt_le_trans with (2 ^ 53 * 2 ^ (e1 + s)).
  - apply Z.mul_lt_mono_pos_r; lia.
  - apply Z.le_trans with (2 ^ 52 * 2 ^ (e2 + s)).
    + rewrite <- !Z.pow_add_r by lia. apply pow2_le. lia.
    + apply Z.mul_le_mono_nonneg_r; lia.
Qed.

Lemma finite_compare : forall s s1 m1 e1 s2 m2 e2, 1074 <= s ->
  valid_binary (S754_finite s1 m1 e1) = true ->
  valid_binary (S754_finite s2 m2 e2) = true ->
  match e1 ?= e2 with
  | Lt => Lt
  | Gt => Gt
  | Eq => Pos.compare_cont Eq m1 m2
  end = (Z.pos m1 * 2 ^ (e1 + s) ?= Z.pos m2 * 2 ^ (e2 + s)).
Proof.
  intros s s1 m1 e1 s2 m2 e2 Hs H1 H2.
  destruct (Z.compare_spec e1 e2) as [E|E|E].
  - subst e2. fold (Pos.compare m1 m2).
    assert (0 < 2 ^ (e1 + s)).
    { apply valid_finite in H1. apply Z.pow_pos_nonneg; lia. }
    rewrite <- Zmult_compare_compat_r by lia. reflexivity.
  - symmetry. apply Z.compare_lt_iff.
    now apply (canonical_lt s s1 m1 e1 s2 m2 e2).
  - symmetry. apply Z.compare_gt_iff.
    now apply (canonical_lt s s2 m2 e2 s1 m1 e1).
Qed.

Theorem SFcompare_val : forall s x y, 1074 <= s ->
  valid_binary x = true -> valid_binary y = true ->
  x <> S754_nan -> y <> S754_nan ->
  SFcompare x y = Some (SFval s x ?= SFval s y).
Proof.
  intros s x y Hs Hx Hy Nx Ny.
  assert (HI : 0 < 2 ^ (1024 + s)) by (apply Z.pow_pos_nonneg; lia).
  destruct x as [sx|sx| |sx mx ex]; [| |congruence|];
    destruct y as [sy|sy| |sy my ey]; try congruence;
    try pose proof (finite_mag_bounds s sx mx ex Hs Hx) as Bx;
    try pose proof (finite_mag_bounds s sy my ey Hs Hy) as By;
    unfold SFval; cbn [SFcompare SFneg]; cbn [SFmag] in *.
  - f_equal. destruct sx, sy; reflexivity.
  - f_equal. destruct sx, sy; symmetry;
      first [apply Z.compare_lt_iff; lia | apply Z.compare_gt_iff; lia].
  - f_equal. destruct sx, sy; symmetry;
      first [apply Z.compare_lt_iff; lia | apply Z.compare_gt_iff; lia].
  - f_equal. destruct sx, sy; symmetry;
      first [apply Z.compare_lt_iff; lia | apply Z.compare_gt_iff; lia].
  - f_equal. destruct sx, sy; symmetry;
      first [apply Z.compare_eq_iff; lia | apply Z.compare_lt_iff; lia
            | apply Z.compare_gt_iff; lia].
  - f_equal. destruct sx, sy; symmetry;
      first [apply Z.compare_lt_iff; lia | apply Z.compare_gt_iff; lia].
  - f_equal. destruct sx, sy; symmetry;
      first [apply Z.compare_lt_iff; lia | apply Z.compare_gt_iff; lia].
  - f_equal. destruct sx, sy; symmetry;
      first [apply Z.compare_lt_iff; lia | apply Z.compare_gt_iff; lia].
  - f_equal. pose proof (finite_compare s sx mx ex sy my ey Hs Hx Hy) as F.
    pose proof (finite_compare s sy my ey sx mx ex Hs Hy Hx) as F'.
    destruct sx, sy.
    + rewrite Z.compare_opp. rewrite <- F'.
      rewrite (Z.compare_antisym ey ex). rewrite (Pos.compare_cont_antisym).
      destruct (ey ?= ex); reflexivity.
    + symmetry. apply Z.compare_lt_iff. lia.
    + symmetry. apply Z.compare_gt_iff. lia.
    + exact F.
Qed.

Lemma valid_representable : forall s sx m e, 1074 <= s ->
  valid_binary (S754_finite sx m e) = true ->
  representable s (Z.pos m * 2 ^ (e + s)).
Proof.
  intros s sx m e Hs H. apply valid_finite in H.
  destruct H as (Hc & He & _ & _). unfold representable, qexp.
  rewrite log2_mul_pow2 by lia.
  replace (Z.log2 (Z.pos m) + (e + s) + 1 - s)
    with (Z.log2 (Z.pos m) + 1 + e) by lia.
  rewrite <- Hc. apply Z.mod_mul.
  assert (0 < 2 ^ (e + s)) by (apply Z.pow_pos_nonneg; lia). lia.
Qed.

Lemma RN_infinity : forall s, 1074 <= s -> RN s (2 ^ (1024 + s)) = 2 ^ (1024 + s).
Proof.
  intros s Hs.
  assert (0 < 2 ^ (1024 + s)) by (apply Z.pow_pos_nonneg; lia).
  apply RN_representable; [exact Hs | lia |].
  unfold representable, qexp. rewrite Z.log2_pow2 by lia.
  replace (fexp64 (1024 + s + 1 - s) + s) with (972 + s)
    by (unfold fexp64; lia).
  rewrite (pow2_split (1024 + s) (972 + s)) by lia.
  apply Z.mod_mul.
  assert (0 < 2 ^ (972 + s)) by (apply Z.pow_pos_nonneg; lia). lia.
Qed.

Theorem RNs_val : forall s x, 1074 <= s ->
  valid_binary x = true -> RNs s (SFval s x) = SFval s x.
Proof.
  intros s x Hs Hx.
  assert (HI : 0 < 2 ^ (1024 + s)) by (apply Z.pow_pos_nonneg; lia).
  assert (H0 : RNs s 0 = 0).
  { unfold RNs, clip. simpl. rewrite RN_0 by exact Hs. lia. }
  assert (Hpos : forall V, 0 < V <= 2 ^ (1024 + s) -> RN s V = V ->
                 RNs s V = V /\ RNs s (- V) = - V).
  { intros V HV HR. unfold RNs, clip.
    replace (V <? 0) with false by (symmetry; apply Z.ltb_ge; lia).
    replace (- V <? 0) with true by (symmetry; apply Z.ltb_lt; lia).
    rewrite Z.opp_involutive, HR. lia. }
  destruct x as [sx|sx| |sx m e]; unfold SFval; cbn [SFneg SFmag].
  - destruct sx; exact H0.
  - destruct (Hpos (2 ^ (1024 + s)) ltac:(lia) (RN_infinity s Hs)).
    destruct sx; assumption.
  - exact H0.
  - pose proof (finite_mag_bounds s sx m e Hs Hx) as B. cbn [SFmag] in B.
    destruct (Hpos (Z.pos m * 2 ^ (e + s)) ltac:(lia)).
    + apply RN_representable; [exact Hs | lia |].
      now apply (valid_representable s sx).
    + destruct sx; assumption.
Qed.

(** Zeros and finite numbers. *)
Definition SFfin (x : spec_float) : Prop :=
  match x with
  | S754_zero _ | S754_finite _ _ _ => True
  | _ => False
  end.

Lemma SFval_finite : forall s sx m e,
  SFval s (S754_finite sx m e) = cond_Zopp sx (Z.pos m) * 2 ^ (e + s).
Proof. intros s [|] m e; unfold SFval; cbn [SFneg SFmag cond_Zopp]; ring. Qed.

Theorem SFadd_val : forall s x y, 1074 <= s ->
  valid_binary x = true -> valid_binary y = true -> SFfin x -> SFfin y ->
  SFadd prec emax x y <> S754_nan /\
  SFval s (SFadd prec emax x y) = RNs s (SFval s x + SFval s y).
Proof.
  intros s x y Hs Hx Hy Fx Fy.
  assert (H0 : RNs s 0 = 0).
  { unfold RNs, clip. simpl. rewrite RN_0 by exact Hs.
    assert (0 < 2 ^ (1024 + s)) by (apply Z.pow_pos_nonneg; lia). lia. }
  destruct x as [sx|sx| |sx mx ex]; try contradiction;
    destruct y as [sy|sy| |sy my ey]; try contradiction.
  - split; [destruct sx, sy; discriminate|].
    assert (forall b, SFval s (S754_zero b) = 0) as Z0
      by (intros [|]; reflexivity).
    rewrite !Z0. simpl. rewrite H0. destruct sx, sy; apply Z0.
  - split; [discriminate|]. cbn [SFadd].
    replace (SFval s (S754_zero sx)) with 0 by (destruct sx; reflexivity).
    rewrite Z.add_0_l. symmetry. now apply RNs_val.
  - split; [discriminate|]. cbn [SFadd].
    replace (SFval s (S754_zero sy)) with 0 by (destruct sy; reflexivity).
    rewrite Z.add_0_r. symmetry. now apply RNs_val.
  - cbn [SFadd].
    pose proof (valid_finite _ _ _ Hx) as (_ & Hex & _ & _).
    pose proof (valid_finite _ _ _ Hy) as (_ & Hey & _ & _).
    destruct (shl_align_spec mx ex (Z.min ex ey)) as (mx' & -> & Emx).
    destruct (shl_align_spec my ey (Z.min ex ey)) as (my' & -> & Emy).
    cbn [fst].
    replace (Z.min ex (Z.min ex ey)) with (Z.min ex ey) in Emx by lia.
    replace (Z.min ey (Z.min ex ey)) with (Z.min ex ey) in Emy by lia.
    set (ez := Z.min ex ey) in *.
    destruct (binary_normalize_spec s
                (cond_Zopp sx (Z.pos mx') + cond_Zopp sy (Z.pos my')) ez false
                Hs ltac:(lia)) as (Hn & Hv & _).
    split; [exact Hn|]. rewrite Hv. f_equal.
    rewrite !SFval_finite.
    assert (Px : Z.pos mx' * 2 ^ (ez + s) = Z.pos mx * 2 ^ (ex + s)).
    { rewrite Emx, <- Z.mul_assoc, <- Z.pow_add_r by lia.
      f_equal. f_equal. lia. }
    assert (Py : Z.pos my' * 2 ^ (ez + s) = Z.pos my * 2 ^ (ey + s)).
    { rewrite Emy, <- Z.mul_assoc, <- Z.pow_add_r by lia.
      f_equal. f_equal. lia. }
    destruct sx, sy; cbn [cond_Zopp]; lia.
Qed.

Lemma SFmag_scale : forall s k x, 0 <= k -> 1074 <= s ->
  valid_binary x = true -> SFfin x -> SFmag (s + k) x = SFmag s x * 2 ^ k.
Proof.
  intros s k x Hk Hs Hx Fx. destruct x as [sx|sx| |sx m e]; try contradiction.
  - reflexivity.
  - cbn [SFmag]. apply valid_finite in Hx.
    replace (e + (s + k)) with ((e + s) + k) by lia.
    rewrite Z.pow_add_r by lia. lia.
Qed.

Theorem SFmul_val : forall s x y, 1074 <= s ->
  valid_binary x = true -> valid_binary y = true -> SFfin x -> SFfin y ->
  let r := SFmul prec emax x y in
  r <> S754_nan /\ SFneg r = xorb (SFneg x) (SFneg y) /\
  SFmag (s + s) r = clip (s + s) (RN (s + s) (SFmag s x * SFmag s y)).
Proof.
  intros s x y Hs Hx Hy Fx Fy.
  assert (H0 : clip (s + s) (RN (s + s) 0) = 0).
  { unfold clip. rewrite RN_0 by lia.
    assert (0 < 2 ^ (1024 + (s + s))) by (apply Z.pow_pos_nonneg; lia). lia. }
  destruct x as [sx|sx| |sx mx ex]; try contradiction;
    destruct y as [sy|sy| |sy my ey]; try contradiction;
    cbn [SFmul SFneg SFmag]; rewrite ?Z.mul_0_l, ?Z.mul_0_r, ?H0;
    try (repeat split; [discriminate]).
  pose proof (valid_finite _ _ _ Hx) as (Cx & Hex & _ & _).
  pose proof (valid_finite _ _ _ Hy) as (Cy & Hey & _ & _).
  pose proof (Z.log2_nonneg (Z.pos mx)). pose proof (Z.log2_nonneg (Z.pos my)).
  pose proof (Z.log2_mul_below (Z.pos mx) (Z.pos my) ltac:(lia) ltac:(lia))
    as Hl.
  destruct (binary_round_aux_spec (s + s) (xorb sx sy) (mx * my) (ex + ey)
              ltac:(lia) ltac:(lia)) as (Hn & Hsg & Hm).
  { rewrite digits2_log2, Pos2Z.inj_mul. unfold fexp64 in *. lia. }
  split; [exact Hn|]. split; [exact Hsg|].
  rewrite Hm. unfold clip. f_equal. f_equal. rewrite Pos2Z.inj_mul.
  replace (ex + ey + (s + s)) with ((ex + s) + (ey + s)) by lia.
  rewrite Z.pow_add_r by lia. lia.
Qed.

(** ** Primitive floats *)

(** The value of a [float], scaled by [2^1074]: an integer; the infinities
    are [2^2098] and its opposite. *)
Definition val (x : float) : Z := SFval 1074 (Prim2SF x).

Definition not_nan (x : float) : Prop := Prim2SF x <> S754_nan.
Definition finite (x : float) : Prop := SFfin (Prim2SF x).

Lemma compare_val : forall x y, not_nan x -> not_nan y ->
  SFcompare (Prim2SF x) (Prim2SF y) = Some (val x ?= val y).
Proof.
  intros x y Hx Hy. apply SFcompare_val; try assumption; try lia;
    apply Prim2SF_valid.
Qed.

Lemma SFcompare_nan : forall x y,
  x = S754_nan \/ y = S754_nan -> SFcompare x y = None.
Proof.
  intros x y [-> | ->]; [reflexivity|]. destruct x; reflexivity.
Qed.

Lemma not_nan_dec : forall x, {not_nan x} + {Prim2SF x = S754_nan}.
Proof.
  intros x. unfold not_nan. destruct (Prim2SF x); try (left; discriminate).
  right. reflexivity.
Qed.

Theorem leb_val : forall x y,
  (x <=? y)%float = true <-> not_nan x /\ not_nan y /\ val x <= val y.
Proof.
  intros x y. rewrite FloatAxioms.leb_spec. unfold SFleb.
  destruct (not_nan_dec x) as [Hx|Hx]; [destruct (not_nan_dec y) as [Hy|Hy]|].
  - rewrite compare_val by assumption.
    destruct (Z.compare_spec (val x) (val y)); split; intros H';
      try (repeat split; assumption || lia); try discriminate;
      destruct H' as (_ & _ & H'); lia.
  - rewrite SFcompare_nan by (now right).
    split; [discriminate | intros (_ & H' & _); contradiction].
  - rewrite SFcompare_nan by (now left).
    split; [discriminate | intros (H' & _); contradiction].
Qed.

Theorem ltb_val : forall x y,
  (x <? y)%float = true <-> not_nan x /\ not_nan y /\ val x < val y.
Proof.
  intros x y. rewrite FloatAxioms.ltb_spec. unfold SFltb.
  destruct (not_nan_dec x) as [Hx|Hx]; [destruct (not_nan_dec y) as [Hy|Hy]|].
  - rewrite compare_val by assumption.
    destruct (Z.compare_spec (val x) (val y)); split; intros H';
      try (repeat split; assumption || lia); try discriminate;
      destruct H' as (_ & _ & H'); lia.
  - rewrite SFcompare_nan by (now right).
    split; [discriminate | intros (_ & H' & _); contradiction].
  - rewrite SFcompare_nan by (now left).
    split; [discriminate | intros (H' & _); contradiction].
Qed.

Lemma ltb_false_val : forall x y, not_nan x -> not_nan y ->
  (x <? y)%float = false -> val y <= val x.
Proof.
  intros x y Hx Hy H.
  destruct (Z_le_gt_dec (val y) (val x)) as [|Hc]; [assumption|].
  assert ((x <? y)%float = true) by (apply ltb_val; repeat split; auto; lia).
  congruence.
Qed.

Lemma leb_refl : forall x, not_nan x -> (x <=? x)%float = true.
Proof. intros x H. apply leb_val. repeat split; auto; lia. Qed.

Lemma leb_trans : forall x y z,
  (x <=? y)%float = true -> (y <=? z)%float = true -> (x <=? z)%float = true.
Proof.
  intros x y z H1 H2. apply leb_val in H1, H2. apply leb_val.
  destruct H1 as (? & ? & ?), H2 as (? & ? & ?). repeat split; auto; lia.
Qed.

Lemma val_zero : val 0%float = 0.
Proof. reflexivity. Qed.

Lemma val_infinity : val infinity = 2 ^ 2098.
Proof. reflexivity. Qed.

Lemma finite_val_lt : forall x, finite x -> - 2 ^ 2098 < val x < 2 ^ 2098.
Proof.
  intros x H. unfold finite, val in *. pose proof (Prim2SF_valid x) as V.
  destruct (Prim2SF x) as [sx|sx| |sx m e]; try contradiction.
  - unfold SFval. destruct sx; simpl; lia.
  - pose proof (finite_mag_bounds 1074 sx m e ltac:(lia) V) as B.
    change (2 ^ (1024 + 1074)) with (2 ^ 2098) in B.
    unfold SFval. destruct sx; cbn [SFneg]; lia.
Qed.

Lemma not_nan_lt_infinity_finite : forall x,
  not_nan x -> - 2 ^ 2098 < val x < 2 ^ 2098 -> finite x.
Proof.
  intros x Hn H. unfold finite, val, not_nan in *.
  destruct (Prim2SF x) as [sx|sx| |sx m e]; simpl; auto.
  unfold SFval in H. destruct sx; simpl in H; lia.
Qed.

Theorem add_val : forall x y, finite x -> finite y ->
  not_nan (x + y) /\ val (x + y) = RNs 1074 (val x + val y).
Proof.
  intros x y Hx Hy. unfold not_nan, val. rewrite FloatAxioms.add_spec.
  apply SFadd_val; try assumption; try lia; apply Prim2SF_valid.
Qed.

Lemma add_infinity_l : forall x y, finite y ->
  (exists sx, Prim2SF x = S754_infinity sx) ->
  Prim2SF (x + y) = Prim2SF x.
Proof.
  intros x y Hy [sx Hx]. rewrite FloatAxioms.add_spec. unfold SF64add, finite in *.
  rewrite Hx. destruct (Prim2SF y); try contradiction; reflexivity.
Qed.

Lemma add_pos_infinity : forall x a,
  not_nan x -> - 2 ^ 2098 < val x ->
  Prim2SF a = S754_infinity false ->
  Prim2SF (x + a) = S754_infinity false.
Proof.
  intros x a Hx Hv Ea. rewrite FloatAxioms.add_spec. unfold SF64add.
  unfold val, not_nan in *. rewrite Ea.
  destruct (Prim2SF x) as [sx|sx| |sx m e]; try reflexivity.
  - destruct sx; [|reflexivity]. cbn in Hv. lia.
  - contradiction.
Qed.

Lemma nonneg_cases : forall a,
  (0 <=? a)%float = true -> finite a \/ Prim2SF a = S754_infinity false.
Proof.
  intros a H0. apply leb_val in H0. destruct H0 as (_ & Ha & H0).
  rewrite val_zero in H0. unfold finite, val, not_nan in *.
  destruct (Prim2SF a) as [sa|sa| |sa m e]; simpl; auto.
  destruct sa; [|now right]. cbn in H0. lia.
Qed.

(** Adding a non-negative number does not decrease a number, when the sum
    is not that of the two infinities of opposite signs. *)
Theorem add_nonneg_le : forall x a,
  not_nan x -> (0 <=? a)%float = true ->
  (neg_infinity <? x)%float = true \/ (a <? infinity)%float = true ->
  not_nan (x + a) /\ (x <=? x + a)%float = true.
Proof.
  intros x a Hx H0 Hd.
  pose proof (leb_val 0 a) as La. apply proj1 in La. specialize (La H0).
  destruct La as (_ & Ha & La). rewrite val_zero in La.
  destruct (nonneg_cases a H0) as [Fa|Ea].
  - destruct (Prim2SF x) as [sx|sx| |sx m e] eqn:Ex.
    + assert (Fx : finite x) by (unfold finite; now rewrite Ex).
      destruct (add_val x a Fx Fa) as [Hn Hv]. split; [exact Hn|].
      apply leb_val. repeat split; auto. rewrite Hv.
      rewrite <- (RNs_val 1074 (Prim2SF x)) at 1
        by (lia || apply Prim2SF_valid).
      apply RNs_mono; [lia|]. unfold val in *. lia.
    + assert (E : Prim2SF (x + a) = Prim2SF x)
        by (apply add_infinity_l; [exact Fa | now exists sx]).
      assert (Hn : not_nan (x + a)) by (unfold not_nan; now rewrite E).
      split; [exact Hn|]. apply leb_val. repeat split; auto.
      unfold val. rewrite E. lia.
    + exfalso. apply Hx. exact Ex.
    + assert (Fx : finite x) by (unfold finite; now rewrite Ex).
      destruct (add_val x a Fx Fa) as [Hn Hv]. split; [exact Hn|].
      apply leb_val. repeat split; auto. rewrite Hv.
      rewrite <- (RNs_val 1074 (Prim2SF x)) at 1
        by (lia || apply Prim2SF_valid).
      apply RNs_mono; [lia|]. unfold val in *. lia.
  - destruct Hd as [Hd|Hd].
    + apply ltb_val in Hd. destruct Hd as (_ & _ & Hd).
      change (val neg_infinity) with (- 2 ^ 2098) in Hd.
      pose proof (add_pos_infinity x a Hx Hd Ea) as E.
      assert (Hn : not_nan (x + a)) by (unfold not_nan; now rewrite E).
      split; [exact Hn|]. apply leb_val. repeat split; auto.
      assert (Hs : val (x + a) = 2 ^ 2098) by (unfold val; now rewrite E).
      rewrite Hs. clear - Hx. unfold val, not_nan in *.
      pose proof (Prim2SF_valid x) as V.
      destruct (Prim2SF x) as [sx|sx| |sx m e].
      * destruct sx; cbn; lia.
      * destruct sx; cbn; lia.
      * contradiction.
      * pose proof (finite_mag_bounds 1074 sx m e ltac:(lia) V) as B.
        change (2 ^ (1024 + 1074)) with (2 ^ 2098) in B.
        unfold SFval. destruct sx; cbn [SFneg]; lia.
    + apply ltb_val in Hd. destruct Hd as (_ & _ & Hd).
      unfold val in Hd. rewrite Ea in Hd. cbn in Hd. lia.
Qed.

End Binary64.

Lemma StronglySorted_nth_error :
  forall {A} (R : A -> A -> Prop) (l : list A),
    StronglySorted R l ->
    forall i j x y, (i < j)%nat ->
      nth_error l i = Some x -> nth_error l j = Some y -> R x y.
Proof.
  intros A R l H. induction H as [|a l H IH F]; intros i j x y Hij Hi Hj.
  - destruct i; discriminate.
  - destruct j as [|j]; [lia|]. simpl in Hj. destruct i as [|i].
    + injection Hi as <-. rewrite Forall_forall in F. apply F.
      eapply nth_error_In. exact Hj.
    + simpl in Hi. apply (IH i j); [lia | assumption | assumption].
Qed.

(** ** Conversions, ranks and the sort *)

Section Ranks.

Import Binary64.

Lemma SFmag_nonneg : forall s x, 0 <= SFmag s x.
Proof.
  intros s x. destruct x as [sx|sx| |sx m e]; cbn [SFmag];
    first [ lia | apply Z.pow_nonneg; lia
          | apply Z.mul_nonneg_nonneg; [lia | apply Z.pow_nonneg; lia] ].
Qed.

Theorem mul_val : forall x y, finite x -> finite y ->
  not_nan (x * y) /\
  SFneg (Prim2SF (x * y)) = xorb (SFneg (Prim2SF x)) (SFneg (Prim2SF y)) /\
  SFmag 2148 (Prim2SF (x * y))
  = clip 2148 (RN 2148 (SFmag 1074 (Prim2SF x) * SFmag 1074 (Prim2SF y))).
Proof.
  intros x y Hx Hy. unfold not_nan. rewrite FloatAxioms.mul_spec.
  apply (SFmul_val 1074); try assumption; try lia; apply Prim2SF_valid.
Qed.

Lemma mul_finite_inv : forall x y, finite (x * y) -> finite x /\ finite y.
Proof.
  intros x y. unfold finite. rewrite FloatAxioms.mul_spec. unfold SF64mul.
  destruct (Prim2SF x), (Prim2SF y); simpl; tauto.
Qed.

(** The conversion of a size to [double]. *)
Lemma double_of_size_spec : forall n,
  not_nan (Cxx.double_of_size n) /\
  SFneg (Prim2SF (Cxx.double_of_size n)) = false /\
  (Z.of_nat n < 2 ^ 53 ->
   finite (Cxx.double_of_size n) /\
   SFmag 1074 (Prim2SF (Cxx.double_of_size n)) = Z.of_nat n * 2 ^ 1074).
Proof.
  intros n.
  assert (E0 : exists m, 0 <= m /\ (Z.of_nat n < 2 ^ 53 -> m = Z.of_nat n) /\
               Prim2SF (Cxx.double_of_size n)
               = binary_normalize prec emax m 0 false).
  { exists (Z.of_nat n mod wB). split; [|split].
    - apply Z.mod_pos_bound. reflexivity.
    - intros Hlt. apply Z.mod_small. split; [lia|].
      apply Z.lt_trans with (2 ^ 53); [exact Hlt | reflexivity].
    - unfold Cxx.double_of_size, Cxx.double_of_Z.
      replace (Z.of_nat n <? 0) with false by (symmetry; apply Z.ltb_ge; lia).
      now rewrite of_uint63_spec, Uint63.of_Z_spec. }
  destruct E0 as (m & Hm & Em & E0).
  unfold not_nan, finite, val. rewrite E0.
  destruct (binary_normalize_spec 1074 m 0 false ltac:(lia) ltac:(lia))
    as (Hn & Hv & Hp & _).
  assert (Hs : SFneg (binary_normalize prec emax m 0 false) = false).
  { destruct (Z.eq_dec m 0) as [->|]; [reflexivity | apply Hp; lia]. }
  split; [exact Hn|]. split; [exact Hs|].
  intros Hlt. rewrite (Em Hlt) in *. clear Em m Hm.
  unfold SFval in Hv. rewrite Hs in Hv.
  change (0 + 1074) with 1074 in Hv. rewrite Hv.
  assert (HP : 0 < 2 ^ 1074) by (apply Z.pow_pos_nonneg; lia).
  assert (Hb : Z.of_nat n * 2 ^ 1074 < 2 ^ (1024 + 1074)).
  { apply Z.lt_le_trans with (2 ^ 53 * 2 ^ 1074).
    - apply Z.mul_lt_mono_pos_r; lia.
    - rewrite <- Z.pow_add_r by lia. apply pow2_le. lia. }
  assert (HR : RNs 1074 (Z.of_nat n * 2 ^ 1074) = Z.of_nat n * 2 ^ 1074).
  { destruct (Z.eq_dec (Z.of_nat n) 0) as [->|Hnz].
    - unfold RNs, clip. simpl (0 * _). simpl (0 <? 0).
      rewrite RN_0 by lia. reflexivity.
    - unfold RNs.
      replace (Z.of_nat n * 2 ^ 1074 <? 0) with false
        by (symmetry; apply Z.ltb_ge; lia).
      rewrite RN_representable; try lia.
      + unfold clip. apply Z.min_l. lia.
      + unfold representable, qexp. rewrite log2_mul_pow2 by lia.
        assert (Z.log2 (Z.of_nat n) < 53) by (apply Z.log2_lt_pow2; lia).
        pose proof (Z.log2_nonneg (Z.of_nat n)).
        set (q := fexp64 (Z.log2 (Z.of_nat n) + 1074 + 1 - 1074) + 1074).
        assert (Hq : 0 <= q <= 1074) by (unfold q, fexp64; lia).
        rewrite (pow2_split 1074 q) by lia.
        rewrite Z.mul_assoc. apply Z.mod_mul.
        assert (0 < 2 ^ q) by (apply Z.pow_pos_nonneg; lia). lia. }
  split; [|exact HR].
  rewrite HR in Hv.
  destruct (binary_normalize prec emax (Z.of_nat n) 0 false)
    as [sx|sx| |sx mm e]; simpl; auto.
  cbn [SFmag] in Hv. lia.
Qed.

(** The conversion of a [double] to a size: the integer part. *)
Lemma size_of_double_spec : forall x k,
  Cxx.size_of_double x = Some k ->
  finite x /\ k = SFmag 1074 (Prim2SF x) / 2 ^ 1074 /\
  (SFneg (Prim2SF x) = true -> k = 0).
Proof.
  intros x k. unfold Cxx.size_of_double, finite.
  pose proof (Prim2SF_valid x) as V.
  destruct (Prim2SF x) as [sx|sx| |sx m e]; try discriminate.
  - intros H. injection H as <-. simpl. repeat split.
  - apply valid_finite in V. destruct V as (_ & He & _ & _).
    assert (HP : 0 < 2 ^ 1074) by (apply Z.pow_pos_nonneg; lia).
    set (t := if 0 <=? e then Z.pos m * 2 ^ e else Z.pos m / 2 ^ (- e)).
    assert (Et : t = Z.pos m * 2 ^ (e + 1074) / 2 ^ 1074).
    { unfold t. destruct (0 <=? e) eqn:E.
      - apply Z.leb_le in E. rewrite Z.pow_add_r by lia.
        rewrite Z.mul_assoc, Z.div_mul by lia. reflexivity.
      - apply Z.leb_gt in E.
        rewrite (pow2_split 1074 (e + 1074)) by lia.
        replace (1074 - (e + 1074)) with (- e) by lia.
        rewrite Z.div_mul_cancel_r by (apply Z.pow_nonzero; lia).
        reflexivity. }
    cbn [SFmag SFneg]. rewrite <- Et. intros H.
    destruct sx.
    + destruct (t =? 0) eqn:E0; [|discriminate].
      apply Z.eqb_eq in E0. injection H as <-. repeat split; auto.
    + destruct (t <? Cxx.size_max); [|discriminate].
      injection H as <-. repeat split. discriminate.
Qed.

(** The rank [count * p], converted to an index, from the values of
    [count] and [p]. *)
Lemma rank_spec : forall c p k,
  Cxx.size_of_double (c * p) = Some k ->
  finite c /\ finite p /\
  k = clip 2148 (RN 2148 (SFmag 1074 (Prim2SF c) * SFmag 1074 (Prim2SF p)))
      / 2 ^ 2148 /\
  (xorb (SFneg (Prim2SF c)) (SFneg (Prim2SF p)) = true -> k = 0).
Proof.
  intros c p k H. apply size_of_double_spec in H.
  destruct H as (F & Hk & Hs).
  destruct (mul_finite_inv c p F) as [Fc Fp].
  destruct (mul_val c p Fc Fp) as (_ & Hsg & Hm).
  split; [exact Fc|]. split; [exact Fp|]. split.
  - rewrite <- Hm.
    rewrite (SFmag_scale 1074 1074 (Prim2SF (c * p)) ltac:(lia) ltac:(lia)
               (Prim2SF_valid _) F : SFmag 2148 _ = _).
    change (2 ^ 2148) with (2 ^ 1074 * 2 ^ 1074).
    rewrite <- Z.div_div by (try apply Z.pow_pos_nonneg; lia).
    rewrite Z.div_mul by (apply Z.pow_nonzero; lia). exact Hk.
  - rewrite <- Hsg. exact Hs.
Qed.

Theorem rank_mono : forall c p1 p2 k1 k2,
  SFneg (Prim2SF c) = false ->
  (p1 <? p2)%float = true ->
  Cxx.size_of_double (c * p1) = Some k1 ->
  Cxx.size_of_double (c * p2) = Some k2 ->
  0 <= k1 <= k2.
Proof.
  intros c p1 p2 k1 k2 Hc Hlt H1 H2.
  apply rank_spec in H1, H2.
  destruct H1 as (Fc & F1 & E1 & S1), H2 as (_ & F2 & E2 & S2).
  rewrite Hc in S1, S2. simpl in S1, S2.
  assert (HI : 0 < 2 ^ 2148) by (apply Z.pow_pos_nonneg; lia).
  assert (Hnn : forall V, 0 <= V -> 0 <= clip 2148 (RN 2148 V) / 2 ^ 2148).
  { intros V HV. apply Z.div_pos; [|lia].
    apply clip_nonneg; [lia|]. apply RN_nonneg; lia. }
  pose proof (SFmag_nonneg 1074 (Prim2SF c)) as Mc.
  pose proof (SFmag_nonneg 1074 (Prim2SF p1)) as M1.
  pose proof (SFmag_nonneg 1074 (Prim2SF p2)) as M2.
  assert (K1 : 0 <= k1) by (rewrite E1; apply Hnn; nia).
  assert (K2 : 0 <= k2) by (rewrite E2; apply Hnn; nia).
  split; [exact K1|].
  destruct (SFneg (Prim2SF p1)) eqn:N1; [rewrite S1 by reflexivity; exact K2|].
  apply ltb_val in Hlt. destruct Hlt as (_ & _ & Hlt).
  unfold val, SFval in Hlt. rewrite N1 in Hlt.
  destruct (SFneg (Prim2SF p2)) eqn:N2; [lia|].
  rewrite E1, E2. apply Z.div_le_mono; [lia|].
  apply clip_mono, RN_mono; [lia|]. split; [nia|].
  apply Z.mul_le_mono_nonneg_l; lia.
Qed.

Lemma is_nan_not_nan : forall x, PrimFloat.is_nan x = false <-> not_nan x.
Proof.
  intros x. unfold PrimFloat.is_nan. rewrite negb_false_iff.
  rewrite FloatAxioms.eqb_spec. unfold SFeqb.
  destruct (not_nan_dec x) as [H|H].
  - rewrite compare_val by assumption. rewrite Z.compare_refl. tauto.
  - rewrite SFcompare_nan by (now left).
    split; [discriminate | intros H'; contradiction].
Qed.

Lemma at_index_Some : forall w k v,
  at_index w k = Some v ->
  0 <= k < Z.of_nat (length w) /\
  exists u, nth_error w (Z.to_nat k) = Some u /\ v = duration_us u.
Proof.
  intros w k v H. unfold at_index in H.
  destruct ((0 <=? k) && (k <? Z.of_nat (length w))) eqn:E; [|discriminate].
  apply andb_true_iff in E. destruct E as [E1 E2].
  apply Z.leb_le in E1. apply Z.ltb_lt in E2. split; [lia|].
  destruct (nth_error w (Z.to_nat k)) as [u|]; [|discriminate].
  injection H as <-. now exists u.
Qed.

Lemma at_index_in_range : forall w k,
  0 <= k < Z.of_nat (length w) -> exists v, at_index w k = Some v.
Proof.
  intros w k Hk. unfold at_index.
  replace ((0 <=? k) && (k <? Z.of_nat (length w))) with true.
  - destruct (nth_error w (Z.to_nat k)) as [u|] eqn:E.
    + now exists (duration_us u).
    + apply nth_error_None in E. lia.
  - symmetry. apply andb_true_iff. split; [apply Z.leb_le | apply Z.ltb_lt]; lia.
Qed.

Section SortFacts.

Context {A : Type}.
Variable less : A -> A -> bool.

Lemma sort_insert_perm : forall x l, Permutation (sort_insert less x l) (x :: l).
Proof.
  intros x l. induction l as [|y l IH]; simpl; [reflexivity|].
  destruct (less x y); [reflexivity|].
  rewrite IH. apply perm_swap.
Qed.

Lemma sort_perm : forall l, Permutation (sort less l) l.
Proof.
  induction l as [|x l IH]; simpl; [reflexivity|].
  rewrite sort_insert_perm. now constructor.
Qed.

End SortFacts.

Definition leb_duration (u v : work_unit) : Prop :=
  (duration_us u <=? duration_us v)%float = true.

Lemma sort_insert_sorted : forall x l,
  not_nan (duration_us x) ->
  Forall (fun u => not_nan (duration_us u)) l ->
  StronglySorted leb_duration l ->
  StronglySorted leb_duration (sort_insert by_duration x l).
Proof.
  intros x l Hx Hl Hs. induction Hs as [|y l Hs IH F]; simpl.
  - repeat constructor.
  - inversion Hl as [|? ? Hy Hl']; subst.
    unfold by_duration at 1.
    destruct (duration_us x <? duration_us y)%float eqn:E.
    + assert (Hxy : leb_duration x y).
      { apply ltb_val in E. apply leb_val. destruct E as (? & ? & ?).
        repeat split; auto; lia. }
      constructor; [now constructor|].
      constructor; [exact Hxy|].
      apply Forall_impl with (2 := F). intros z Hz.
      unfold leb_duration in *. now apply leb_trans with (duration_us y).
    + constructor; [now apply IH|].
      apply (Permutation_Forall (Permutation_sym (sort_insert_perm _ x l))).
      constructor; [|exact F].
      apply leb_val. repeat split; auto. now apply ltb_false_val.
Qed.

Lemma sort_sorted : forall l,
  Forall (fun u => not_nan (duration_us u)) l ->
  StronglySorted leb_duration (sort by_duration l).
Proof.
  induction l as [|x l IH]; intros H; simpl; [constructor|].
  inversion H as [|? ? Hx Hl]; subst.
  apply sort_insert_sorted; [exact Hx | | now apply IH].
  apply (Permutation_Forall (Permutation_sym (sort_perm _ l))). exact Hl.
Qed.

Lemma sort_latency_sorted : forall l,
  Forall (fun u => PrimFloat.is_nan (duration_us u) = false) l ->
  latency_sorted (sort by_duration l).
Proof.
  intros l H.
  assert (H' : Forall (fun u => not_nan (duration_us u)) l).
  { apply Forall_impl with (2 := H). intros u. apply is_nan_not_nan. }
  pose proof (sort_sorted l H') as S.
  intros i j u v Hij Hi Hj.
  destruct (Nat.eq_dec i j) as [->|Hne].
  - rewrite Hi in Hj. injection Hj as <-. apply leb_refl.
    apply (Permutation_Forall (Permutation_sym (sort_perm by_duration l))) in H'.
    rewrite Forall_forall in H'. apply H'. eapply nth_error_In. exact Hi.
  - apply (StronglySorted_nth_error _ _ S i j); [lia | assumption..].
Qed.

Lemma representable_0 : forall s, 1074 <= s -> representable s 0.
Proof.
  intros s Hs. unfold representable. apply Z.mod_0_l.
  pose proof (qexp_nonneg s 0 Hs).
  assert (0 < 2 ^ qexp s 0) by (apply Z.pow_pos_nonneg; lia). lia.
Qed.

(** [J / 2^j], scaled by [2^2148], is a binary64 number when [J] has at
    most 53 bits. *)
Lemma dyadic_representable : forall J j,
  0 < J < 2 ^ 53 -> 0 <= j <= 1074 ->
  representable 2148 (J * 2 ^ (2148 - j)).
Proof.
  intros J j HJ Hj. unfold representable, qexp.
  rewrite log2_mul_pow2 by lia.
  assert (Z.log2 J < 53) by (apply Z.log2_lt_pow2; lia).
  pose proof (Z.log2_nonneg J).
  set (q := fexp64 (Z.log2 J + (2148 - j) + 1 - 2148) + 2148).
  assert (Hq : 0 <= q <= 2148 - j) by (unfold q, fexp64; lia).
  rewrite (pow2_split (2148 - j) q) by lia.
  rewrite Z.mul_assoc. apply Z.mod_mul.
  assert (0 < 2 ^ q) by (apply Z.pow_pos_nonneg; lia). lia.
Qed.

Lemma size_of_double_finite : forall x,
  finite x -> SFneg (Prim2SF x) = false ->
  SFmag 1074 (Prim2SF x) / 2 ^ 1074 < Cxx.size_max ->
  Cxx.size_of_double x = Some (SFmag 1074 (Prim2SF x) / 2 ^ 1074).
Proof.
  intros x F N B. unfold Cxx.size_of_double, finite in *.
  pose proof (Prim2SF_valid x) as V.
  destruct (Prim2SF x) as [sx|sx| |sx m e]; try contradiction.
  - reflexivity.
  - apply valid_finite in V. destruct V as (_ & He & _ & _).
    simpl in N. subst sx. cbn [SFmag] in *.
    set (t := if 0 <=? e then Z.pos m * 2 ^ e else Z.pos m / 2 ^ (- e)).
    assert (Et : t = Z.pos m * 2 ^ (e + 1074) / 2 ^ 1074).
    { unfold t. destruct (0 <=? e) eqn:E.
      - apply Z.leb_le in E. rewrite Z.pow_add_r by lia.
        rewrite Z.mul_assoc, Z.div_mul by (apply Z.pow_nonzero; lia).
        reflexivity.
      - apply Z.leb_gt in E.
        rewrite (pow2_split 1074 (e + 1074)) by lia.
        replace (1074 - (e + 1074)) with (- e) by lia.
        rewrite Z.div_mul_cancel_r by (apply Z.pow_nonzero; lia).
        reflexivity. }
    rewrite <- Et in *.
    replace (t <? Cxx.size_max) with true by (symmetry; now apply Z.ltb_lt).
    reflexivity.
Qed.

(** The index [count * c], from the rounding of the exact product. *)
Lemma rank_of_RN : forall n c lo hi,
  Z.of_nat n < 2 ^ 53 -> finite c -> SFneg (Prim2SF c) = false ->
  lo * 2 ^ 2148
  <= RN 2148 (Z.of_nat n * 2 ^ 1074 * SFmag 1074 (Prim2SF c))
  < hi * 2 ^ 2148 ->
  hi <= 2 ^ 64 ->
  exists k,
    Cxx.size_of_double (Cxx.double_of_size n * c) = Some k /\ lo <= k < hi.
Proof.
  intros n c lo hi Hn Fc Nc HR Hh.
  destruct (double_of_size_spec n) as (_ & Ncnt & Hcnt).
  destruct (Hcnt Hn) as [Fcnt Mcnt]. clear Hcnt.
  destruct (mul_val (Cxx.double_of_size n) c Fcnt Fc) as (Hnn & Hsg & Hm).
  rewrite Ncnt, Nc in Hsg. simpl in Hsg. rewrite Mcnt in Hm.
  set (P := Z.of_nat n * 2 ^ 1074 * SFmag 1074 (Prim2SF c)) in *.
  set (r := (Cxx.double_of_size n * c)%float) in *.
  assert (H2148 : 0 < 2 ^ 2148) by (apply Z.pow_pos_nonneg; lia).
  assert (H1074 : 0 < 2 ^ 1074) by (apply Z.pow_pos_nonneg; lia).
  assert (HI : RN 2148 P < 2 ^ (1024 + 2148)).
  { apply Z.lt_le_trans with (hi * 2 ^ 2148); [apply HR|].
    apply Z.le_trans with (2 ^ 64 * 2 ^ 2148).
    - apply Z.mul_le_mono_nonneg_r; lia.
    - rewrite <- Z.pow_add_r by lia. apply pow2_le. lia. }
  assert (Hclip : SFmag 2148 (Prim2SF r) = RN 2148 P).
  { rewrite Hm. unfold clip. apply Z.min_l. lia. }
  assert (Fr : finite r).
  { unfold finite. unfold not_nan in Hnn.
    destruct (Prim2SF r) as [sx|sx| |sx m e]; simpl; auto.
    cbn [SFmag] in Hclip. lia. }
  assert (Hsc : SFmag 2148 (Prim2SF r) = SFmag 1074 (Prim2SF r) * 2 ^ 1074).
  { apply (SFmag_scale 1074 1074); try lia; [apply Prim2SF_valid | exact Fr]. }
  assert (Hk : SFmag 1074 (Prim2SF r) / 2 ^ 1074 = RN 2148 P / 2 ^ 2148).
  { change (2 ^ 2148) with (2 ^ 1074 * 2 ^ 1074).
    rewrite <- Z.div_div by lia. rewrite <- Hclip, Hsc.
    now rewrite Z.div_mul by lia. }
  assert (Hr : lo <= RN 2148 P / 2 ^ 2148 < hi).
  { split.
    - apply Z.div_le_lower_bound; lia.
    - apply Z.div_lt_upper_bound; lia. }
  exists (SFmag 1074 (Prim2SF r) / 2 ^ 1074). split.
  - apply size_of_double_finite; [exact Fr | exact Hsg |].
    rewrite Hk. unfold Cxx.size_max. lia.
  - rewrite Hk. exact Hr.
Qed.

(** A value just below a multiple [K] of its unit rounds up to [K]. *)
Lemma RN_round_up : forall s P K, 1074 <= s -> 0 < P <= K ->
  K mod 2 ^ qexp s P = 0 -> (K - P) * 2 ^ 54 <= P -> K <= RN s P.
Proof.
  intros s P K Hs HP HK Hd. unfold RN.
  pose proof (qexp_nonneg s P Hs) as Hq0.
  set (q := qexp s P) in *.
  assert (HT : 0 < 2 ^ q) by (apply Z.pow_pos_nonneg; lia).
  assert (Hq : Z.log2 P + 1 <= q + 53) by (unfold q, qexp, fexp64; lia).
  pose proof (log2_bounds P ltac:(lia)) as [_ BP].
  assert (BP' : P < 2 ^ q * 2 ^ 53).
  { rewrite <- Z.pow_add_r by lia.
    apply Z.lt_le_trans with (2 ^ (Z.log2 P + 1)); [exact BP|].
    apply pow2_le. pose proof (Z.log2_nonneg P). lia. }
  pose proof (Zrnd_near P q Hq0) as Hn.
  pose proof (Z.div_mod K (2 ^ q) ltac:(lia)) as DK. rewrite HK in DK.
  set (a := K / 2 ^ q) in *. set (b := Zrnd P q) in *.
  destruct (Z_le_gt_dec a b) as [Hab|Hab].
  - rewrite DK, Z.add_0_r, Z.mul_comm. apply Z.mul_le_mono_nonneg_r; lia.
  - exfalso. assert ((b + 1) * 2 ^ q <= a * 2 ^ q)
      by (apply Z.mul_le_mono_nonneg_r; lia).
    change (2 ^ 54) with (2 * 2 ^ 53) in Hd. lia.
Qed.

Lemma rank_exact : forall n c Mc k,
  1 <= Z.of_nat n < 2 ^ 39 ->
  Prim2SF c = S754_finite false Mc (-53) ->
  0 <= k < 2 ^ 39 ->
  Z.of_nat n * Z.pos Mc <= (k * 2 ^ 14 + 2 ^ 14 - 1) * 2 ^ 39 ->
  k * 2 ^ 53 <= Z.of_nat n * Z.pos Mc \/
  (k * 2 ^ 53 - Z.of_nat n * Z.pos Mc) * 2 ^ 54 <= Z.of_nat n * Z.pos Mc ->
  Cxx.size_of_double (Cxx.double_of_size n * c) = Some k.
Proof.
  intros n c Mc k Hn Ec Hk Hup Hlow.
  assert (Fc : finite c) by (unfold finite; now rewrite Ec).
  assert (Nc : SFneg (Prim2SF c) = false) by now rewrite Ec.
  assert (H2095 : 0 < 2 ^ 2095) by (apply Z.pow_pos_nonneg; lia).
  assert (EP : Z.of_nat n * 2 ^ 1074 * SFmag 1074 (Prim2SF c)
               = Z.of_nat n * Z.pos Mc * 2 ^ 2095).
  { rewrite Ec. cbn [SFmag]. change (-53 + 1074) with 1021.
    change (2 ^ 2095) with (2 ^ 1074 * 2 ^ 1021). ring. }
  assert (HPpos : 0 < Z.of_nat n * Z.pos Mc) by (apply Z.mul_pos_pos; lia).
  set (P := Z.of_nat n * Z.pos Mc * 2 ^ 2095) in *.
  assert (HP0 : 0 < P) by (apply Z.mul_pos_pos; lia).
  destruct (rank_of_RN n c k (k + 1)) as (k' & Hk' & Hr);
    try assumption; try lia.
  2:{ rewrite Hk'. f_equal. lia. }
  rewrite EP. split.
  - (* lower bound *)
    change (2 ^ 2148) with (2 ^ 53 * 2 ^ 2095). rewrite Z.mul_assoc.
    destruct Hlow as [HA|HB].
    + destruct (Z.eq_dec k 0) as [->|Hk0].
      * simpl. apply RN_nonneg; lia.
      * rewrite <- (RN_representable 2148 (k * 2 ^ 53 * 2 ^ 2095)).
        -- apply RN_mono; [lia|]. split.
           ++ apply Z.mul_nonneg_nonneg; lia.
           ++ apply Z.mul_le_mono_nonneg_r; lia.
        -- lia.
        -- apply Z.mul_nonneg_nonneg; lia.
        -- rewrite <- Z.mul_assoc.
           change (2 ^ 53 * 2 ^ 2095) with (2 ^ (2148 - 0)).
           apply dyadic_representable; lia.
    + destruct (Z_le_gt_dec (k * 2 ^ 53) (Z.of_nat n * Z.pos Mc)) as [HA|HA].
      * destruct (Z.eq_dec k 0) as [->|Hk0].
        -- simpl. apply RN_nonneg; lia.
        -- rewrite <- (RN_representable 2148 (k * 2 ^ 53 * 2 ^ 2095)).
           ++ apply RN_mono; [lia|]. split.
              ** apply Z.mul_nonneg_nonneg; lia.
              ** apply Z.mul_le_mono_nonneg_r; lia.
           ++ lia.
           ++ apply Z.mul_nonneg_nonneg; lia.
           ++ rewrite <- Z.mul_assoc.
              change (2 ^ 53 * 2 ^ 2095) with (2 ^ (2148 - 0)).
              apply dyadic_representable; lia.
      * apply RN_round_up; [lia | | |].
        -- split; [exact HP0|]. apply Z.mul_le_mono_nonneg_r; lia.
        -- pose proof (qexp_nonneg 2148 P ltac:(lia)) as Hq0.
           assert (Hq : qexp 2148 P <= 2148).
           { assert (Z.log2 P < 39 + 2148).
             { apply Z.log2_lt_pow2; [exact HP0|].
               apply Z.lt_le_trans with (k * 2 ^ 53 * 2 ^ 2095).
               - apply Z.mul_lt_mono_pos_r; lia.
               - rewrite Z.pow_add_r by lia.
                 change (2 ^ 2148) with (2 ^ 53 * 2 ^ 2095).
                 rewrite Z.mul_assoc.
                 apply Z.mul_le_mono_nonneg_r; [lia|].
                 apply Z.mul_le_mono_nonneg_r; lia. }
             unfold qexp, fexp64. lia. }
           rewrite <- Z.mul_assoc.
           change (2 ^ 53 * 2 ^ 2095) with (2 ^ 2148).
           rewrite (pow2_split 2148 (qexp 2148 P)) by lia.
           rewrite Z.mul_assoc. apply Z.mod_mul.
           assert (0 < 2 ^ qexp 2148 P) by (apply Z.pow_pos_nonneg; lia). lia.
        -- unfold P.
           replace ((k * 2 ^ 53 * 2 ^ 2095
                     - Z.of_nat n * Z.pos Mc * 2 ^ 2095) * 2 ^ 54)
             with ((k * 2 ^ 53 - Z.of_nat n * Z.pos Mc) * 2 ^ 54 * 2 ^ 2095)
             by ring.
           apply Z.mul_le_mono_nonneg_r; lia.
  - (* upper bound *)
    apply Z.le_lt_trans
      with ((k * 2 ^ 14 + 2 ^ 14 - 1) * 2 ^ (2148 - 14)).
    + rewrite <- (RN_representable 2148
                    ((k * 2 ^ 14 + 2 ^ 14 - 1) * 2 ^ (2148 - 14))).
      * apply RN_mono; [lia|]. split; [lia|].
        change (2 ^ (2148 - 14)) with (2 ^ 39 * 2 ^ 2095).
        rewrite Z.mul_assoc. apply Z.mul_le_mono_nonneg_r; lia.
      * lia.
      * apply Z.mul_nonneg_nonneg; [lia | apply Z.pow_nonneg; lia].
      * apply dyadic_representable; lia.
    + change (2 ^ 2148) with (2 ^ 14 * 2 ^ (2148 - 14)).
      rewrite Z.mul_assoc. apply Z.mul_lt_mono_pos_r; [|lia].
      apply Z.pow_pos_nonneg; lia.
Qed.

(** A value that is below [K] by more than half a unit rounds below [K]. *)
Lemma RN_below : forall s P K, 1074 <= s -> 0 <= P < K ->
  K <= (K - P) * 2 ^ 53 -> 2 ^ (s - 1074) < 2 * (K - P) -> RN s P < K.
Proof.
  intros s P K Hs HP HK Hsub.
  destruct (Z.eq_dec P 0) as [->|HP0]; [rewrite RN_0 by lia; lia|].
  unfold RN. pose proof (qexp_nonneg s P Hs) as Hq0.
  pose proof (Zrnd_near P (qexp s P) Hq0) as Hn.
  assert (Hq : 2 ^ qexp s P < 2 * (K - P)).
  { unfold qexp, fexp64 in *.
    destruct (Z.max_spec (Z.log2 P + 1 - s - 53) (-1074)) as [[_ E]|[Hc E]];
      rewrite E in *.
    - replace (-1074 + s) with (s - 1074) by lia. exact Hsub.
    - pose proof (log2_bounds P ltac:(lia)) as [B _].
      replace (Z.log2 P + 1 - s - 53 + s) with (Z.log2 P - 52) in * by lia.
      assert (E2 : 2 ^ Z.log2 P = 2 ^ (Z.log2 P - 52) * 2 ^ 52).
      { rewrite <- Z.pow_add_r by lia. f_equal. lia. }
      change (2 ^ 53) with (2 * 2 ^ 52) in HK.
      assert (0 < 2 ^ 52) by reflexivity.
      nia. }
  lia.
Qed.

(** A number from 0 to below 1 is at most [1 - 2^-53]. *)
Lemma below_one : forall p,
  (0 <=? p)%float = true -> (p <? 1)%float = true ->
  finite p /\
  SFmag 1074 (Prim2SF p) * 2 ^ 53 <= (2 ^ 53 - 1) * 2 ^ 1074 /\
  (SFneg (Prim2SF p) = false \/ exists sp, Prim2SF p = S754_zero sp).
Proof.
  intros p H0 H1. apply leb_val in H0. apply ltb_val in H1.
  destruct H0 as (_ & Hn & H0), H1 as (_ & _ & H1).
  change (val 0) with 0 in H0. change (val 1) with (2 ^ 1074) in H1.
  unfold val, not_nan, finite in *. pose proof (Prim2SF_valid p) as V.
  destruct (Prim2SF p) as [sx|sx| |sx m e].
  - cbn [SFfin SFmag SFneg]. split; [exact I|]. split; [|right; now exists sx].
    rewrite Z.mul_0_l. apply Z.mul_nonneg_nonneg; [|apply Z.pow_nonneg]; lia.
  - exfalso. unfold SFval in *. destruct sx; cbn in H0, H1; lia.
  - contradiction.
  - pose proof (finite_mag_bounds 1074 sx m e ltac:(lia) V) as B.
    apply valid_finite in V. destruct V as (_ & He & Hm & Hnorm).
    unfold SFval in H0, H1. destruct sx; cbn [SFneg] in H0, H1; [lia|].
    cbn [SFmag] in *. split; [exact I|]. split; [|now left].
    assert (Hp : 0 < 2 ^ (e + 1074)) by (apply Z.pow_pos_nonneg; lia).
    assert (Hle : e + 1074 <= 1021).
    { destruct (Z_le_gt_dec (e + 1074) 1021) as [|Hgt]; [assumption|].
      exfalso. specialize (Hnorm ltac:(lia)).
      assert (2 ^ 1022 <= 2 ^ (e + 1074)) by (apply pow2_le; lia).
      assert (2 ^ 52 * 2 ^ 1022 <= Z.pos m * 2 ^ (e + 1074))
        by (apply Z.mul_le_mono_nonneg; lia).
      change (2 ^ 52 * 2 ^ 1022) with (2 ^ 1074) in *. lia. }
    assert (2 ^ (e + 1074) <= 2 ^ 1021) by (apply pow2_le; lia).
    assert (Z.pos m * 2 ^ (e + 1074) <= (2 ^ 53 - 1) * 2 ^ 1021)
      by (apply Z.mul_le_mono_nonneg; lia).
    change (2 ^ 1074) with (2 ^ 1021 * 2 ^ 53). lia.
Qed.

(** The index [count * p] of a rank fraction from 0 to below 1 is within a
    non-empty vector of fewer than [2^53] elements. *)
Lemma rank_below : forall n p,
  1 <= Z.of_nat n < 2 ^ 53 ->
  (0 <=? p)%float = true -> (p <? 1)%float = true ->
  exists k,
    Cxx.size_of_double (Cxx.double_of_size n * p) = Some k /\
    0 <= k < Z.of_nat n.
Proof.
  intros n p Hn H0 H1.
  destruct (below_one p H0 H1) as (Fp & HM & [Np|[sp Ep]]).
  - apply rank_of_RN; try assumption; try lia.
    pose proof (SFmag_nonneg 1074 (Prim2SF p)) as M0.
    set (M := SFmag 1074 (Prim2SF p)) in *.
    assert (H1074 : 0 < 2 ^ 1074) by (apply Z.pow_pos_nonneg; lia).
    set (A := Z.of_nat n * 2 ^ 1074).
    assert (HA : 2 ^ 1074 <= A) by (unfold A; nia).
    assert (HK : Z.of_nat n * 2 ^ 2148 = A * 2 ^ 1074).
    { unfold A. change (2 ^ 2148) with (2 ^ 1074 * 2 ^ 1074). ring. }
    assert (HD : 2 ^ 1074 <= (2 ^ 1074 - M) * 2 ^ 53) by lia.
    assert (HM1 : M < 2 ^ 1074).
    { assert (0 < 2 ^ 53) by reflexivity. nia. }
    split; [simpl; apply RN_nonneg; [lia | unfold A; nia]|].
    rewrite HK. apply RN_below; [lia | | |].
    + split; [nia|]. apply Z.mul_lt_mono_pos_l; lia.
    + replace ((A * 2 ^ 1074 - A * M) * 2 ^ 53)
        with (A * ((2 ^ 1074 - M) * 2 ^ 53)) by ring.
      apply Z.mul_le_mono_nonneg_l; lia.
    + change (2148 - 1074) with 1074.
      replace (A * 2 ^ 1074 - A * M) with (A * (2 ^ 1074 - M)) by ring.
      assert (1 <= 2 ^ 1074 - M) by lia. nia.
  - exists 0. split; [|lia].
    destruct (double_of_size_spec n) as (_ & Nc & Hc).
    destruct (Hc ltac:(lia)) as [Fc _].
    unfold Cxx.size_of_double. rewrite FloatAxioms.mul_spec.
    unfold SF64mul, finite in *. rewrite Ep.
    destruct (Prim2SF (Cxx.double_of_size n)); try contradiction; reflexivity.
Qed.

End Ranks.

(** ** GenerateWork *)

Section GenerateWorkFacts.

Variable pct_set : Z.
Variable a : nat -> float.
Variable s : nat -> Z.
Variable last_us : float.

Lemma GenerateWork_loop_generated :
  forall fuel na ns cur_us w w',
    GenerateWork_loop pct_set a s fuel na ns cur_us last_us w = Some w' ->
    exists items,
      w' = w ++ items /\ generated pct_set a s last_us na ns cur_us items.
Proof.
  induction fuel as [|fuel IH]; intros na ns cur_us w w' H; simpl in H.
  - destruct (cur_us <? last_us)%float eqn:E; [discriminate|].
    injection H as <-. exists []. rewrite app_nil_r.
    split; [reflexivity | now constructor].
  - destruct (cur_us <? last_us)%float eqn:E.
    + apply IH in H. destruct H as (items & -> & G).
      eexists. rewrite <- app_assoc. simpl. split; [reflexivity|].
      now constructor.
    + injection H as <-. exists []. rewrite app_nil_r.
      split; [reflexivity | now constructor].
Qed.

Lemma generated_GenerateWork_loop :
  forall na ns cur_us items,
    generated pct_set a s last_us na ns cur_us items ->
    forall fuel w, (length items <= fuel)%nat ->
      GenerateWork_loop pct_set a s fuel na ns cur_us last_us w
      = Some (w ++ items).
Proof.
  induction 1 as [na ns cur_us E | na ns cur_us items E G IH];
    intros fuel w Hf.
  - destruct fuel; simpl; rewrite E, app_nil_r; reflexivity.
  - destruct fuel as [|fuel]; [simpl in Hf; lia|].
    simpl. rewrite E. rewrite IH by (simpl in Hf; lia).
    now rewrite <- app_assoc.
Qed.

Lemma GenerateWork_generated :
  forall fuel cur_us w,
    GenerateWork pct_set a s fuel cur_us last_us = Some w ->
    generated pct_set a s last_us 0 0 cur_us w.
Proof.
  intros fuel cur_us w H. apply GenerateWork_loop_generated in H.
  destruct H as (items & -> & G). exact G.
Qed.

(** More fuel does not change what a run that returned has returned. *)
Lemma GenerateWork_fuel_mono :
  forall fuel fuel' cur_us w,
    GenerateWork pct_set a s fuel cur_us last_us = Some w ->
    (fuel <= fuel')%nat ->
    GenerateWork pct_set a s fuel' cur_us last_us = Some w.
Proof.
  intros fuel fuel' cur_us w H Hle.
  assert (Hlen : (length w <= fuel)%nat).
  { clear Hle. unfold GenerateWork in H.
    assert (forall f na ns c w0 w',
      GenerateWork_loop pct_set a s f na ns c last_us w0 = Some w' ->
      (length w' <= length w0 + f)%nat) as L.
    { induction f as [|f IH]; intros na ns c w0 w' H0; simpl in H0.
      - destruct (c <? last_us)%float; [discriminate|].
        injection H0 as <-. lia.
      - destruct (c <? last_us)%float.
        + apply IH in H0. rewrite length_app in H0. simpl in H0. lia.
        + injection H0 as <-. lia. }
    apply L in H. simpl in H. exact H. }
  apply GenerateWork_generated in H.
  unfold GenerateWork.
  rewrite (generated_GenerateWork_loop _ _ _ _ H fuel' []) by lia.
  reflexivity.
Qed.

Lemma generated_aligned :
  forall na ns cur_us items,
    generated pct_set a s last_us na ns cur_us items ->
    Forall (fun u => Z.land (lba u) 7 = 0 /\ lba u mod 8 = 0) items.
Proof.
  induction 1 as [| na ns cur_us items E G IH]; constructor; [|exact IH].
  simpl lba.
  assert (Hl : Z.land (Z.land (Cxx.to_size_t (s (S ns))) lba_mask) 7 = 0).
  { rewrite <- Z.land_assoc. change (Z.land lba_mask 7) with 0.
    apply Z.land_0_r. }
  split; [exact Hl|].
  change 7 with (Z.ones 3) in Hl. rewrite Z.land_ones in Hl by lia.
  exact Hl.
Qed.

Lemma generated_duration_zero :
  forall na ns cur_us items,
    generated pct_set a s last_us na ns cur_us items ->
    Forall (fun u => duration_us u = 0%float) items.
Proof.
  induction 1; constructor; auto.
Qed.

(** Every item but the last was appended at a running time below the
    horizon, which the next test of the loop saw; the last one made the test
    fail. *)
Lemma generated_horizon :
  forall na ns cur_us items,
    generated pct_set a s last_us na ns cur_us items ->
    (forall i u, nth_error items i = Some u -> (S i < length items)%nat ->
       (start_us u <? last_us)%float = true) /\
    (forall u, back items = Some u ->
       (start_us u <? last_us)%float = false) /\
    (items <> [] -> (cur_us <? last_us)%float = true).
Proof.
  induction 1 as [na ns cur_us E | na ns cur_us items E G IH].
  - repeat split.
    + intros [|i] u H; discriminate.
    + intros u H; discriminate.
    + congruence.
  - destruct IH as (IH1 & IH2 & IH3). repeat split.
    + intros [|i] u H Hi.
      * injection H as <-. simpl start_us. apply IH3.
        destruct items; [simpl in Hi; lia | discriminate].
      * simpl in H, Hi. apply (IH1 i u H). lia.
    + intros u H. unfold back in H. simpl length in H.
      destruct items as [|v items'].
      * injection H as <-. simpl start_us.
        inversion G; subst. assumption.
      * apply IH2. unfold back. simpl length.
        replace (S (S (length items')) - 1)%nat
          with (S (length items')) in H by lia.
        simpl in H. simpl. rewrite Nat.sub_0_r. exact H.
    + intros _. exact E.
Qed.

End GenerateWorkFacts.

(** C7. Every work item GenerateWork produces has a block address that is a
    multiple of the alignment unit 8, its low 3 bits zero, whatever the
    address sampler draws. *)
Theorem GenerateWork_lba_aligned :
  forall pct_set a s fuel cur_us last_us w,
    GenerateWork pct_set a s fuel cur_us last_us = Some w ->
    forall u, In u w -> Z.land (lba u) 7 = 0 /\ lba u mod 8 = 0.
Proof.
  intros pct_set a s fuel cur_us last_us w H u Hu.
  apply GenerateWork_generated, generated_aligned in H.
  rewrite Forall_forall in H. now apply H.
Qed.

Lemma GenerateWork_lba_aligned_witness :
  GenerateWork 50 (fun _ => 3000000%float)
    (fun k => 547002288 - Z.of_nat k) 8 0 5000000
  = Some [mk_work_unit 3000000 547002280 false 0;
          mk_work_unit 6000000 547002280 false 0] /\
  Z.land 547002280 7 = 0 /\ 547002280 mod 8 = 0.
Proof.
  split; [vm_compute; reflexivity|].
  apply (GenerateWork_lba_aligned 50 (fun _ => 3000000%float)
           (fun k => 547002288 - Z.of_nat k) 8 0 5000000
           [mk_work_unit 3000000 547002280 false 0;
            mk_work_unit 6000000 547002280 false 0]
           ltac:(vm_compute; reflexivity)
           (mk_work_unit 3000000 547002280 false 0)).
  left. reflexivity.
Defined.

(** C2, as stated, fails: with inter-arrival draws of 3 s each and the
    horizon of 5 s the code uses, the schedule GenerateWork returns ends
    with an item at 6 s, beyond the horizon. *)
Lemma GenerateWork_last_beyond_horizon :
  exists w u,
    GenerateWork 50 (fun _ => 3000000%float) (fun _ => 0) 8 0 5000000
    = Some w /\
    back w = Some u /\
    start_us u = 6000000%float /\
    (5000000 <? start_us u)%float = true /\
    (start_us u <=? 5000000)%float = false.
Proof.
  exists [mk_work_unit 3000000 0 true 0; mk_work_unit 6000000 0 true 0].
  exists (mk_work_unit 6000000 0 true 0).
  repeat split; vm_compute; reflexivity.
Qed.

(** C2, amended. In the schedule GenerateWork returns, the last item's
    offset is not below the horizon (the loop tests the running time before
    it draws, and stops at the first one that is not below the horizon),
    every earlier item's offset is strictly below it, and a schedule that is
    not empty started below it. *)
Theorem GenerateWork_horizon :
  forall pct_set a s fuel cur_us last_us w,
    GenerateWork pct_set a s fuel cur_us last_us = Some w ->
    (forall u, back w = Some u -> (start_us u <? last_us)%float = false) /\
    (forall i u, nth_error w i = Some u -> (S i < length w)%nat ->
       (start_us u <? last_us)%float = true) /\
    (w <> [] -> (cur_us <? last_us)%float = true).
Proof.
  intros pct_set a s fuel cur_us last_us w H.
  apply GenerateWork_generated, generated_horizon in H.
  destruct H as (H1 & H2 & H3). auto.
Qed.

Lemma GenerateWork_horizon_witness :
  (start_us (mk_work_unit 6000000 0 true 0) <? 5000000)%float = false.
Proof.
  apply (GenerateWork_horizon 50 (fun _ => 3000000%float) (fun _ => 0)
           8 0 5000000
           [mk_work_unit 3000000 0 true 0; mk_work_unit 6000000 0 true 0]
           ltac:(vm_compute; reflexivity)).
  reflexivity.
Defined.

Lemma generated_nondecreasing :
  forall pct_set a s last_us,
    (forall k, (0 <=? a k)%float = true) ->
    forall na ns cur_us items,
      generated pct_set a s last_us na ns cur_us items ->
      (neg_infinity <? cur_us)%float = true \/
      (forall k, (a k <? infinity)%float = true) ->
      Forall (fun u => (cur_us <=? start_us u)%float = true) items /\
      StronglySorted
        (fun u v => (start_us u <=? start_us v)%float = true) items.
Proof.
  intros pct_set a s last_us Ha na ns cur_us items G.
  induction G as [na ns cur_us E | na ns cur_us items E G IH]; intros Hd.
  - split; constructor.
  - apply Binary64.ltb_val in E. destruct E as (Hc & _ & _).
    destruct (Binary64.add_nonneg_le cur_us (a na) Hc (Ha na)) as [_ Hle].
    { destruct Hd as [Hd|Hd]; [now left | right; apply Hd]. }
    destruct IH as [IH1 IH2].
    { destruct Hd as [Hd|Hd]; [left | now right].
      apply Binary64.ltb_val in Hd. apply Binary64.leb_val in Hle.
      apply Binary64.ltb_val.
      destruct Hd as (? & ? & ?), Hle as (? & ? & ?).
      repeat split; auto; lia. }
    split.
    + constructor; [exact Hle|].
      apply Forall_impl with (2 := IH1). intros u Hu.
      now apply Binary64.leb_trans with (cur_us + a na)%float.
    + constructor; [exact IH2 | exact IH1].
Qed.

(** C6. The scheduled offsets of a schedule GenerateWork returns are
    non-decreasing in generation order, when every draw of the
    arrival-interval sampler is non-negative (not below 0, which a NaN is
    not), for every start time but minus infinity; and from minus infinity
    too when no draw is plus infinity (their sum is a NaN, which no
    comparison orders). *)
Theorem GenerateWork_offsets_nondecreasing :
  forall pct_set a s fuel cur_us last_us w,
    (forall k, (0 <=? a k)%float = true) ->
    (neg_infinity <? cur_us)%float = true \/
    (forall k, (a k <? infinity)%float = true) ->
    GenerateWork pct_set a s fuel cur_us last_us = Some w ->
    forall i j u v, (i <= j)%nat ->
      nth_error w i = Some u -> nth_error w j = Some v ->
      (start_us u <=? start_us v)%float = true.
Proof.
  intros pct_set a s fuel cur_us last_us w Ha Hd H i j u v Hij Hi Hj.
  apply GenerateWork_generated in H.
  destruct (generated_nondecreasing _ _ _ _ Ha _ _ _ _ H Hd) as [F S].
  destruct (Nat.eq_dec i j) as [->|Hne].
  - rewrite Hi in Hj. injection Hj as <-.
    rewrite Forall_forall in F.
    specialize (F u (nth_error_In _ _ Hi)).
    apply Binary64.leb_val in F. destruct F as (_ & Hn & _).
    now apply Binary64.leb_refl.
  - apply (StronglySorted_nth_error _ _ S i j); [lia | assumption..].
Qed.

Lemma GenerateWork_offsets_nondecreasing_witness :
  (start_us (mk_work_unit 2.5 8 true 0)
   <=? start_us (mk_work_unit 5 32 true 0))%float = true.
Proof.
  apply (GenerateWork_offsets_nondecreasing 50 (fun _ => 2.5%float)
           (fun k => Z.of_nat k * 13) 8 0 5
           [mk_work_unit 2.5 8 true 0; mk_work_unit 5 32 true 0]
           (fun _ => eq_refl) (or_introl eq_refl)
           ltac:(vm_compute; reflexivity) 0 1);
    [lia | reflexivity | reflexivity].
Defined.

(** X4. The start time the condition of C6 leaves out: from minus infinity, the
    draws 1 and plus infinity give the offsets minus infinity and NaN, which
    [<=] does not order. *)
Theorem GenerateWork_offsets_from_neg_infinity :
  exists a w u v,
    (forall k, (0 <=? a k)%float = true) /\
    GenerateWork 50 a (fun k => Z.of_nat k * 13) 8 neg_infinity 5 = Some w /\
    nth_error w 0 = Some u /\ nth_error w 1 = Some v /\
    (start_us u <=? start_us v)%float = false.
Proof.
  exists (fun k => match k with O => 1 | _ => infinity end)%float.
  eexists. eexists. eexists.
  split; [intros [|k]; reflexivity|].
  split; [vm_compute; reflexivity|].
  split; [reflexivity|]. split; reflexivity.
Qed.

Lemma GenerateWork_duration_zero_items :
  forall pct_set a s fuel cur_us last_us w,
    GenerateWork pct_set a s fuel cur_us last_us = Some w ->
    Forall (fun u => duration_us u = 0%float) w.
Proof.
  intros pct_set a s fuel cur_us last_us w H.
  apply GenerateWork_generated in H.
  exact (generated_duration_zero _ _ _ _ _ _ _ _ H).
Qed.

(** X2. Every item of a schedule GenerateWork returns has the latency 0. *)
Theorem GenerateWork_duration_zero :
  forall pct_set a s fuel cur_us last_us w,
    GenerateWork pct_set a s fuel cur_us last_us = Some w ->
    Forall (fun u => duration_us u = 0%float) w.
Proof.
  exact GenerateWork_duration_zero_items.
Qed.

Lemma GenerateWork_duration_zero_witness :
  Forall (fun u => duration_us u = 0%float)
    [mk_work_unit 2.5 8 true 0; mk_work_unit 5 32 true 0].
Proof.
  apply (GenerateWork_duration_zero 50 (fun _ => 2.5%float)
           (fun k => Z.of_nat k * 13) 8 0 5).
  vm_compute. reflexivity.
Defined.

Lemma generated_items :
  forall pct_set a s last_us na ns cur_us items,
    generated pct_set a s last_us na ns cur_us items ->
    (forall u, nth_error items 0 = Some u ->
       start_us u = (cur_us + a na)%float) /\
    (forall k u v, nth_error items k = Some u ->
       nth_error items (S k) = Some v ->
       start_us v = (start_us u + a (na + S k)%nat)%float) /\
    (forall k u, nth_error items k = Some u ->
       is_set u = (Cxx.to_size_t (s (ns + 2 * k)%nat) mod 100 <? pct_set) /\
       lba u = Z.land (Cxx.to_size_t (s (S (ns + 2 * k)))) lba_mask).
Proof.
  intros pct_set a s last_us na ns cur_us items G.
  induction G as [na ns cur_us E | na ns cur_us items E G (IH0 & IH1 & IH2)].
  - split; [discriminate|].
    split; intros [|k]; intros; discriminate.
  - split; [|split].
    + intros u Hu. injection Hu as <-. reflexivity.
    + intros [|k] u v Hu Hv; simpl in Hu, Hv.
      * injection Hu as <-. rewrite (IH0 v Hv). simpl.
        now replace (na + 1)%nat with (S na) by lia.
      * rewrite (IH1 k u v Hu Hv).
        now replace (S na + S k)%nat with (na + S (S k))%nat by lia.
    + intros [|k] u Hu; simpl in Hu.
      * injection Hu as <-. simpl.
        now replace (ns + 0)%nat with ns by lia.
      * destruct (IH2 k u Hu) as [H1 H2]. rewrite H1, H2.
        now replace (S (S ns) + 2 * k)%nat with (ns + 2 * S k)%nat by lia.
Qed.

(** X5. The items of a schedule GenerateWork returns, from the draws: the
    first offset is the start time plus the first draw of [a], every later
    one the offset before it plus the next draw of [a]; the item of index
    [k] takes two draws of [s], the first (of index [2 k]) for the kind of
    operation, a write when the draw modulo 100 is below pct_set, the
    second (of index [2 k + 1]) for the block address, with its low three
    bits cleared. *)
Theorem GenerateWork_items :
  forall pct_set a s fuel cur_us last_us w,
    GenerateWork pct_set a s fuel cur_us last_us = Some w ->
    (forall u, nth_error w 0 = Some u ->
       start_us u = (cur_us + a 0%nat)%float) /\
    (forall k u v, nth_error w k = Some u -> nth_error w (S k) = Some v ->
       start_us v = (start_us u + a (S k))%float) /\
    (forall k u, nth_error w k = Some u ->
       is_set u = (Cxx.to_size_t (s (2 * k)%nat) mod 100 <? pct_set) /\
       lba u = Z.land (Cxx.to_size_t (s (S (2 * k)))) lba_mask).
Proof.
  intros pct_set a s fuel cur_us last_us w H.
  apply GenerateWork_generated, generated_items in H.
  exact H.
Qed.

Lemma GenerateWork_items_witness :
  start_us (mk_work_unit 5 32 true 0)
  = (start_us (mk_work_unit 2.5 8 true 0) + 2.5)%float.
Proof.
  exact (proj1 (proj2 (GenerateWork_items 50 (fun _ => 2.5%float)
           (fun k => Z.of_nat k * 13) 8 0 5
           [mk_work_unit 2.5 8 true 0; mk_work_unit 5 32 true 0]
           ltac:(vm_compute; reflexivity))) 0%nat _ _ eq_refl eq_refl).
Defined.

(** ** ClientWorker *)

Lemma nth_error_update_nth :
  forall {A} (f : A -> A) (l : list A) (i j : nat),
    nth_error (update_nth i f l) j
    = if Nat.eqb j i then option_map f (nth_error l j) else nth_error l j.
Proof.
  induction l as [|x l IH]; intros i j.
  - destruct i, j; simpl; try reflexivity; now destruct (Nat.eqb j i).
  - destruct i as [|i], j as [|j]; simpl; try reflexivity. apply IH.
Qed.

Lemma length_update_nth :
  forall {A} (f : A -> A) (l : list A) (i : nat),
    length (update_nth i f l) = length l.
Proof.
  induction l as [|x l IH]; intros [|i]; simpl; auto.
Qed.

Lemma length_set_slot :
  forall {A} (x : A) (l : list (option A)) (i : nat),
    length (Vec.set_slot i x l) = length l.
Proof.
  induction l as [|y l IH]; intros [|i]; simpl; auto.
Qed.

Lemma load_store :
  forall {A} (x : A) (v : Vec.vector A) (i : nat),
    (i < Vec.capacity v)%nat -> Vec.load i (Vec.store i x v) = Some x.
Proof.
  intros A x [slots size]. unfold Vec.load, Vec.store, Vec.capacity. simpl.
  induction slots as [|y l IH]; intros [|i] H; simpl in *; try lia.
  - reflexivity.
  - apply IH. lia.
Qed.

Lemma nth_nth_error :
  forall {A} (l : list A) (i : nat) (d x : A),
    nth_error l i = Some x -> nth i l d = x.
Proof.
  intros A l i d x H. rewrite (nth_error_nth _ _ d H). reflexivity.
Qed.

Section ClientWorkerFacts.

Variable block_count : Z.
Variable env : worker_env.
(** The schedule [wf()] returned. *)
Variable w : list work_unit.

(** The item of index [i] fails the lateness test. *)
Definition late (i : nat) : bool :=
  too_late env (now_after env i) (nth i w no_unit).

(** What the spawned thread of the item of index [i] leaves of it. *)
Definition completed (i : nat) (u : work_unit) : work_unit :=
  if storage_status env i (request_of block_count u) =? 0
  then set_duration (us_of_ticks (now_done env i - now_dispatch env i)) u
  else u.

Definition outcome (i : nat) (u : work_unit) : work_unit :=
  if late i then u else completed i u.

(** The state after the trips of index below [k]. *)
Record worker_inv (k : nat) (st : worker_state) : Prop := {
  inv_w : forall j,
    nth_error (ws_w st) j
    = if (j <? k)%nat then option_map (outcome j) (nth_error w j)
      else nth_error w j;
  inv_length : length (ws_w st) = length w;
  inv_issued :
    ws_issued st
    = map (fun i => (i, request_of block_count (nth i w no_unit)))
        (filter (fun i => negb (late i)) (seq 0 k));
  inv_dropped :
    ws_dropped st = Z.of_nat (length (filter late (seq 0 k)));
  inv_wg :
    ws_wg st = Z.of_nat (length w) - Z.of_nat (length (ws_issued st));
  inv_timings :
    Vec.size (ws_timings st) = 0%nat /\
    Vec.capacity (ws_timings st) = length w;
  inv_subscripts :
    Forall (fun e => match sub_vec e with
                     | Vec_w => in_bounds e = true
                     | Vec_timings => sub_size e = 0%nat
                     end) (ws_subscripts st);
  inv_timings_subscript : forall i,
    (i < k)%nat -> late i = false ->
    In (mk_subscript Vec_timings i 0) (ws_subscripts st)
}.

Lemma worker_inv_init : worker_inv 0 (ClientWorker_init w).
Proof.
  assert (Hr : Vec.size (Vec.reserve (A:=Z) (length w) Vec.empty) = 0%nat /\
               Vec.capacity (Vec.reserve (A:=Z) (length w) Vec.empty)
               = length w).
  { unfold Vec.reserve, Vec.capacity. simpl.
    destruct (length w) as [|n]; simpl; [now split|].
    now rewrite repeat_length. }
  constructor; simpl; try reflexivity.
  - lia.
  - exact Hr.
  - constructor.
  - intros i Hi. lia.
Qed.

Lemma worker_inv_iter :
  forall k st,
    worker_inv k st -> (k < length w)%nat ->
    worker_inv (S k) (ClientWorker_iter block_count env k st).
Proof.
  intros k st [Iw Il Ii Id Ig [Its Itc] Is Iu] Hk.
  assert (Hu : nth k (ws_w st) no_unit = nth k w no_unit).
  { destruct (nth_error w k) as [u|] eqn:E.
    - rewrite (nth_nth_error w k no_unit u E).
      apply nth_nth_error. rewrite Iw, Nat.ltb_irrefl. exact E.
    - apply nth_error_None in E. lia. }
  assert (Hseq : seq 0 (S k) = seq 0 k ++ [k]) by (rewrite seq_S; reflexivity).
  unfold ClientWorker_iter. cbn [log_subscript ws_w ws_timings ws_dropped
    ws_wg ws_issued ws_slept ws_subscripts].
  rewrite Hu.
  set (st1 := if (elapsed_us env (now_before env k) <? _)%float then _ else _).
  assert (E1 : ws_w st1 = ws_w st /\ ws_timings st1 = ws_timings st /\
               ws_dropped st1 = ws_dropped st /\ ws_wg st1 = ws_wg st /\
               ws_issued st1 = ws_issued st /\
               ws_subscripts st1
               = ws_subscripts st ++ [mk_subscript Vec_w k (length (ws_w st))]).
  { subst st1. destruct (_ <? _)%float; simpl; auto 10. }
  destruct E1 as (Ew & Et & Ed & Eg & Ei & Es). clearbody st1.
  assert (Hsub_w : in_bounds (mk_subscript Vec_w k (length (ws_w st))) = true).
  { unfold in_bounds. simpl. rewrite Il. apply Nat.ltb_lt. exact Hk. }
  fold (late k).
  destruct (late k) eqn:El.
  - (* dropped *)
    constructor; cbn [ws_w ws_timings ws_dropped ws_wg ws_issued ws_slept
      ws_subscripts]; rewrite ?Ew, ?Et, ?Ed, ?Eg, ?Ei, ?Es.
    + intros j. rewrite Iw.
      destruct (Nat.eq_dec j k) as [->|Hj].
      * rewrite Nat.ltb_irrefl.
        replace (k <? S k)%nat with true by (symmetry; apply Nat.ltb_lt; lia).
        unfold outcome. rewrite El. now destruct (nth_error w k).
      * destruct (j <? k)%nat eqn:E1, (j <? S k)%nat eqn:E2; try reflexivity;
          apply Nat.ltb_lt in E1 || apply Nat.ltb_ge in E1;
          apply Nat.ltb_lt in E2 || apply Nat.ltb_ge in E2; lia.
    + exact Il.
    + rewrite Hseq, filter_app. simpl. rewrite El. simpl.
      now rewrite app_nil_r.
    + rewrite Hseq, filter_app, length_app. simpl. rewrite El. simpl.
      rewrite Id. lia.
    + exact Ig.
    + now split.
    + apply Forall_app. split; [exact Is|]. constructor; [exact Hsub_w|].
      constructor.
    + intros i Hi Hl. apply in_or_app. left. apply Iu; [|exact Hl].
      destruct (Nat.eq_dec i k) as [->|]; [congruence | lia].
  - (* dispatched *)
    unfold spawned. cbn [log_subscript ws_w ws_timings ws_dropped ws_wg
      ws_issued ws_slept ws_subscripts Vec.size Vec.store].
    rewrite ?Ew, ?Et, ?Ed, ?Eg, ?Ei, ?Es, Hu.
    fold (request_of block_count (nth k w no_unit)).
    change (Vec.mk_vector (Vec.set_slot k (now_dispatch env k)
              (Vec.slots (ws_timings st))) (Vec.size (ws_timings st)))
      with (Vec.store k (now_dispatch env k) (ws_timings st)).
    rewrite load_store by (rewrite Itc; exact Hk).
    constructor; cbn [ws_w ws_timings ws_dropped ws_wg ws_issued ws_slept
      ws_subscripts].
    + intros j.
      assert (Hw' : nth_error
                (if storage_status env k (request_of block_count (nth k w no_unit)) =? 0
                 then update_nth k (set_duration
                        (us_of_ticks (now_done env k - now_dispatch env k)))
                        (ws_w st)
                 else ws_w st) j
              = if Nat.eqb j k
                then option_map (completed k) (nth_error (ws_w st) j)
                else nth_error (ws_w st) j).
      { destruct (Nat.eqb j k) eqn:Ejk.
        - apply Nat.eqb_eq in Ejk. subst j.
          destruct (nth_error (ws_w st) k) as [u|] eqn:Eu.
          + assert (u = nth k w no_unit) as ->.
            { rewrite <- Hu. symmetry. now apply nth_nth_error. }
            cbn [option_map]. unfold completed.
            destruct (storage_status env k (request_of block_count (nth k w no_unit)) =? 0).
            * rewrite nth_error_update_nth, Nat.eqb_refl, Eu. reflexivity.
            * exact Eu.
          + apply nth_error_None in Eu. lia.
        - destruct (_ =? 0); [|reflexivity].
          now rewrite nth_error_update_nth, Ejk. }
      rewrite Hw', Iw.
      destruct (Nat.eq_dec j k) as [->|Hj].
      * rewrite Nat.eqb_refl, Nat.ltb_irrefl.
        replace (k <? S k)%nat with true by (symmetry; apply Nat.ltb_lt; lia).
        unfold outcome. rewrite El. reflexivity.
      * replace (Nat.eqb j k) with false
          by (symmetry; apply Nat.eqb_neq; exact Hj).
        destruct (j <? k)%nat eqn:E1, (j <? S k)%nat eqn:E2; try reflexivity;
          apply Nat.ltb_lt in E1 || apply Nat.ltb_ge in E1;
          apply Nat.ltb_lt in E2 || apply Nat.ltb_ge in E2; lia.
    + destruct (_ =? 0); [rewrite length_update_nth|]; exact Il.
    + rewrite Hseq, filter_app, map_app. simpl. rewrite El. simpl.
      now rewrite Ii.
    + rewrite Hseq, filter_app, length_app. simpl. rewrite El. simpl.
      rewrite Id. lia.
    + rewrite Ig, length_app. simpl. lia.
    + unfold Vec.capacity, Vec.store. simpl. rewrite length_set_slot.
      split; [exact Its | exact Itc].
    + rewrite Its. repeat (apply Forall_app; split); try exact Is;
        repeat constructor; exact Hsub_w.
    + intros i Hi Hl. rewrite Its.
      destruct (Nat.eq_dec i k) as [->|Hik].
      * apply in_or_app. right. left. reflexivity.
      * rewrite <- !app_assoc. apply in_or_app. left. apply Iu; [lia|exact Hl].
Qed.

Lemma worker_inv_loop :
  forall n k st,
    worker_inv k st -> (k + n <= length w)%nat ->
    worker_inv (k + n) (ClientWorker_loop block_count env n k st).
Proof.
  induction n as [|n IH]; intros k st I Hk; simpl.
  - now rewrite Nat.add_0_r.
  - replace (k + S n)%nat with (S k + n)%nat by lia.
    apply IH; [|lia]. apply worker_inv_iter; [exact I | lia].
Qed.

(** The vector ClientWorker returns and what it did, item by item; the wait
    group is back at 0 after the loop, so [wg.Wait()] returns. *)
Lemma ClientWorker_returns :
  Z.of_nat (length w) <= Cxx.int_max ->
  exists st,
    ClientWorker block_count env (Some w) = Some st /\
    worker_inv (length w) st.
Proof.
  intros Hlen. unfold ClientWorker.
  replace (Cxx.int_max <? Z.of_nat (length w)) with false
    by (symmetry; apply Z.ltb_ge; exact Hlen).
  pose proof (worker_inv_loop (length w) 0 _ worker_inv_init (le_n _)) as I.
  simpl in I.
  set (st := ClientWorker_loop block_count env (length w) 0
               (ClientWorker_init w)) in *.
  exists st. split; [|exact I].
  destruct I as [_ _ Ii Id Ig _ _ _].
  assert (H0 : ws_wg st + -1 * ws_dropped st = 0).
  { rewrite Ig, Id, Ii, length_map.
    pose proof (filter_length late (seq 0 (length w))) as F.
    rewrite length_seq in F. lia. }
  now rewrite H0.
Qed.

End ClientWorkerFacts.

Lemma ClientWorker_inv :
  forall block_count env w st,
    ClientWorker block_count env (Some w) = Some st ->
    worker_inv block_count env w (length w) st.
Proof.
  intros block_count env w st H.
  destruct (Z_le_gt_dec (Z.of_nat (length w)) Cxx.int_max) as [Hlen|Hlen].
  - destruct (ClientWorker_returns block_count env w Hlen) as (st' & H' & I).
    congruence.
  - unfold ClientWorker in H.
    replace (Cxx.int_max <? Z.of_nat (length w)) with true in H
      by (symmetry; apply Z.ltb_lt; lia).
    discriminate.
Qed.

Lemma In_issued_not_late :
  forall block_count env w st i r,
    worker_inv block_count env w (length w) st ->
    In (i, r) (ws_issued st) ->
    late env w i = false /\ r = request_of block_count (nth i w no_unit).
Proof.
  intros block_count env w st i r I H.
  rewrite (inv_issued _ _ _ _ _ I) in H.
  apply in_map_iff in H. destruct H as (j & Hj & Hin).
  injection Hj as -> ->. apply filter_In in Hin. destruct Hin as [_ Hl].
  split; [now apply negb_true_iff|reflexivity].
Qed.

(** X6. The subscripts of [w] the worker makes are all within its size. *)
Theorem ClientWorker_w_in_bounds :
  forall block_count env w st e,
    ClientWorker block_count env (Some w) = Some st ->
    In e (ws_subscripts st) -> sub_vec e = Vec_w -> in_bounds e = true.
Proof.
  intros block_count env w st e H He Hv.
  apply ClientWorker_inv in H.
  pose proof (inv_subscripts _ _ _ _ _ H) as F.
  rewrite Forall_forall in F. specialize (F e He). now rewrite Hv in F.
Qed.

Lemma ClientWorker_w_in_bounds_witness :
  let env := mk_worker_env 0 (fun _ => 0) (fun i => 1000 + 8000 * Z.of_nat i)
               (fun _ => 1500) (fun _ => 4000) (fun _ _ => 1) in
  let w := [mk_work_unit 1 8 true 0; mk_work_unit 2 16 false 0] in
  in_bounds (mk_subscript Vec_w 1 2) = true.
Proof.
  intros env w.
  destruct (ClientWorker 8 env (Some w)) as [st|] eqn:E;
    [|vm_compute in E; discriminate].
  apply (ClientWorker_w_in_bounds 8 env w st _ E); [|reflexivity].
  vm_compute in E. injection E as <-. simpl. tauto.
Defined.

(** With a backend none of whose operations succeeds, the worker returns
    the schedule as [wf()] returned it. *)
Lemma ClientWorker_all_failed :
  forall block_count env w st,
    (forall i r, storage_status env i r <> 0) ->
    ClientWorker block_count env (Some w) = Some st ->
    ws_w st = w.
Proof.
  intros block_count env w st Hs H. apply ClientWorker_inv in H.
  apply nth_error_ext. intros j. rewrite (inv_w _ _ _ _ _ H j).
  destruct (j <? length w)%nat; [|reflexivity].
  destruct (nth_error w j) as [u|]; [|reflexivity]. simpl.
  unfold outcome. destruct (late env w j); [reflexivity|].
  unfold completed.
  destruct (Z.eqb_spec (storage_status env j (request_of block_count u)) 0)
    as [E|E]; [|reflexivity].
  exfalso. exact (Hs _ _ E).
Qed.



(** C3. In the replay loop of ClientWorker, an item whose re-measured
    elapsed time is more than kMaxCatchUpUS = 5 microseconds past its
    scheduled offset is dropped: no request is issued for it and its
    latency stays 0; an item that is issued and whose storage operation
    returns a status other than 0 keeps the latency 0 as well. This holds
    for the item of every index, those after a dropped item included: the
    loop goes on to the next item. *)
Theorem ClientWorker_drop_and_failure :
  forall block_count env w st i u,
    ClientWorker block_count env (Some w) = Some st ->
    nth_error w i = Some u ->
    duration_us u = 0%float ->
    (too_late env (now_after env i) u = true ->
       (forall r, ~ In (i, r) (ws_issued st)) /\
       nth_error (ws_w st) i = Some u /\
       option_map duration_us (nth_error (ws_w st) i) = Some 0%float) /\
    (too_late env (now_after env i) u = false ->
       In (i, request_of block_count u) (ws_issued st) /\
       (storage_status env i (request_of block_count u) <> 0 ->
          nth_error (ws_w st) i = Some u /\
          option_map duration_us (nth_error (ws_w st) i) = Some 0%float)).
Proof.
  intros block_count env w st i u H Hu Hd.
  apply ClientWorker_inv in H.
  assert (Hi : (i < length w)%nat) by (apply nth_error_Some; congruence).
  assert (Hn : nth i w no_unit = u) by now apply nth_nth_error.
  assert (Hl : late env w i = too_late env (now_after env i) u)
    by (unfold late; now rewrite Hn).
  pose proof (inv_w _ _ _ _ _ H i) as Hw.
  replace (i <? length w)%nat with true in Hw
    by (symmetry; now apply Nat.ltb_lt).
  rewrite Hu in Hw. simpl in Hw. unfold outcome in Hw. rewrite Hl in Hw.
  split; intros Ht; rewrite Ht in Hw.
  - repeat split.
    + intros r Hr. apply (In_issued_not_late _ _ _ _ _ _ H) in Hr.
      destruct Hr as [Hr _]. congruence.
    + exact Hw.
    + rewrite Hw. simpl. now rewrite Hd.
  - split.
    + rewrite (inv_issued _ _ _ _ _ H). apply in_map_iff. exists i.
      rewrite Hn. split; [reflexivity|]. apply filter_In. split.
      * apply in_seq. lia.
      * rewrite Hl, Ht. reflexivity.
    + intros Hs. unfold completed in Hw.
      apply Z.eqb_neq in Hs. rewrite Hs in Hw.
      split; [exact Hw|]. rewrite Hw. simpl. now rewrite Hd.
Qed.

(** A worker with two items, due at 1 us and 2 us: the first is on time and
    its storage operation fails, the second is examined 9 us after the
    start, 7 us late. *)
Lemma ClientWorker_drop_and_failure_witness :
  let env := mk_worker_env 0 (fun _ => 0) (fun i => 1000 + 8000 * Z.of_nat i)
               (fun _ => 1500) (fun _ => 4000) (fun _ _ => 1) in
  let w := [mk_work_unit 1 8 true 0; mk_work_unit 2 16 false 0] in
  exists st,
    ClientWorker 8 env (Some w) = Some st /\
    too_late env (now_after env 1) (mk_work_unit 2 16 false 0) = true /\
    ws_dropped st = 1 /\
    (forall r, ~ In (1%nat, r) (ws_issued st)) /\
    option_map duration_us (nth_error (ws_w st) 1) = Some 0%float.
Proof.
  intros env w.
  destruct (ClientWorker 8 env (Some w)) as [st|] eqn:E;
    [|vm_compute in E; discriminate].
  exists st.
  pose proof (ClientWorker_drop_and_failure 8 env w st 1
                (mk_work_unit 2 16 false 0) E eq_refl eq_refl) as [T _].
  specialize (T ltac:(vm_compute; reflexivity)).
  destruct T as (T1 & _ & T3).
  split; [reflexivity|].
  split; [vm_compute; reflexivity|].
  split; [vm_compute in E; injection E as <-; reflexivity|].
  split; assumption.
Defined.

(** C9, as the code has it: timings is reserved, never resized, so its
    size is 0 at every subscript; for every item that passes the lateness
    test the worker subscripts timings at the item's index with the index
    not below the size. The subscripts of w are within its size. *)
Theorem ClientWorker_timings_subscript_beyond_size :
  forall block_count env w st i u,
    ClientWorker block_count env (Some w) = Some st ->
    nth_error w i = Some u ->
    too_late env (now_after env i) u = false ->
    exists e,
      In e (ws_subscripts st) /\
      sub_vec e = Vec_timings /\ sub_index e = i /\
      sub_size e = Vec.size (ws_timings st) /\
      in_bounds e = false.
Proof.
  intros block_count env w st i u H Hu Ht.
  apply ClientWorker_inv in H.
  assert (Hi : (i < length w)%nat) by (apply nth_error_Some; congruence).
  assert (Hn : nth i w no_unit = u) by now apply nth_nth_error.
  exists (mk_subscript Vec_timings i 0). repeat split.
  - apply (inv_timings_subscript _ _ _ _ _ H); [exact Hi|].
    unfold late. now rewrite Hn.
  - simpl. symmetry. apply (inv_timings _ _ _ _ _ H).
Qed.

Lemma ClientWorker_timings_subscript_beyond_size_witness :
  let env := mk_worker_env 0 (fun _ => 0) (fun _ => 1000)
               (fun _ => 1500) (fun _ => 4000) (fun _ _ => 0) in
  exists st e,
    ClientWorker 8 env (Some [mk_work_unit 1 8 true 0]) = Some st /\
    In e (ws_subscripts st) /\
    sub_vec e = Vec_timings /\ sub_index e = 0%nat /\
    sub_size e = Vec.size (ws_timings st) /\
    in_bounds e = false.
Proof.
  intros env.
  destruct (ClientWorker 8 env (Some [mk_work_unit 1 8 true 0]))
    as [st|] eqn:E; [|vm_compute in E; discriminate].
  exists st.
  destruct (ClientWorker_timings_subscript_beyond_size 8 env
              [mk_work_unit 1 8 true 0] st 0 (mk_work_unit 1 8 true 0)
              E eq_refl ltac:(vm_compute; reflexivity)) as (e & He).
  exists e. split; [reflexivity | exact He].
Defined.

(** ** RunExperiment *)

Lemma remove_if_filter :
  forall {A} (p : A -> bool) (l : list A),
    remove_if p l = filter (fun x => negb (p x)) l.
Proof.
  induction l as [|x l IH]; simpl; [reflexivity|].
  destruct (p x); simpl; now rewrite IH.
Qed.

Lemma fold_left_app_concat :
  forall {A} (ls : list (list A)) (acc : list A),
    fold_left (fun w v => w ++ v) ls acc = acc ++ concat ls.
Proof.
  induction ls as [|l ls IH]; intros acc; simpl.
  - now rewrite app_nil_r.
  - now rewrite IH, app_assoc.
Qed.

(** What [RunExperiment] returns, when it returns: the vectors of the
    workers, taken in thread order, then the aggregation. *)
Lemma RunExperiment_returned :
  forall block_count envs start finish threads reqs_per_sec cpu_usage wf h
         w h',
    RunExperiment block_count envs start finish threads reqs_per_sec
      cpu_usage wf h = Some (w, h') ->
    exists samples,
      join_all (map (fun i => ClientWorker block_count (envs i) (wf i))
                  (seq 0 (Z.to_nat threads))) = Some samples /\
      w = filter (fun u => negb (did_not_complete u)) (concat samples) /\
      h' = match reqs_per_sec with
           | Some l =>
               heap_store h l
                 (Cxx.double_of_size (length w)
                  / us_of_ticks (finish - start) * 1000000)%float
           | None => h
           end.
Proof.
  intros block_count envs start finish threads reqs_per_sec cpu_usage wf h
    w h' H.
  unfold RunExperiment in H.
  destruct (join_all _) as [samples|]; [|discriminate].
  exists samples. split; [reflexivity|].
  rewrite fold_left_app_concat, remove_if_filter in H. simpl in H.
  injection H as <- <-. split; reflexivity.
Qed.

(** C5. The aggregation of RunExperiment concatenates the sample vectors of
    all the workers and removes exactly the items whose duration_us equals
    0: an item is in the result if and only if it is in the concatenation
    and its duration is not 0, the order and the multiplicity of the others
    are kept, and no item of the result has the duration 0. The throughput
    stored through reqs_per_sec is the number of the remaining items divided
    by the elapsed time between the start and the finish readings, in
    microseconds, times 10^6 (requests per second). *)
Theorem RunExperiment_aggregation :
  forall block_count envs start finish threads reqs_per_sec cpu_usage wf h
         w h',
    RunExperiment block_count envs start finish threads reqs_per_sec
      cpu_usage wf h = Some (w, h') ->
    exists samples,
      join_all (map (fun i => ClientWorker block_count (envs i) (wf i))
                  (seq 0 (Z.to_nat threads))) = Some samples /\
      w = filter (fun u => negb (duration_us u =? 0)%float)
            (concat samples) /\
      (forall u, In u w <->
                 In u (concat samples) /\ (duration_us u =? 0)%float = false) /\
      Forall (fun u => (duration_us u =? 0)%float = false) w /\
      (forall l, reqs_per_sec = Some l ->
         h' l = (Cxx.double_of_size (length w)
                 / us_of_ticks (finish - start) * 1000000)%float).
Proof.
  intros block_count envs start finish threads reqs_per_sec cpu_usage wf h
    w h' H.
  apply RunExperiment_returned in H.
  destruct H as (samples & Hj & Hw & Hh).
  exists samples. split; [exact Hj|]. split; [exact Hw|].
  assert (Hin : forall u, In u w <->
            In u (concat samples) /\ (duration_us u =? 0)%float = false).
  { intros u. rewrite Hw, filter_In. unfold did_not_complete.
    now rewrite negb_true_iff. }
  split; [exact Hin|]. split.
  - apply Forall_forall. intros u Hu. now apply Hin.
  - intros l ->. rewrite Hh. unfold heap_store. now rewrite Nat.eqb_refl.
Qed.

(** One worker, three items due at 1, 2 and 3 us: the first completes in
    2.5 us, the storage operation of the second fails, the third is examined
    too late. One sample is left; 4 us elapse between start and finish. *)
Lemma RunExperiment_aggregation_witness :
  let env := mk_worker_env 0 (fun _ => 0)
               (fun i => if (i <? 2)%nat then 1000 else 20000)
               (fun _ => 1500) (fun _ => 4000)
               (fun i _ => Z.of_nat i) in
  let w0 := [mk_work_unit 1 8 true 0; mk_work_unit 2 16 false 0;
             mk_work_unit 3 24 false 0] in
  exists w h',
    RunExperiment 8 (fun _ => env) 1000 5000 1 (Some 0%nat) (Some 1%nat)
      (fun _ => Some w0) (fun _ => 0%float) = Some (w, h') /\
    w = [mk_work_unit 1 8 true 2.5] /\
    h' 0%nat = 250000%float.
Proof.
  intros env w0.
  destruct (RunExperiment 8 (fun _ => env) 1000 5000 1 (Some 0%nat)
              (Some 1%nat) (fun _ => Some w0) (fun _ => 0%float))
    as [[w h']|] eqn:E; [|vm_compute in E; discriminate].
  exists w, h'. split; [reflexivity|].
  destruct (RunExperiment_aggregation _ _ _ _ _ _ _ _ _ _ _ E)
    as (samples & _ & _ & _ & _ & Hr).
  assert (Hw : w = [mk_work_unit 1 8 true 2.5]).
  { vm_compute in E. injection E as <- _. reflexivity. }
  split; [exact Hw|].
  rewrite (Hr 0%nat eq_refl), Hw. vm_compute. reflexivity.
Defined.

(** What RunExperiment leaves of the memory: only the [double] that
    [reqs_per_sec] points to is written. *)
Lemma RunExperiment_frame :
  forall block_count envs start finish threads reqs_per_sec cpu_usage wf h
         w h',
    RunExperiment block_count envs start finish threads reqs_per_sec
      cpu_usage wf h = Some (w, h') ->
    forall l, reqs_per_sec <> Some l -> h' l = h l.
Proof.
  intros block_count envs start finish threads reqs_per_sec cpu_usage wf h
    w h' H l Hl.
  apply RunExperiment_returned in H. destruct H as (samples & _ & _ & ->).
  destruct reqs_per_sec as [l'|]; [|reflexivity].
  unfold heap_store. destruct (Nat.eqb l l') eqn:E; [|reflexivity].
  apply Nat.eqb_eq in E. congruence.
Qed.

Lemma join_all_In :
  forall l vs v,
    join_all l = Some vs -> In v vs ->
    exists st, In (Some st) l /\ v = ws_w st.
Proof.
  induction l as [|[st|] l IH]; intros vs v H Hv; simpl in H.
  - injection H as <-. contradiction.
  - destruct (join_all l) as [vs'|]; [|discriminate]. injection H as <-.
    destruct Hv as [<-|Hv].
    + exists st. split; [now left | reflexivity].
    + destruct (IH vs' v eq_refl Hv) as (st' & Hin & ->).
      exists st'. split; [now right | reflexivity].
  - discriminate.
Qed.

Lemma filter_none :
  forall {A} (f : A -> bool) (l : list A),
    Forall (fun x => f x = false) l -> filter f l = [].
Proof.
  induction 1 as [|x l Hx _ IH]; simpl; [reflexivity|]. now rewrite Hx.
Qed.

(** With a backend none of whose operations succeeds, and schedules of
    latency 0, the vector RunExperiment returns is empty. *)
Lemma RunExperiment_all_failed :
  forall block_count envs start finish threads reqs_per_sec cpu_usage wf h
         w h',
    (forall t i r, storage_status (envs t) i r <> 0) ->
    (forall t wt, wf t = Some wt ->
       Forall (fun u => duration_us u = 0%float) wt) ->
    RunExperiment block_count envs start finish threads reqs_per_sec
      cpu_usage wf h = Some (w, h') ->
    w = [].
Proof.
  intros block_count envs start finish threads reqs_per_sec cpu_usage wf h
    w h' Hs Hz H.
  apply RunExperiment_returned in H. destruct H as (samples & J & -> & _).
  apply filter_none. apply Forall_forall. intros u Hu.
  apply in_concat in Hu. destruct Hu as (v & Hv & Hu).
  destruct (join_all_In _ _ _ J Hv) as (st & Hin & ->).
  apply in_map_iff in Hin. destruct Hin as (t & Ht & _).
  destruct (wf t) as [wt|] eqn:Ew; [|discriminate].
  rewrite (ClientWorker_all_failed _ _ _ _ (Hs t) Ht) in Hu.
  specialize (Hz t wt Ew). rewrite Forall_forall in Hz.
  unfold did_not_complete. rewrite (Hz u Hu). reflexivity.
Qed.

(** C10. A call of RunExperiment writes memory through reqs_per_sec only:
    every [double] other than the one reqs_per_sec points to is unchanged
    on return, and so is the one cpu_usage points to (the two out-parameters
    being distinct objects, as they are at the call in
    SteadyStateExperiment). The cpu_usage that SteadyStateExperiment passes
    to PrintStatResults, and that is printed, is therefore what its local
    variable held before the experiment: the experiment never assigns it. *)
Theorem RunExperiment_cpu_usage_unchanged :
  forall block_count envs start finish,
    (forall threads reqs_per_sec cpu_usage wf h w h',
       RunExperiment block_count envs start finish threads reqs_per_sec
         cpu_usage wf h = Some (w, h') ->
       (forall l, reqs_per_sec <> Some l -> h' l = h l) /\
       (forall l, cpu_usage = Some l -> reqs_per_sec <> cpu_usage ->
          h' l = h l)) /\
    (forall pct_set global_threads rd wd fuel threads offered_rps
            service_time sp h r h',
       SteadyStateExperiment block_count pct_set global_threads envs start
         finish rd wd fuel threads offered_rps service_time sp h
       = Some (Some r, h') ->
       out_cpu_usage r = h (S sp) /\ h' (S sp) = h (S sp)).
Proof.
  intros block_count envs start finish. split.
  - intros threads reqs_per_sec cpu_usage wf h w h' H. split.
    + now apply (RunExperiment_frame _ _ _ _ _ _ _ _ _ _ _ H).
    + intros l -> Hne. now apply (RunExperiment_frame _ _ _ _ _ _ _ _ _ _ _ H).
  - intros pct_set global_threads rd wd fuel threads offered_rps
      service_time sp h r h' H.
    unfold SteadyStateExperiment in H.
    destruct (RunExperiment _ _ _ _ _ _ _ _ _) as [[w h1]|] eqn:E;
      [|discriminate].
    injection H as Hp <-.
    assert (Hc : h1 (S sp) = h (S sp)).
    { apply (RunExperiment_frame _ _ _ _ _ _ _ _ _ _ _ E).
      intros Heq. injection Heq as Heq. lia. }
    split; [|exact Hc].
    unfold PrintStatResults in Hp.
    repeat match type of Hp with
           | match ?x with Some _ => _ | None => _ end = _ =>
               destruct x; [|discriminate]
           end.
    injection Hp as <-. simpl. exact Hc.
Qed.

(** One worker, two items due 3 s and 6 s after the start, each issued on
    time and completed in 2.5 us; the local cpu_usage holds 7 when the
    experiment starts, and 7 is what is printed. *)
Lemma RunExperiment_cpu_usage_unchanged_witness :
  let env := mk_worker_env 0
               (fun i => 3000000000 * (Z.of_nat i + 1))
               (fun i => 3000000000 * (Z.of_nat i + 1))
               (fun i => 3000000000 * (Z.of_nat i + 1))
               (fun i => 3000000000 * (Z.of_nat i + 1) + 2500)
               (fun _ _ => 0) in
  exists r h',
    SteadyStateExperiment 8 50 1 (fun _ => env) 0 9000000000
      (fun _ _ => 3000000%float) (fun _ k => Z.of_nat k) 8 1 20000%float
      0%float
      0%nat (fun _ => 7%float)
    = Some (Some r, h') /\
    out_cpu_usage r = 7%float /\ h' 1%nat = 7%float.
Proof.
  intros env.
  destruct (SteadyStateExperiment 8 50 1 (fun _ => env) 0 9000000000
              (fun _ _ => 3000000%float) (fun _ k => Z.of_nat k) 8 1 20000%float
      0%float
              0%nat (fun _ => 7%float)) as [[[r|] h']|] eqn:E;
    [| vm_compute in E; discriminate | vm_compute in E; discriminate].
  exists r, h'. split; [reflexivity|].
  exact (proj2 (RunExperiment_cpu_usage_unchanged 8 (fun _ => env) 0
                  9000000000) _ _ _ _ _ _ _ _ _ _ _ _ E).
Defined.

(** ** PrintStatResults *)

Section ReducerFacts.

Import Binary64.

Ltac floor_bounds n num den :=
  pose proof (Z.div_mod (n * num) den ltac:(lia));
  pose proof (Z.mod_pos_bound (n * num) den ltac:(lia)).

Lemma rank_p90 : forall n, 1 <= Z.of_nat n < 2 ^ 39 ->
  Cxx.size_of_double (Cxx.double_of_size n * 0.9)
  = Some (Z.of_nat n * 9 / 10).
Proof.
  intros n Hn. floor_bounds (Z.of_nat n) 9 10.
  apply (rank_exact n 0.9%float 8106479329266893);
    [exact Hn | vm_compute; reflexivity | lia | lia | left; lia].
Qed.

Lemma rank_p99 : forall n, 1 <= Z.of_nat n < 2 ^ 39 ->
  Cxx.size_of_double (Cxx.double_of_size n * 0.99)
  = Some (Z.of_nat n * 99 / 100).
Proof.
  intros n Hn. floor_bounds (Z.of_nat n) 99 100.
  apply (rank_exact n 0.99%float 8917127262193582);
    [exact Hn | vm_compute; reflexivity | lia | lia |].
  destruct (Z.eq_dec (100 * (Z.of_nat n * 99 / 100)) (Z.of_nat n * 99));
    [right | left]; lia.
Qed.

Lemma rank_p999 : forall n, 1 <= Z.of_nat n < 2 ^ 39 ->
  Cxx.size_of_double (Cxx.double_of_size n * 0.999)
  = Some (Z.of_nat n * 999 / 1000).
Proof.
  intros n Hn. floor_bounds (Z.of_nat n) 999 1000.
  apply (rank_exact n 0.999%float 8998192055486251);
    [exact Hn | vm_compute; reflexivity | lia | lia |].
  destruct (Z.eq_dec (1000 * (Z.of_nat n * 999 / 1000)) (Z.of_nat n * 999));
    [right | left]; lia.
Qed.

Lemma rank_p9999 : forall n, 1 <= Z.of_nat n < 2 ^ 39 ->
  Cxx.size_of_double (Cxx.double_of_size n * 0.9999)
  = Some (Z.of_nat n * 9999 / 10000).
Proof.
  intros n Hn. floor_bounds (Z.of_nat n) 9999 10000.
  apply (rank_exact n 0.9999%float 9006298534815518);
    [exact Hn | vm_compute; reflexivity | lia | lia | left; lia].
Qed.

Lemma length_sort : forall {A} (less : A -> A -> bool) l,
  length (sort less l) = length l.
Proof. intros A less l. apply Permutation_length, sort_perm. Qed.

Lemma percentile_floor : forall w,
  1 <= Z.of_nat (length w) < 2 ^ 39 ->
  percentile w 0.9 = at_index w (Z.of_nat (length w) * 9 / 10) /\
  percentile w 0.99 = at_index w (Z.of_nat (length w) * 99 / 100) /\
  percentile w 0.999 = at_index w (Z.of_nat (length w) * 999 / 1000) /\
  percentile w 0.9999 = at_index w (Z.of_nat (length w) * 9999 / 10000).
Proof.
  intros w Hn. unfold percentile, at_rank.
  now rewrite rank_p90, rank_p99, rank_p999, rank_p9999 by exact Hn.
Qed.

Lemma sorted_perm_unique : forall l' l : list float,
  StronglySorted (fun x y => (x <=? y)%float = true) l ->
  StronglySorted (fun x y => (x <? y)%float = true) l' ->
  Permutation l l' -> l = l'.
Proof.
  induction l' as [|h' t' IH]; intros l Sl Sl' P.
  - now apply Permutation_nil, Permutation_sym.
  - destruct l as [|h t].
    + exfalso. now apply (Permutation_nil_cons P).
    + inversion Sl as [|? ? St Ft]; subst.
      inversion Sl' as [|? ? St' Ft']; subst.
      assert (E : h = h').
      { assert (I1 : In h' (h :: t))
          by (apply (Permutation_in _ (Permutation_sym P)); now left).
        assert (I2 : In h (h' :: t'))
          by (apply (Permutation_in _ P); now left).
        destruct I1 as [E|I1]; [exact E|].
        destruct I2 as [E|I2]; [now symmetry|].
        rewrite Forall_forall in Ft, Ft'.
        specialize (Ft _ I1). specialize (Ft' _ I2).
        apply leb_val in Ft. apply ltb_val in Ft'. lia. }
      subst h'. f_equal. apply IH; try assumption.
      now apply Permutation_cons_inv with h.
Qed.

Lemma StronglySorted_map : forall {A B} (f : A -> B) (R : B -> B -> Prop) l,
  StronglySorted (fun x y => R (f x) (f y)) l -> StronglySorted R (map f l).
Proof.
  intros A B f R l H. induction H as [|a l H IH F]; simpl; constructor; auto.
  rewrite Forall_map. exact F.
Qed.

Lemma fold_left_durations : forall (l : list work_unit) (s : float),
  fold_left (fun s c => (s + duration_us c)%float) l s
  = fold_left (fun s x => (s + x)%float) (map duration_us l) s.
Proof. induction l as [|c l IH]; intros s; simpl; auto. Qed.

Lemma at_index_map : forall w k,
  at_index w k
  = if (0 <=? k) && (k <? Z.of_nat (length w))
    then nth_error (map duration_us w) (Z.to_nat k) else None.
Proof.
  intros w k. unfold at_index. destruct (_ && _); [|reflexivity].
  now rewrite nth_error_map.
Qed.

(** The line of a non-empty vector. *)
Lemma PrintStatResults_nonempty :
  forall threads w offered_rps rps cpu_usage,
    w <> [] -> Z.of_nat (length w) < 2 ^ 39 ->
    exists r,
      PrintStatResults threads w offered_rps rps cpu_usage = Some r /\
      order_statistics w r.
Proof.
  intros threads w offered_rps rps cpu_usage Hne Hlt.
  unfold order_statistics.
  set (n := Z.of_nat (length w)). set (sorted := sort by_duration w).
  assert (Hn : 1 <= n < 2 ^ 39).
  { unfold n. destruct w; [congruence|]. simpl length in *. lia. }
  assert (Hlen : length sorted = length w) by apply length_sort.
  assert (Hn' : 1 <= Z.of_nat (length sorted) < 2 ^ 39)
    by (rewrite Hlen; exact Hn).
  destruct (percentile_floor sorted Hn') as (E90 & E99 & E999 & E9999).
  rewrite Hlen in E90, E99, E999, E9999. fold n in E90, E99, E999, E9999.
  floor_bounds n 9 10. floor_bounds n 99 100.
  floor_bounds n 999 1000. floor_bounds n 9999 10000.
  destruct (at_index_in_range sorted (n * 9 / 10)) as [p90 H90];
    [rewrite Hlen; fold n; lia|].
  destruct (at_index_in_range sorted (n * 99 / 100)) as [p99 H99];
    [rewrite Hlen; fold n; lia|].
  destruct (at_index_in_range sorted (n * 999 / 1000)) as [p999 H999];
    [rewrite Hlen; fold n; lia|].
  destruct (at_index_in_range sorted (n * 9999 / 10000)) as [p9999 H9999];
    [rewrite Hlen; fold n; lia|].
  destruct (at_index_in_range sorted 0) as [vmin Hmin];
    [rewrite Hlen; fold n; lia|].
  destruct (at_index_in_range sorted (n - 1)) as [vmax Hmax];
    [rewrite Hlen; fold n; lia|].
  assert (Hsz : Cxx.to_size_t (Z.of_nat (length sorted) - 1) = n - 1).
  { rewrite Hlen. fold n. unfold Cxx.to_size_t, Cxx.size_max.
    apply Z.mod_small. lia. }
  eexists. split.
  - unfold PrintStatResults. fold sorted.
    rewrite E90, E99, E999, E9999, Hsz, H90, H99, H999, H9999, Hmin, Hmax.
    reflexivity.
  - cbn [out_samples out_mean out_min out_max out_p90 out_p99 out_p999
           out_p9999].
    rewrite Hlen. repeat split; assumption.
Qed.

(** C4. For every non-empty sample vector (of fewer than 2^39 samples),
    PrintStatResults sorts the samples by ascending latency (the sorted
    vector is a permutation of the samples, in non-decreasing order of
    duration_us when no duration is a NaN), computes the mean as the sum of
    the latencies divided by the count, reads the minimum at rank 0 and the
    maximum at the last rank, and reads the percentiles at the ranks
    floor(count * p) for p = 0.90, 0.99, 0.999 and 0.9999: the rank the code
    computes in double arithmetic is exactly that floor. In particular, on
    six samples of latencies 10, 20, 30, 40, 50 and 60 us, in any order of
    arrival, it prints min = 10, max = 60, mean = 35 and p90 = 60, the rank
    of p90 being 5. *)
Theorem PrintStatResults_order_statistics :
  (forall threads w offered_rps rps cpu_usage,
     w <> [] -> Z.of_nat (length w) < 2 ^ 39 ->
     exists r,
       PrintStatResults threads w offered_rps rps cpu_usage = Some r /\
       Permutation (sort by_duration w) w /\
       (Forall (fun u => PrimFloat.is_nan (duration_us u) = false) w ->
        latency_sorted (sort by_duration w)) /\
       order_statistics w r) /\
  (forall threads w offered_rps rps cpu_usage,
     Permutation (map duration_us w) [10; 20; 30; 40; 50; 60]%float ->
     exists r,
       PrintStatResults threads w offered_rps rps cpu_usage = Some r /\
       out_samples r = 6%nat /\
       out_min r = 10%float /\ out_max r = 60%float /\
       out_mean r = 35%float /\ out_p90 r = 60%float /\
       Cxx.size_of_double (Cxx.double_of_size 6 * 0.9) = Some 5).
Proof.
  split.
  { intros threads w offered_rps rps cpu_usage Hne Hlt.
    destruct (PrintStatResults_nonempty threads w offered_rps rps cpu_usage
                Hne Hlt) as (r & Hr & Ho).
    exists r. split; [exact Hr|]. split; [apply sort_perm|].
    split; [apply sort_latency_sorted | exact Ho]. }
  intros threads w offered_rps rps cpu_usage HP.
  assert (Hlen : length w = 6%nat).
  { rewrite <- (length_map duration_us). now rewrite (Permutation_length HP). }
  destruct (PrintStatResults_nonempty threads w offered_rps rps cpu_usage)
    as (r & Hr & Hs & Hmean & Hmin & Hmax & H90 & _).
  { intros ->. discriminate. }
  { rewrite Hlen. reflexivity. }
  rewrite Hlen in Hs, Hmean, Hmax, H90.
  change (Z.of_nat 6 - 1) with 5 in Hmax.
  change (Z.of_nat 6 * 9 / 10) with 5 in H90.
  set (sorted := sort by_duration w) in *.
  assert (Hnan : Forall (fun u => PrimFloat.is_nan (duration_us u) = false) w).
  { apply Forall_forall. intros u Hu.
    apply (in_map duration_us) in Hu. apply (Permutation_in _ HP) in Hu.
    simpl in Hu.
    repeat (destruct Hu as [<-|Hu]; [reflexivity|]). contradiction. }
  assert (Hd : map duration_us sorted = [10; 20; 30; 40; 50; 60]%float).
  { apply sorted_perm_unique.
    - apply StronglySorted_map. apply sort_sorted.
      apply Forall_impl with (2 := Hnan). intros u. apply is_nan_not_nan.
    - repeat constructor.
    - rewrite <- HP. apply Permutation_map. apply sort_perm. }
  assert (Hl : length sorted = 6%nat) by (unfold sorted; now rewrite length_sort).
  rewrite at_index_map, Hl, Hd in Hmin, Hmax, H90.
  simpl in Hmin, Hmax, H90.
  rewrite fold_left_durations, Hd in Hmean.
  exists r. split; [exact Hr|]. split; [exact Hs|].
  split; [congruence|]. split; [congruence|].
  split; [rewrite Hmean; vm_compute; reflexivity|].
  split; [congruence | vm_compute; reflexivity].
Qed.

(** C8. Percentile monotonicity: on a vector whose latencies are in
    non-decreasing order, for rank fractions p1 < p2, the percentile
    PrintStatResults reads at p1 is not above the one it reads at p2,
    whenever the two ranks are within the vector; and they are, for every
    pair of fractions 0 <= p1 < p2 < 1 on a non-empty vector (of fewer than
    2^53 elements, which the conversion of the count to [double] keeps
    exact). *)
Theorem percentile_monotone :
  forall w p1 p2,
    latency_sorted w ->
    (p1 <? p2)%float = true ->
    (forall v1 v2,
       percentile w p1 = Some v1 -> percentile w p2 = Some v2 ->
       (v1 <=? v2)%float = true) /\
    (w <> [] -> Z.of_nat (length w) < 2 ^ 53 ->
     (0 <=? p1)%float = true -> (p2 <? 1)%float = true ->
     exists v1 v2,
       percentile w p1 = Some v1 /\ percentile w p2 = Some v2 /\
       (v1 <=? v2)%float = true).
Proof.
  intros w p1 p2 Hs Hlt.
  assert (Mono : forall v1 v2,
            percentile w p1 = Some v1 -> percentile w p2 = Some v2 ->
            (v1 <=? v2)%float = true).
  { intros v1 v2 H1 H2. unfold percentile, at_rank in H1, H2.
    destruct (Cxx.size_of_double (Cxx.double_of_size (length w) * p1))
      as [k1|] eqn:E1; [|discriminate].
    destruct (Cxx.size_of_double (Cxx.double_of_size (length w) * p2))
      as [k2|] eqn:E2; [|discriminate].
    destruct (double_of_size_spec (length w)) as (_ & Hc & _).
    pose proof (rank_mono _ _ _ _ _ Hc Hlt E1 E2) as Hk.
    apply at_index_Some in H1, H2.
    destruct H1 as (_ & u1 & N1 & ->), H2 as (_ & u2 & N2 & ->).
    apply (Hs (Z.to_nat k1) (Z.to_nat k2)); [lia | assumption..]. }
  split; [exact Mono|].
  intros Hne Hn H0 H1.
  assert (Hn' : 1 <= Z.of_nat (length w) < 2 ^ 53).
  { destruct w; [congruence|]. simpl length in *. lia. }
  assert (H0' : (0 <=? p2)%float = true).
  { apply leb_val in H0. apply ltb_val in Hlt. apply leb_val.
    destruct H0 as (? & ? & ?), Hlt as (? & ? & ?). repeat split; auto; lia. }
  assert (H1' : (p1 <? 1)%float = true).
  { apply ltb_val in H1. apply ltb_val in Hlt. apply ltb_val.
    destruct H1 as (? & ? & ?), Hlt as (? & ? & ?). repeat split; auto; lia. }
  destruct (rank_below (length w) p1 Hn' H0 H1') as (k1 & E1 & B1).
  destruct (rank_below (length w) p2 Hn' H0' H1) as (k2 & E2 & B2).
  destruct (at_index_in_range w k1 B1) as [v1 A1].
  destruct (at_index_in_range w k2 B2) as [v2 A2].
  assert (P1 : percentile w p1 = Some v1)
    by (unfold percentile, at_rank; now rewrite E1).
  assert (P2 : percentile w p2 = Some v2)
    by (unfold percentile, at_rank; now rewrite E2).
  exists v1, v2. split; [exact P1|]. split; [exact P2|].
  exact (Mono v1 v2 P1 P2).
Qed.

Lemma percentile_monotone_witness :
  let w := sort by_duration
             (map (mk_work_unit 0 0 false) [30; 10; 60; 20; 50; 40]%float) in
  percentile w 0.5 = Some 40%float /\
  percentile w 0.9 = Some 60%float /\
  (40 <=? 60)%float = true.
Proof.
  intros w.
  assert (H1 : percentile w 0.5 = Some 40%float) by (vm_compute; reflexivity).
  assert (H2 : percentile w 0.9 = Some 60%float) by (vm_compute; reflexivity).
  split; [exact H1|]. split; [exact H2|].
  assert (Hs : latency_sorted w)
    by (apply sort_latency_sorted; repeat constructor).
  exact (proj1 (percentile_monotone w 0.5 0.9 Hs eq_refl) 40%float 60%float
           H1 H2).
Defined.

Lemma PrintStatResults_order_statistics_witness :
  exists r,
    PrintStatResults 3
      (map (mk_work_unit 0 0 false) [3; 1; 2]%float) 20000%float
      19000%float 0%float
    = Some r /\
    out_samples r = 3%nat.
Proof.
  destruct (proj1 PrintStatResults_order_statistics 3
              (map (mk_work_unit 0 0 false) [3; 1; 2]%float) 20000%float
      19000%float 0%float)
    as (r & Hr & _ & _ & Hs & _).
  - discriminate.
  - reflexivity.
  - exists r. split; [exact Hr | exact Hs].
Defined.

(** X3. The percentiles PrintStatResults prints are in order, between the
    minimum and the maximum, when no latency is a NaN. *)
Theorem PrintStatResults_percentiles_ordered :
  forall threads w offered_rps rps cpu_usage r,
    Z.of_nat (length w) < 2 ^ 39 ->
    Forall (fun u => PrimFloat.is_nan (duration_us u) = false) w ->
    PrintStatResults threads w offered_rps rps cpu_usage = Some r ->
    (out_min r <=? out_p90 r)%float = true /\
    (out_p90 r <=? out_p99 r)%float = true /\
    (out_p99 r <=? out_p999 r)%float = true /\
    (out_p999 r <=? out_p9999 r)%float = true /\
    (out_p9999 r <=? out_max r)%float = true.
Proof.
  intros threads w offered_rps rps cpu_usage r Hlt Hnan Hr.
  assert (Hne : w <> []) by (intros ->; vm_compute in Hr; discriminate).
  destruct (PrintStatResults_nonempty threads w offered_rps rps cpu_usage
              Hne Hlt) as (r' & Hr' & Ho).
  assert (r' = r) by congruence. subst r'.
  destruct Ho as (_ & _ & Hmin & Hmax & H90 & H99 & H999 & H9999).
  pose proof (sort_latency_sorted w Hnan) as S.
  set (n := Z.of_nat (length w)) in *.
  assert (Hn : 1 <= n) by (unfold n; destruct w; [congruence | simpl; lia]).
  floor_bounds n 9 10. floor_bounds n 99 100.
  floor_bounds n 999 1000. floor_bounds n 9999 10000.
  assert (Ord : forall k1 k2 v1 v2, 0 <= k1 <= k2 ->
            at_index (sort by_duration w) k1 = Some v1 ->
            at_index (sort by_duration w) k2 = Some v2 ->
            (v1 <=? v2)%float = true).
  { intros k1 k2 v1 v2 Hk A1 A2. apply at_index_Some in A1, A2.
    destruct A1 as (_ & u1 & N1 & ->), A2 as (_ & u2 & N2 & ->).
    apply (S (Z.to_nat k1) (Z.to_nat k2)); [lia | assumption..]. }
  repeat split; eapply Ord; try eassumption; lia.
Qed.

Lemma PrintStatResults_percentiles_ordered_witness :
  exists r,
    PrintStatResults 3
      (map (mk_work_unit 0 0 false) [30; 10; 60; 20; 50; 40]%float)
      20000%float 19000%float 0%float = Some r /\
    (out_p90 r <=? out_max r)%float = true.
Proof.
  destruct (PrintStatResults 3
      (map (mk_work_unit 0 0 false) [30; 10; 60; 20; 50; 40]%float)
      20000%float 19000%float 0%float) as [r|] eqn:E;
    [|vm_compute in E; discriminate].
  exists r. split; [reflexivity|].
  destruct (PrintStatResults_percentiles_ordered 3
              (map (mk_work_unit 0 0 false) [30; 10; 60; 20; 50; 40]%float)
              20000%float 19000%float 0%float r)
    as (_ & H1 & H2 & H3 & H4);
    [reflexivity | repeat constructor | exact E |].
  eapply Binary64.leb_trans; [exact H1|].
  eapply Binary64.leb_trans; [exact H2|].
  eapply Binary64.leb_trans; [exact H3 | exact H4].
Defined.

End ReducerFacts.

(** C1, as the code has it: PrintStatResults has no test of the sample
    count. On an empty vector the mean is 0.0 / 0 (a NaN), the rank of the
    first percentile is 0, and the subscript [w[0]] is made on the empty
    sorted vector: no line is defined. SteadyStateExperiment has no test
    either: with a backend none of whose operations succeeds, every
    experiment that returns hands PrintStatResults the empty vector. *)
Theorem PrintStatResults_empty_unguarded :
  (forall threads offered_rps rps cpu_usage,
     PrintStatResults threads [] offered_rps rps cpu_usage = None /\
     Cxx.size_of_double (Cxx.double_of_size 0 * 0.9)%float = Some 0 /\
     at_index (sort by_duration []) 0 = None /\
     PrimFloat.is_nan (0 / Cxx.double_of_size 0)%float = true) /\
  (forall block_count pct_set global_threads envs start finish rd wd fuel
          threads offered_rps service_time sp h res h',
     (forall t i r, storage_status (envs t) i r <> 0) ->
     SteadyStateExperiment block_count pct_set global_threads envs start
       finish rd wd fuel threads offered_rps service_time sp h
     = Some (res, h') ->
     res = None).
Proof.
  split.
  - intros. repeat split; vm_compute; reflexivity.
  - intros block_count pct_set global_threads envs start finish rd wd fuel
      threads offered_rps service_time sp h res h' Hs H.
    unfold SteadyStateExperiment in H.
    destruct (RunExperiment _ _ _ _ _ _ _ _ _) as [[w h1]|] eqn:E;
      [|discriminate].
    apply RunExperiment_all_failed in E; [|exact Hs|].
    + subst w. injection H as <- _. vm_compute. reflexivity.
    + intros t wt Ht.
      exact (GenerateWork_duration_zero_items _ _ _ _ _ _ _ Ht).
Qed.

(** One worker, two items due 3 s and 6 s after the start, each issued on
    time; both storage operations fail. *)
Lemma PrintStatResults_empty_unguarded_witness :
  let env := mk_worker_env 0
               (fun i => 3000000000 * (Z.of_nat i + 1))
               (fun i => 3000000000 * (Z.of_nat i + 1))
               (fun i => 3000000000 * (Z.of_nat i + 1))
               (fun i => 3000000000 * (Z.of_nat i + 1) + 2500)
               (fun _ _ => 1) in
  exists h',
    SteadyStateExperiment 8 50 1 (fun _ => env) 0 9000000000
      (fun _ _ => 3000000%float) (fun _ k => Z.of_nat k) 8 1 20000%float
      0%float 0%nat (fun _ => 7%float)
    = Some (None, h').
Proof.
  intros env.
  destruct (SteadyStateExperiment 8 50 1 (fun _ => env) 0 9000000000
              (fun _ _ => 3000000%float) (fun _ k => Z.of_nat k) 8 1
              20000%float 0%float 0%nat (fun _ => 7%float))
    as [[res h']|] eqn:E; [|vm_compute in E; discriminate].
  exists h'.
  rewrite (proj2 PrintStatResults_empty_unguarded 8 50 1 (fun _ => env) 0
             9000000000 (fun _ _ => 3000000%float) (fun _ k => Z.of_nat k)
             8%nat 1 20000%float 0%float 0%nat (fun _ => 7%float) res h'
             ltac:(intros; discriminate) E).
  reflexivity.
Defined.

(** * Further properties of the program *)

(** ** GenerateWork: addresses, kinds of operation, termination *)

Lemma lba_mask_spec : forall x, 0 <= x < 2 ^ 64 ->
  Z.land x lba_mask = 8 * (x / 8).
Proof.
  intros x Hx.
  replace (8 * (x / 8)) with (Z.shiftl (Z.shiftr x 3) 3)
    by (rewrite Z.shiftl_mul_pow2, Z.shiftr_div_pow2 by lia;
        change (2 ^ 3) with 8; ring).
  apply Z.bits_inj'. intros i Hi.
  rewrite Z.land_spec.
  destruct (Z_lt_ge_dec i 3) as [H3|H3].
  - rewrite Z.shiftl_spec_low by lia.
    replace (Z.testbit lba_mask i) with false; [apply andb_false_r|].
    assert (i = 0 \/ i = 1 \/ i = 2) as [->|[->| ->]] by lia; reflexivity.
  - rewrite Z.shiftl_spec by lia. rewrite Z.shiftr_spec by lia.
    replace (i - 3 + 3) with i by lia.
    destruct (Z_lt_ge_dec i 64) as [H64|H64].
    + replace (Z.testbit lba_mask i) with true; [apply andb_true_r|].
      unfold lba_mask, Cxx.to_size_t, Cxx.size_max.
      rewrite Z.mod_pow2_bits_low by lia.
      rewrite Z.lnot_spec by lia.
      change 7 with (Z.ones 3). rewrite Z.ones_spec_high by lia. reflexivity.
    + replace (Z.testbit x i) with false; [reflexivity|].
      symmetry. destruct (Z.eq_dec x 0) as [->|Hx0]; [apply Z.bits_0|].
      apply Z.bits_above_log2; [lia|].
      assert (Z.log2 x < 64) by (apply Z.log2_lt_pow2; lia). lia.
Qed.

Lemma to_size_t_range : forall z, 0 <= Cxx.to_size_t z < 2 ^ 64.
Proof.
  intros z. unfold Cxx.to_size_t, Cxx.size_max. apply Z.mod_pos_bound.
  reflexivity.
Qed.

(** X7. The block address of an item is the draw of the address sampler
    rounded down to a multiple of 8: for the item of index [k], with [d] the
    draw of index [2 k + 1] as a [size_t], the address is [8 * (d / 8)], at
    most [d] and less than 8 below it. *)
Theorem GenerateWork_lba_rounds_down :
  forall pct_set a s fuel cur_us last_us w,
    GenerateWork pct_set a s fuel cur_us last_us = Some w ->
    forall k u, nth_error w k = Some u ->
      let d := Cxx.to_size_t (s (S (2 * k))) in
      lba u = 8 * (d / 8) /\ lba u <= d < lba u + 8 /\ 0 <= lba u.
Proof.
  intros pct_set a s fuel cur_us last_us w H k u Hu d.
  apply GenerateWork_generated, generated_items in H.
  destruct H as (_ & _ & H). destruct (H k u Hu) as [_ Hl].
  change (0 + 2 * k)%nat with (2 * k)%nat in Hl. fold d in Hl.
  pose proof (to_size_t_range (s (S (2 * k)))) as Hd. fold d in Hd.
  rewrite lba_mask_spec in Hl by exact Hd.
  pose proof (Z.div_mod d 8 ltac:(lia)).
  pose proof (Z.mod_pos_bound d 8 ltac:(lia)).
  rewrite Hl. generalize dependent (d / 8). generalize dependent (d mod 8).
  intros. repeat split; lia.
Qed.

Lemma GenerateWork_lba_rounds_down_witness :
  lba (mk_work_unit 6000000 547002280 false 0) = 8 * (547002287 / 8).
Proof.
  exact (proj1 (GenerateWork_lba_rounds_down 50 (fun _ => 3000000%float)
           (fun k => 547002288 - Z.of_nat k) 8 0 5000000
           [mk_work_unit 3000000 547002280 false 0;
            mk_work_unit 6000000 547002280 false 0]
           ltac:(vm_compute; reflexivity) 0%nat _ eq_refl)).
Defined.

Lemma generated_is_set :
  forall pct_set a s last_us na ns cur_us items,
    generated pct_set a s last_us na ns cur_us items ->
    Forall (fun u => exists d, 0 <= d < 100 /\ is_set u = (d <? pct_set))
      items.
Proof.
  induction 1 as [|na ns cur_us items E G IH]; constructor; [|exact IH].
  exists (Cxx.to_size_t (s ns) mod 100). split; [|reflexivity].
  apply Z.mod_pos_bound. reflexivity.
Qed.

(** X8. The share of writes at its two ends: with pct_set 0 no item of a
    schedule is a write, with pct_set 100 or more every item is. *)
Theorem GenerateWork_pct_set_extremes :
  forall pct_set a s fuel cur_us last_us w,
    GenerateWork pct_set a s fuel cur_us last_us = Some w ->
    (pct_set <= 0 -> Forall (fun u => is_set u = false) w) /\
    (100 <= pct_set -> Forall (fun u => is_set u = true) w).
Proof.
  intros pct_set a s fuel cur_us last_us w H.
  apply GenerateWork_generated, generated_is_set in H.
  split; intros Hp; apply Forall_impl with (2 := H);
    intros u (d & Hd & ->).
  - apply Z.ltb_ge. lia.
  - apply Z.ltb_lt. lia.
Qed.

Lemma GenerateWork_pct_set_extremes_witness :
  Forall (fun u => is_set u = true)
    [mk_work_unit 2.5 8 true 0; mk_work_unit 5 32 true 0].
Proof.
  apply (proj2 (GenerateWork_pct_set_extremes (2 ^ 64 - 1)
           (fun _ => 2.5%float) (fun k => Z.of_nat k * 13) 8 0 5
           [mk_work_unit 2.5 8 true 0; mk_work_unit 5 32 true 0]
           ltac:(vm_compute; reflexivity))).
  vm_compute. discriminate.
Defined.

(** X9. A start time that is not below the horizon (a NaN on either side
    included) gives the empty schedule, without a draw and whatever the
    fuel; and a schedule GenerateWork returns is empty in that case only: from
    a start time below the horizon it holds an item, however large the first
    draw is. *)
Theorem GenerateWork_empty_iff :
  forall pct_set a s fuel cur_us last_us,
    ((cur_us <? last_us)%float = false ->
     GenerateWork pct_set a s fuel cur_us last_us = Some []) /\
    (forall w,
       GenerateWork pct_set a s fuel cur_us last_us = Some w ->
       (w = [] <-> (cur_us <? last_us)%float = false)).
Proof.
  intros pct_set a s fuel cur_us last_us. split.
  - intros E. unfold GenerateWork. destruct fuel; simpl; now rewrite E.
  - intros w H. apply GenerateWork_generated in H.
    inversion H as [na ns c E | na ns c items E G]; subst.
    + split; auto.
    + split; [discriminate | congruence].
Qed.

Lemma GenerateWork_empty_iff_witness :
  GenerateWork 50 (fun _ => 2.5%float) (fun k => Z.of_nat k) 0 7 5 = Some [].
Proof.
  apply (proj1 (GenerateWork_empty_iff 50 (fun _ => 2.5%float)
                  (fun k => Z.of_nat k) 0 7 5)).
  reflexivity.
Defined.

Lemma GenerateWork_loop_stuck :
  forall pct_set a s cur_us last_us,
    (cur_us <? last_us)%float = true ->
    (forall k, (cur_us + a k)%float = cur_us) ->
    forall fuel na ns w,
      GenerateWork_loop pct_set a s fuel na ns cur_us last_us w = None.
Proof.
  intros pct_set a s cur_us last_us E Ha.
  induction fuel as [|fuel IH]; intros na ns w; simpl; rewrite E.
  - reflexivity.
  - rewrite Ha. apply IH.
Qed.

(** X11. GenerateWork does not return when the draws leave the running
    time where it is below the horizon (each sum [cur_us + a()] rounds back
    to [cur_us]: draws of 0, or draws too small for the running time, as 1
    is for [2^53]): the loop has no other exit. *)
Theorem GenerateWork_no_progress :
  forall pct_set a s cur_us last_us,
    (cur_us <? last_us)%float = true ->
    (forall k, (cur_us + a k)%float = cur_us) ->
    forall fuel, GenerateWork pct_set a s fuel cur_us last_us = None.
Proof.
  intros pct_set a s cur_us last_us E Ha fuel.
  now apply GenerateWork_loop_stuck.
Qed.

Lemma GenerateWork_no_progress_witness :
  GenerateWork 50 (fun _ => 1%float) (fun k => Z.of_nat k) 1000
    9007199254740992 18014398509481984 = None.
Proof.
  apply (GenerateWork_no_progress 50 (fun _ => 1%float)
           (fun k => Z.of_nat k) 9007199254740992 18014398509481984).
  - reflexivity.
  - intros _. reflexivity.
Defined.

Section Termination.

Import Binary64.

Lemma RN_near_low : forall s V, 1074 <= s -> 0 <= V < 2 ^ (53 + s) ->
  V - 2 ^ (s - 1) <= RN s V.
Proof.
  intros s V Hs HV. unfold RN.
  pose proof (qexp_nonneg s V Hs) as Hq0.
  pose proof (Zrnd_near V (qexp s V) Hq0) as Hn.
  assert (Hq : qexp s V <= s).
  { unfold qexp, fexp64. destruct (Z.eq_dec V 0) as [->|H0].
    - change (Z.log2 0) with 0. lia.
    - assert (Z.log2 V < 53 + s) by (apply Z.log2_lt_pow2; lia). lia. }
  assert (Hp : 2 ^ qexp s V <= 2 ^ s) by (apply pow2_le; lia).
  assert (E : 2 ^ s = 2 * 2 ^ (s - 1)).
  { replace s with (1 + (s - 1)) at 1 by lia.
    rewrite Z.pow_add_r by lia. reflexivity. }
  lia.
Qed.

(** A draw of at least 1 moves a running time from 0 to below [2^52] up by
    at least 1/2. *)
Lemma add_progress : forall x a,
  (0 <=? x)%float = true -> val x < 2 ^ 52 * 2 ^ 1074 ->
  (1 <=? a)%float = true ->
  (0 <=? x + a)%float = true /\ val x + 2 ^ 1073 <= val (x + a).
Proof.
  intros x a H0 Hx H1.
  apply leb_val in H0. destruct H0 as (_ & Nx & H0).
  change (val 0) with 0 in H0.
  pose proof (proj1 (leb_val 1 a) H1) as (_ & Na & Ha).
  change (val 1) with (2 ^ 1074) in Ha.
  assert (P1073 : 0 < 2 ^ 1073) by (apply Z.pow_pos_nonneg; lia).
  assert (E1074 : 2 ^ 1074 = 2 * 2 ^ 1073) by reflexivity.
  assert (Ha0 : (0 <=? a)%float = true).
  { apply leb_val. repeat split; auto; try discriminate.
    change (val 0) with 0. lia. }
  assert (Goal : not_nan (x + a) /\ val x + 2 ^ 1073 <= val (x + a)).
  { destruct (nonneg_cases a Ha0) as [Fa|Ea].
    - assert (Fx : finite x).
      { apply not_nan_lt_infinity_finite; [exact Nx|].
        assert (2 ^ 52 * 2 ^ 1074 <= 2 ^ 2098)
          by (rewrite <- Z.pow_add_r by lia; apply pow2_le; lia).
        assert (0 < 2 ^ 2098) by (apply Z.pow_pos_nonneg; lia). lia. }
      destruct (add_val x a Fx Fa) as [Hn Hv]. split; [exact Hn|].
      rewrite Hv.
      apply Z.le_trans with (RNs 1074 (val x + 2 ^ 1074));
        [|apply RNs_mono; lia].
      unfold RNs. replace (val x + 2 ^ 1074 <? 0) with false
        by (symmetry; apply Z.ltb_ge; lia).
      pose proof (RN_near_low 1074 (val x + 2 ^ 1074) ltac:(lia)) as Hr.
      change (1074 - 1) with 1073 in Hr.
      assert (B : val x + 2 ^ 1074 < 2 ^ (53 + 1074)).
      { change (2 ^ (53 + 1074)) with (2 * 2 ^ 52 * 2 ^ 1074).
        assert (0 < 2 ^ 52) by reflexivity.
        assert (0 < 2 ^ 1074) by (apply Z.pow_pos_nonneg; lia). nia. }
      specialize (Hr ltac:(lia)).
      assert (B2 : 2 ^ (53 + 1074) <= 2 ^ (1024 + 1074))
        by (apply pow2_le; lia).
      unfold clip. lia.
    - assert (Hlow : - 2 ^ 2098 < val x).
      { assert (0 < 2 ^ 2098) by (apply Z.pow_pos_nonneg; lia). lia. }
      pose proof (add_pos_infinity x a Nx Hlow Ea) as E.
      split; [unfold not_nan; now rewrite E|].
      unfold val at 2. rewrite E. cbn [SFval SFneg SFmag].
      assert (2 ^ 52 * 2 ^ 1074 + 2 ^ 1073 <= 2 ^ (1024 + 1074)).
      { apply Z.le_trans with (2 ^ 53 * 2 ^ 1074).
        - change (2 ^ 53) with (2 * 2 ^ 52).
          assert (0 < 2 ^ 52) by reflexivity. nia.
        - rewrite <- Z.pow_add_r by lia. apply pow2_le. lia. }
      lia. }
  destruct Goal as [Hn Hv]. split; [|exact Hv].
  apply leb_val. repeat split; auto; try discriminate.
  change (val 0) with 0. lia.
Qed.

Lemma generated_exists :
  forall pct_set a s last_us,
    (forall k, (1 <=? a k)%float = true) ->
    val last_us <= 2 ^ 52 * 2 ^ 1074 ->
    forall fuel na ns cur_us,
      (0 <=? cur_us)%float = true ->
      val last_us - val cur_us <= Z.of_nat fuel * 2 ^ 1073 ->
      exists items,
        generated pct_set a s last_us na ns cur_us items /\
        (length items <= fuel)%nat.
Proof.
  intros pct_set a s last_us Ha Hl.
  assert (P1073 : 0 < 2 ^ 1073) by (apply Z.pow_pos_nonneg; lia).
  induction fuel as [|fuel IH]; intros na ns cur_us H0 Hm;
    destruct (cur_us <? last_us)%float eqn:E.
  - apply ltb_val in E. destruct E as (_ & _ & E). simpl in Hm. lia.
  - exists []. split; [now constructor | simpl; lia].
  - pose proof (proj1 (ltb_val _ _) E) as (_ & _ & Hlt).
    destruct (add_progress cur_us (a na) H0 ltac:(lia) (Ha na)) as [H0' Hp].
    destruct (IH (S na) (S (S ns)) (cur_us + a na)%float H0') as (items & G & L).
    { rewrite Nat2Z.inj_succ in Hm. lia. }
    eexists. split; [apply generated_step; [exact E | exact G]|].
    simpl. lia.
  - exists []. split; [now constructor | simpl; lia].
Qed.

Lemma val_double_of_Z : forall H, 0 <= H < 2 ^ 53 ->
  val (Cxx.double_of_Z H) = H * 2 ^ 1074.
Proof.
  intros H HH.
  destruct (double_of_size_spec (Z.to_nat H)) as (_ & Hs & Hf).
  unfold Cxx.double_of_size in *. rewrite Z2Nat.id in * by lia.
  destruct (Hf ltac:(lia)) as [_ Hm].
  unfold val, SFval. now rewrite Hs.
Qed.

(** X10. GenerateWork returns when every draw of the arrival sampler is
    at least 1 (microsecond), the start time is not negative and the horizon
    is an integer [H] of at most [2^52]: every trip moves the running time
    up by at least 1/2, so the loop makes at most [2 H] trips, and the
    schedule has at most [2 H] items. The horizon of the program, 5000000,
    is such an integer. *)
Theorem GenerateWork_terminates :
  forall pct_set a s cur_us last_us H,
    0 <= H <= 2 ^ 52 -> last_us = Cxx.double_of_Z H ->
    (forall k, (1 <=? a k)%float = true) ->
    (0 <=? cur_us)%float = true ->
    exists w,
      GenerateWork pct_set a s (Z.to_nat (2 * H)) cur_us last_us = Some w /\
      Z.of_nat (length w) <= 2 * H.
Proof.
  intros pct_set a s cur_us last_us H HH -> Ha H0.
  assert (P52 : 2 ^ 52 < 2 ^ 53) by reflexivity.
  pose proof (val_double_of_Z H ltac:(lia)) as Hv.
  assert (P1073 : 0 < 2 ^ 1073) by (apply Z.pow_pos_nonneg; lia).
  assert (E1074 : 2 ^ 1074 = 2 * 2 ^ 1073) by reflexivity.
  pose proof (proj1 (leb_val _ _) H0) as (_ & _ & Hc).
  change (val 0) with 0 in Hc.
  destruct (generated_exists pct_set a s (Cxx.double_of_Z H) Ha
              ltac:(rewrite Hv; apply Z.mul_le_mono_nonneg_r; lia)
              (Z.to_nat (2 * H)) 0%nat 0%nat cur_us H0) as (items & G & L).
  { rewrite Hv, Z2Nat.id by lia. nia. }
  exists items. split; [|lia].
  unfold GenerateWork.
  now rewrite (generated_GenerateWork_loop _ _ _ _ _ _ _ _ G _ [] L).
Qed.

Lemma GenerateWork_terminates_witness :
  exists w,
    GenerateWork 50 (fun _ => 3000000%float) (fun k => Z.of_nat k)
      (Z.to_nat (2 * 5000000)) 0 5000000 = Some w /\
    Z.of_nat (length w) <= 2 * 5000000.
Proof.
  apply (GenerateWork_terminates 50 (fun _ => 3000000%float)
           (fun k => Z.of_nat k) 0 5000000 5000000).
  - lia.
  - reflexivity.
  - intros _. reflexivity.
  - reflexivity.
Defined.

End Termination.

(** ** ClientWorker: completions, order of issue, sleeps *)

Lemma ClientWorker_item :
  forall block_count env w st i u,
    ClientWorker block_count env (Some w) = Some st ->
    nth_error w i = Some u ->
    nth_error (ws_w st) i = Some (outcome block_count env w i u).
Proof.
  intros block_count env w st i u H Hu.
  apply ClientWorker_inv in H.
  assert (Hi : (i < length w)%nat) by (apply nth_error_Some; congruence).
  rewrite (inv_w _ _ _ _ _ H i).
  replace (i <? length w)%nat with true by (symmetry; now apply Nat.ltb_lt).
  now rewrite Hu.
Qed.

(** X12. An item that passes the lateness test and whose storage
    operation returns 0 is returned with the latency the spawned thread
    measured, the time from the dispatch reading to the reading after the
    operation, in microseconds, and with its other fields as they were. *)
Theorem ClientWorker_completed :
  forall block_count env w st i u,
    ClientWorker block_count env (Some w) = Some st ->
    nth_error w i = Some u ->
    too_late env (now_after env i) u = false ->
    storage_status env i (request_of block_count u) = 0 ->
    nth_error (ws_w st) i
    = Some (mk_work_unit (start_us u) (lba u) (is_set u)
              (us_of_ticks (now_done env i - now_dispatch env i))).
Proof.
  intros block_count env w st i u H Hu Hl Hs.
  rewrite (ClientWorker_item _ _ _ _ _ _ H Hu).
  unfold outcome, late. rewrite (nth_nth_error _ _ _ _ Hu), Hl.
  unfold completed. rewrite Hs. reflexivity.
Qed.

Lemma ClientWorker_completed_witness :
  let env := mk_worker_env 0 (fun _ => 0) (fun i => 1000 + 8000 * Z.of_nat i)
               (fun _ => 1500) (fun _ => 4000) (fun _ _ => 0) in
  let w := [mk_work_unit 1 8 true 0; mk_work_unit 2 16 false 0] in
  exists st,
    ClientWorker 8 env (Some w) = Some st /\
    nth_error (ws_w st) 0 = Some (mk_work_unit 1 8 true 2.5).
Proof.
  intros env w.
  destruct (ClientWorker 8 env (Some w)) as [st|] eqn:E;
    [|vm_compute in E; discriminate].
  exists st. split; [reflexivity|].
  exact (ClientWorker_completed 8 env w st 0 (mk_work_unit 1 8 true 0) E
           eq_refl eq_refl eq_refl).
Defined.

(** X14. A request that is issued and succeeds, and for which the clock
    reads the same tick at dispatch and after the operation, is returned
    with the latency 0: the predicate with which RunExperiment removes the
    requests that did not complete holds of it. *)
Theorem ClientWorker_zero_latency_completion :
  forall block_count env w st i u,
    ClientWorker block_count env (Some w) = Some st ->
    nth_error w i = Some u ->
    too_late env (now_after env i) u = false ->
    storage_status env i (request_of block_count u) = 0 ->
    now_done env i = now_dispatch env i ->
    exists u',
      nth_error (ws_w st) i = Some u' /\ did_not_complete u' = true.
Proof.
  intros block_count env w st i u H Hu Hl Hs Ht.
  rewrite (ClientWorker_item _ _ _ _ _ _ H Hu).
  unfold outcome, late. rewrite (nth_nth_error _ _ _ _ Hu), Hl.
  unfold completed. rewrite Hs, Ht, Z.sub_diag.
  eexists. split; reflexivity.
Qed.

Lemma ClientWorker_zero_latency_completion_witness :
  let env := mk_worker_env 0 (fun _ => 0) (fun i => 1000 + 8000 * Z.of_nat i)
               (fun _ => 1500) (fun _ => 1500) (fun _ _ => 0) in
  let w := [mk_work_unit 1 8 true 0] in
  exists st u',
    ClientWorker 8 env (Some w) = Some st /\
    nth_error (ws_w st) 0 = Some u' /\ did_not_complete u' = true.
Proof.
  intros env w.
  destruct (ClientWorker 8 env (Some w)) as [st|] eqn:E;
    [|vm_compute in E; discriminate].
  destruct (ClientWorker_zero_latency_completion 8 env w st 0
              (mk_work_unit 1 8 true 0) E eq_refl eq_refl eq_refl eq_refl)
    as (u' & H1 & H2).
  exists st, u'. split; [reflexivity|]. split; assumption.
Defined.

Lemma StronglySorted_lt_seq : forall n a, StronglySorted lt (seq a n).
Proof.
  induction n as [|n IH]; intros a; simpl; constructor; [apply IH|].
  apply Forall_forall. intros x Hx. apply in_seq in Hx. lia.
Qed.

Lemma StronglySorted_filter :
  forall {A} (R : A -> A -> Prop) (f : A -> bool) l,
    StronglySorted R l -> StronglySorted R (filter f l).
Proof.
  intros A R f l H. induction H as [|x l H IH F]; simpl; [constructor|].
  destruct (f x); [|exact IH]. constructor; [exact IH|].
  rewrite Forall_forall in *. intros y Hy. apply filter_In in Hy.
  apply F, Hy.
Qed.



Section Sleeps.

Variable block_count : Z.
Variable env : worker_env.
Variable w : list work_unit.

(** The worker examines the item of index [i] before its offset. *)
Definition early (i : nat) : bool :=
  (elapsed_us env (now_before env i) <? start_us (nth i w no_unit))%float.

Definition sleep_of (i : nat) : nat * float :=
  (i, (start_us (nth i w no_unit)
       - elapsed_us env (now_before env i))%float).

Lemma slept_iter :
  forall k st,
    worker_inv block_count env w k st -> (k < length w)%nat ->
    ws_slept (ClientWorker_iter block_count env k st)
    = ws_slept st ++ (if early k then [sleep_of k] else []).
Proof.
  intros k st I Hk.
  assert (Hu : nth k (ws_w st) no_unit = nth k w no_unit).
  { destruct (nth_error w k) as [u|] eqn:E.
    - rewrite (nth_nth_error w k no_unit u E).
      apply nth_nth_error. rewrite (inv_w _ _ _ _ _ I), Nat.ltb_irrefl.
      exact E.
    - apply nth_error_None in E. lia. }
  unfold ClientWorker_iter, early, sleep_of.
  cbn [log_subscript ws_w ws_timings ws_dropped ws_wg ws_issued ws_slept
       ws_subscripts].
  rewrite Hu.
  destruct (elapsed_us env (now_before env k) <? start_us (nth k w no_unit))%float;
    cbn [ws_w ws_timings ws_dropped ws_wg ws_issued ws_slept ws_subscripts];
    destruct (too_late _ _ _);
    unfold spawned, log_subscript;
    cbn [ws_w ws_timings ws_dropped ws_wg ws_issued ws_slept ws_subscripts];
    now rewrite ?app_nil_r.
Qed.

Lemma slept_loop :
  forall n k st,
    worker_inv block_count env w k st -> (k + n <= length w)%nat ->
    ws_slept (ClientWorker_loop block_count env n k st)
    = ws_slept st ++ map sleep_of (filter early (seq k n)).
Proof.
  induction n as [|n IH]; intros k st I Hk; simpl.
  - now rewrite app_nil_r.
  - rewrite IH; [|apply worker_inv_iter; [exact I | lia] | lia].
    rewrite slept_iter by (exact I || lia).
    rewrite <- app_assoc. f_equal. now destruct (early k).
Qed.

End Sleeps.

(** X13. The sleeps of the worker: it sleeps for the item of index [i]
    exactly when the elapsed time at the first clock reading of the trip is
    below the item's offset, and then for the difference of the two; for no
    other item, once at most per item and in the order of the schedule. *)
Theorem ClientWorker_sleeps :
  forall block_count env w st,
    ClientWorker block_count env (Some w) = Some st ->
    StronglySorted lt (map fst (ws_slept st)) /\
    forall i d,
      In (i, d) (ws_slept st) <->
      exists u,
        nth_error w i = Some u /\
        (elapsed_us env (now_before env i) <? start_us u)%float = true /\
        d = (start_us u - elapsed_us env (now_before env i))%float.
Proof.
  intros block_count env w st H.
  assert (E : ws_slept st = map (sleep_of env w) (filter (early env w)
                                                    (seq 0 (length w)))).
  { unfold ClientWorker in H.
    destruct (Cxx.int_max <? Z.of_nat (length w)); [discriminate|].
    destruct (_ =? 0); [|discriminate]. injection H as <-.
    rewrite (slept_loop block_count env w (length w) 0 _
               (worker_inv_init block_count env w) (le_n _)).
    reflexivity. }
  rewrite E. split.
  { rewrite map_map. unfold sleep_of. cbn [fst]. rewrite map_id.
    apply StronglySorted_filter, StronglySorted_lt_seq. }
  intros i d. split.
  - intros Hin. apply in_map_iff in Hin. destruct Hin as (j & Hj & Hin).
    injection Hj as <- <-. apply filter_In in Hin. destruct Hin as [Hs He].
    apply in_seq in Hs.
    destruct (nth_error w j) as [u|] eqn:Hu;
      [|apply nth_error_None in Hu; lia].
    exists u. unfold early in He.
    rewrite (nth_nth_error _ _ _ _ Hu) in *. now repeat split.
  - intros (u & Hu & He & ->). apply in_map_iff. exists i.
    unfold sleep_of, early. rewrite (nth_nth_error _ _ _ _ Hu).
    split; [reflexivity|]. apply filter_In.
    split; [|now rewrite (nth_nth_error _ _ _ _ Hu)].
    apply in_seq. assert (i < length w)%nat
      by (apply nth_error_Some; congruence). lia.
Qed.

Lemma ClientWorker_sleeps_witness :
  let env := mk_worker_env 0 (fun _ => 0) (fun i => 1000 + 8000 * Z.of_nat i)
               (fun _ => 1500) (fun _ => 4000) (fun _ _ => 1) in
  let w := [mk_work_unit 1 8 true 0; mk_work_unit 2 16 false 0] in
  exists st,
    ClientWorker 8 env (Some w) = Some st /\
    In (0%nat, 1%float) (ws_slept st).
Proof.
  intros env w.
  destruct (ClientWorker 8 env (Some w)) as [st|] eqn:E;
    [|vm_compute in E; discriminate].
  exists st. split; [reflexivity|].
  apply (proj2 (ClientWorker_sleeps 8 env w st E) 0%nat 1%float).
  exists (mk_work_unit 1 8 true 0). repeat split.
Defined.

(** X23. ClientWorker changes nothing of the schedule but the latencies:
    the vector it returns has the offsets, the addresses and the kinds of
    operation of the schedule, index by index. *)
Theorem ClientWorker_schedule_fields :
  forall block_count env w st,
    ClientWorker block_count env (Some w) = Some st ->
    map start_us (ws_w st) = map start_us w /\
    map lba (ws_w st) = map lba w /\
    map is_set (ws_w st) = map is_set w.
Proof.
  intros block_count env w st H.
  assert (K : forall {B} (f : work_unit -> B),
            (forall d u, f (set_duration d u) = f u) ->
            map f (ws_w st) = map f w).
  { intros B f Hf. apply nth_error_ext. intros i. rewrite !nth_error_map.
    destruct (nth_error w i) as [u|] eqn:Hu.
    - rewrite (ClientWorker_item _ _ _ _ _ _ H Hu). simpl. f_equal.
      unfold outcome, completed.
      destruct (late env w i); [reflexivity|].
      destruct (_ =? 0); [apply Hf | reflexivity].
    - apply ClientWorker_inv in H.
      rewrite (inv_w _ _ _ _ _ H i), Hu.
      now destruct (i <? length w)%nat. }
  split; [|split]; apply K; reflexivity.
Qed.

Lemma ClientWorker_schedule_fields_witness :
  let env := mk_worker_env 0 (fun _ => 0) (fun i => 1000 + 8000 * Z.of_nat i)
               (fun _ => 1500) (fun _ => 4000) (fun _ _ => 0) in
  let w := [mk_work_unit 1 8 true 0; mk_work_unit 2 16 false 0] in
  exists st,
    ClientWorker 8 env (Some w) = Some st /\
    map lba (ws_w st) = [8; 16].
Proof.
  intros env w.
  destruct (ClientWorker 8 env (Some w)) as [st|] eqn:E;
    [|vm_compute in E; discriminate].
  exists st. split; [reflexivity|].
  exact (proj1 (proj2 (ClientWorker_schedule_fields 8 env w st E))).
Defined.

(** ** RunExperiment: the throughput over an elapsed time of 0 *)

Section ZeroElapsed.

Import Binary64.

Lemma div_zero_infinity : forall n,
  1 <= Z.of_nat n < 2 ^ 53 ->
  (Cxx.double_of_size n / 0 * 1000000)%float = infinity.
Proof.
  intros n Hn. apply Prim2SF_inj.
  destruct (double_of_size_spec n) as (_ & Hs & Hf).
  destruct (Hf ltac:(lia)) as [Ff Hm].
  rewrite FloatAxioms.mul_spec, FloatAxioms.div_spec.
  unfold finite in Ff.
  assert (H1074 : 0 < 2 ^ 1074) by (apply Z.pow_pos_nonneg; lia).
  destruct (Prim2SF (Cxx.double_of_size n)) as [sx|sx| |sx m e];
    try contradiction.
  - cbn [SFmag] in Hm. nia.
  - cbn [SFneg] in Hs. subst sx. reflexivity.
Qed.

(** X15. When the coordinator reads the same tick at the start and at the
    finish, the elapsed time is 0 and the throughput RunExperiment stores
    is a NaN when no sample is left, plus infinity when some are (fewer than
    [2^53]). *)
Theorem RunExperiment_zero_elapsed :
  forall block_count envs start threads l cpu_usage wf h w h',
    RunExperiment block_count envs start start threads (Some l) cpu_usage
      wf h = Some (w, h') ->
    (w = [] -> PrimFloat.is_nan (h' l) = true) /\
    (w <> [] -> Z.of_nat (length w) < 2 ^ 53 -> h' l = infinity).
Proof.
  intros block_count envs start threads l cpu_usage wf h w h' H.
  apply RunExperiment_returned in H. destruct H as (samples & _ & _ & ->).
  unfold heap_store. rewrite Nat.eqb_refl, Z.sub_diag.
  change (us_of_ticks 0) with 0%float. split.
  - intros E. rewrite E. reflexivity.
  - intros Hne Hlt. apply div_zero_infinity.
    destruct w; [congruence | simpl length in *; lia].
Qed.

Lemma RunExperiment_zero_elapsed_witness :
  let env := mk_worker_env 0 (fun _ => 0) (fun i => 1000 + 8000 * Z.of_nat i)
               (fun _ => 1500) (fun _ => 4000) (fun _ _ => 1) in
  exists w h',
    RunExperiment 8 (fun _ => env) 7 7 1 (Some 0%nat) (Some 1%nat)
      (fun _ => Some [mk_work_unit 1 8 true 0]) (fun _ => 0%float)
    = Some (w, h') /\
    PrimFloat.is_nan (h' 0%nat) = true.
Proof.
  intros env.
  destruct (RunExperiment 8 (fun _ => env) 7 7 1 (Some 0%nat) (Some 1%nat)
      (fun _ => Some [mk_work_unit 1 8 true 0]) (fun _ => 0%float))
    as [[w h']|] eqn:E; [|vm_compute in E; discriminate].
  exists w, h'. split; [reflexivity|].
  apply (proj1 (RunExperiment_zero_elapsed _ _ _ _ _ _ _ _ _ _ E)).
  vm_compute in E. injection E as <- _. reflexivity.
Defined.

End ZeroElapsed.

(** ** PrintStatResults: few samples, order of arrival *)

Lemma PrintStatResults_Some_nonempty :
  forall threads w offered_rps rps cpu_usage r,
    PrintStatResults threads w offered_rps rps cpu_usage = Some r -> w <> [].
Proof.
  intros threads w offered_rps rps cpu_usage r H ->.
  vm_compute in H. discriminate.
Qed.

(** X17. With few samples the tail percentiles are the maximum: p90 with
    at most 10 samples, p99 with at most 100, p999 with at most 1000 and
    p9999 with at most 10000. *)
Theorem PrintStatResults_tail_is_max :
  forall threads w offered_rps rps cpu_usage r,
    PrintStatResults threads w offered_rps rps cpu_usage = Some r ->
    (Z.of_nat (length w) <= 10 -> out_p90 r = out_max r) /\
    (Z.of_nat (length w) <= 100 -> out_p99 r = out_max r) /\
    (Z.of_nat (length w) <= 1000 -> out_p999 r = out_max r) /\
    (Z.of_nat (length w) <= 10000 -> out_p9999 r = out_max r).
Proof.
  intros threads w offered_rps rps cpu_usage r H.
  pose proof (PrintStatResults_Some_nonempty _ _ _ _ _ _ H) as Hne.
  assert (Hn : 1 <= Z.of_nat (length w))
    by (destruct w; [congruence | simpl length; lia]).
  assert (Key : forall num den v,
            0 < den -> den - num = 1 -> Z.of_nat (length w) <= den ->
            Z.of_nat (length w) < 2 ^ 39 ->
            (forall r', PrintStatResults threads w offered_rps rps cpu_usage
                        = Some r' -> order_statistics w r') ->
            at_index (sort by_duration w) (Z.of_nat (length w) * num / den)
            = Some v ->
            v = out_max r).
  { intros num den v Hden Hnum Hle Hlt Ho Hv.
    destruct (Ho r H) as (_ & _ & _ & Hmax & _).
    assert (E : Z.of_nat (length w) * num / den = Z.of_nat (length w) - 1).
    { symmetry. apply Z.div_unique with (den - Z.of_nat (length w)); nia. }
    rewrite E in Hv. congruence. }
  assert (Ho : Z.of_nat (length w) < 2 ^ 39 ->
               forall r', PrintStatResults threads w offered_rps rps cpu_usage
                          = Some r' -> order_statistics w r').
  { intros Hlt r' Hr'.
    destruct (PrintStatResults_nonempty threads w offered_rps rps cpu_usage
                Hne Hlt) as (r'' & Hr'' & Ho).
    congruence. }
  assert (P39 : 10000 < 2 ^ 39) by reflexivity.
  repeat split; intros Hl;
    assert (Hlt : Z.of_nat (length w) < 2 ^ 39) by lia;
    destruct (Ho Hlt r H) as (_ & _ & _ & _ & H90 & H99 & H999 & H9999).
  - apply (Key 9 10); auto; lia.
  - apply (Key 99 100); auto; lia.
  - apply (Key 999 1000); auto; lia.
  - apply (Key 9999 10000); auto; lia.
Qed.

Lemma PrintStatResults_tail_is_max_witness :
  exists r,
    PrintStatResults 3
      (map (mk_work_unit 0 0 false) [30; 10; 60; 20; 50; 40]%float)
      20000%float 19000%float 0%float = Some r /\
    out_p90 r = out_max r.
Proof.
  destruct (PrintStatResults 3
      (map (mk_work_unit 0 0 false) [30; 10; 60; 20; 50; 40]%float)
      20000%float 19000%float 0%float) as [r|] eqn:E;
    [|vm_compute in E; discriminate].
  exists r. split; [reflexivity|].
  apply (proj1 (PrintStatResults_tail_is_max 3
      (map (mk_work_unit 0 0 false) [30; 10; 60; 20; 50; 40]%float)
      20000%float 19000%float 0%float r E)).
  vm_compute. discriminate.
Defined.

Section Invariance.

Import Binary64.

Lemma SFcompare_Eq_eq : forall x y,
  valid_binary x = true -> valid_binary y = true ->
  SFmag 1074 x <> 0 ->
  SFcompare x y = Some Eq -> x = y.
Proof.
  intros x y Vx Vy Hx H.
  destruct x as [sx|sx| |sx mx ex], y as [sy|sy| |sy my ey];
    cbn [SFmag] in Hx; try congruence; try discriminate;
    try (simpl in H; destruct sx; discriminate);
    try (simpl in H; destruct sy; discriminate).
  - simpl in H. destruct sx, sy; try discriminate; reflexivity.
  - simpl in H.
    assert (K : forall c, match Z.compare ex ey with
                          | Eq => Pos.compare_cont Eq mx my
                          | Lt => Lt | Gt => Gt end = c -> c = Eq ->
                ex = ey /\ mx = my).
    { intros c Hc ->. destruct (Z.compare_spec ex ey) as [E|E|E];
        try discriminate.
      split; [exact E|]. now apply Pos.compare_eq. }
    destruct sx, sy; try discriminate.
    + injection H as H.
      destruct (Z.compare_spec ex ey) as [E|E|E]; try discriminate.
      apply (proj1 (CompOpp_iff _ Eq)) in H. apply Pos.compare_eq in H.
      now subst.
    + injection H as H. destruct (K _ eq_refl H) as [-> ->]. reflexivity.
Qed.

Lemma val_inj : forall x y,
  not_nan x -> not_nan y -> (x =? 0)%float = false ->
  val x = val y -> x = y.
Proof.
  intros x y Nx Ny Hz Hv.
  apply Prim2SF_inj.
  apply SFcompare_Eq_eq; try apply Prim2SF_valid.
  - rewrite FloatAxioms.eqb_spec in Hz. unfold SFeqb in Hz.
    intros Hm. unfold not_nan in Nx. pose proof (Prim2SF_valid x) as V.
    destruct (Prim2SF x) as [sx|sx| |sx m e]; try contradiction.
    + now destruct sx.
    + cbn [SFmag] in Hm. assert (0 < 2 ^ (1024 + 1074))
        by (apply Z.pow_pos_nonneg; lia). lia.
    + pose proof (finite_mag_bounds 1074 sx m e ltac:(lia) V). lia.
  - rewrite compare_val by assumption. now rewrite Hv, Z.compare_refl.
Qed.

Lemma sorted_perm_eq :
  forall {A} (R : A -> A -> Prop) (l l' : list A),
    (forall x y, In x l -> R x y -> R y x -> x = y) ->
    StronglySorted R l -> StronglySorted R l' -> Permutation l l' -> l = l'.
Proof.
  intros A R l. induction l as [|h t IH]; intros l' Anti Sl Sl' P.
  - now apply Permutation_nil in P.
  - destruct l' as [|h' t'].
    + exfalso. apply Permutation_sym in P. now apply (Permutation_nil_cons P).
    + inversion Sl as [|? ? St Ft]; subst.
      inversion Sl' as [|? ? St' Ft']; subst.
      assert (E : h = h').
      { assert (I1 : In h' (h :: t))
          by (apply (Permutation_in _ (Permutation_sym P)); now left).
        assert (I2 : In h (h' :: t'))
          by (apply (Permutation_in _ P); now left).
        destruct I1 as [E|I1]; [exact E|].
        destruct I2 as [E|I2]; [now symmetry|].
        rewrite Forall_forall in Ft, Ft'.
        apply Anti; [now left | now apply Ft | now apply Ft']. }
      subst h'. f_equal. apply IH; try assumption.
      * intros x y Hx. apply Anti. now right.
      * now apply Permutation_cons_inv with h.
Qed.

Lemma at_index_ext : forall w w' k,
  map duration_us w = map duration_us w' -> at_index w k = at_index w' k.
Proof.
  intros w w' k H. rewrite !at_index_map.
  rewrite <- (length_map duration_us w), <- (length_map duration_us w').
  now rewrite H.
Qed.

Lemma percentile_ext : forall w w' p,
  map duration_us w = map duration_us w' -> percentile w p = percentile w' p.
Proof.
  intros w w' p H. unfold percentile, at_rank.
  rewrite <- (length_map duration_us w), <- (length_map duration_us w'), H.
  destruct (Cxx.size_of_double _); [|reflexivity]. now apply at_index_ext.
Qed.

Lemma PrintStatResults_ext :
  forall threads w w' offered_rps rps cpu_usage,
    map duration_us (sort by_duration w)
    = map duration_us (sort by_duration w') ->
    PrintStatResults threads w offered_rps rps cpu_usage
    = PrintStatResults threads w' offered_rps rps cpu_usage.
Proof.
  intros threads w w' offered_rps rps cpu_usage H.
  unfold PrintStatResults.
  rewrite !(percentile_ext _ _ _ H).
  rewrite !(at_index_ext _ _ _ H).
  rewrite !fold_left_durations, H.
  assert (L : length (sort by_duration w) = length (sort by_duration w')).
  { rewrite <- (length_map duration_us (sort by_duration w)), H.
    apply length_map. }
  now rewrite L.
Qed.

(** X16. The line PrintStatResults prints does not depend on the order
    of the samples, when no latency is a NaN or 0 (RunExperiment leaves no
    latency equal to 0): two vectors that are permutations of one another
    give the same line. *)
Theorem PrintStatResults_permutation :
  forall threads w w' offered_rps rps cpu_usage,
    Permutation w w' ->
    Forall (fun u => PrimFloat.is_nan (duration_us u) = false /\
                     (duration_us u =? 0)%float = false) w ->
    PrintStatResults threads w offered_rps rps cpu_usage
    = PrintStatResults threads w' offered_rps rps cpu_usage.
Proof.
  intros threads w w' offered_rps rps cpu_usage P F.
  apply PrintStatResults_ext.
  assert (Fn : Forall (fun u => PrimFloat.is_nan (duration_us u) = false) w)
    by (apply Forall_impl with (2 := F); tauto).
  assert (Fn' : Forall (fun u => PrimFloat.is_nan (duration_us u) = false) w').
  { apply Forall_forall. intros u Hu. rewrite Forall_forall in Fn.
    apply Fn. now apply (Permutation_in _ (Permutation_sym P)). }
  apply (sorted_perm_eq (fun x y => (x <=? y)%float = true)).
  - intros x y Hx Hxy Hyx. apply in_map_iff in Hx.
    destruct Hx as (u & <- & Hu).
    apply (Permutation_in _ (sort_perm by_duration w)) in Hu.
    rewrite Forall_forall in F. destruct (F u Hu) as [_ Hz].
    apply leb_val in Hxy, Hyx.
    destruct Hxy as (Nx & Ny & L1), Hyx as (_ & _ & L2).
    apply val_inj; auto. lia.
  - apply StronglySorted_map. apply sort_sorted.
    apply Forall_impl with (2 := Fn). intros u. apply is_nan_not_nan.
  - apply StronglySorted_map. apply sort_sorted.
    apply Forall_impl with (2 := Fn'). intros u. apply is_nan_not_nan.
  - apply Permutation_map.
    rewrite (sort_perm by_duration w), (sort_perm by_duration w'). exact P.
Qed.

Lemma PrintStatResults_permutation_witness :
  PrintStatResults 3 (map (mk_work_unit 0 0 false) [30; 10; 20]%float)
    20000%float 19000%float 0%float
  = PrintStatResults 3 (map (mk_work_unit 0 0 false) [10; 20; 30]%float)
      20000%float 19000%float 0%float.
Proof.
  apply PrintStatResults_permutation.
  - simpl. apply Permutation_sym.
    apply perm_trans with
      (mk_work_unit 0 0 false 10 :: mk_work_unit 0 0 false 30
       :: [mk_work_unit 0 0 false 20]).
    + apply perm_skip. apply perm_swap.
    + apply perm_swap.
  - repeat constructor.
Defined.

End Invariance.

(** ** SteadyStateExperiment *)

(** X18. The line a SteadyStateExperiment prints: the number of threads
    is the global, the offered load is the argument, there is at least one
    sample, and the throughput is the number of samples of the same line
    divided by the elapsed time of the experiment in microseconds, times
    10^6; it is what the local [rps] holds on return. *)
Theorem SteadyStateExperiment_line :
  forall block_count pct_set global_threads envs start finish rd wd fuel
         threads offered_rps service_time sp h r h',
    SteadyStateExperiment block_count pct_set global_threads envs start
      finish rd wd fuel threads offered_rps service_time sp h
    = Some (Some r, h') ->
    out_threads r = global_threads /\
    out_offered_rps r = offered_rps /\
    (0 < out_samples r)%nat /\
    out_rps r
    = (Cxx.double_of_size (out_samples r)
       / us_of_ticks (finish - start) * 1000000)%float /\
    h' sp = out_rps r.
Proof.
  intros block_count pct_set global_threads envs start finish rd wd fuel
    threads offered_rps service_time sp h r h' H.
  unfold SteadyStateExperiment in H.
  destruct (RunExperiment _ _ _ _ _ _ _ _ _) as [[w h1]|] eqn:E;
    [|discriminate].
  injection H as Hp <-.
  apply RunExperiment_returned in E. destruct E as (samples & _ & _ & Hh).
  pose proof (PrintStatResults_Some_nonempty _ _ _ _ _ _ Hp) as Hne.
  assert (Hsp : h1 sp = (Cxx.double_of_size (length w)
                         / us_of_ticks (finish - start) * 1000000)%float).
  { rewrite Hh. unfold heap_store. now rewrite Nat.eqb_refl. }
  unfold PrintStatResults in Hp.
  repeat match type of Hp with
         | match ?x with Some _ => _ | None => _ end = _ =>
             destruct x; [|discriminate]
         end.
  injection Hp as <-. cbn [out_threads out_offered_rps out_samples out_rps].
  rewrite length_sort.
  split; [reflexivity|]. split; [reflexivity|].
  split; [destruct w; [congruence | simpl; lia]|].
  split; [exact Hsp | reflexivity].
Qed.

Lemma SteadyStateExperiment_line_witness :
  let env := mk_worker_env 0
               (fun i => 3000000000 * (Z.of_nat i + 1))
               (fun i => 3000000000 * (Z.of_nat i + 1))
               (fun i => 3000000000 * (Z.of_nat i + 1))
               (fun i => 3000000000 * (Z.of_nat i + 1) + 2500)
               (fun _ _ => 0) in
  exists r h',
    SteadyStateExperiment 8 50 1 (fun _ => env) 0 9000000000
      (fun _ _ => 3000000%float) (fun _ k => Z.of_nat k) 8 1 20000%float
      0%float 0%nat (fun _ => 7%float)
    = Some (Some r, h') /\
    out_offered_rps r = 20000%float /\ h' 0%nat = out_rps r.
Proof.
  intros env.
  destruct (SteadyStateExperiment 8 50 1 (fun _ => env) 0 9000000000
              (fun _ _ => 3000000%float) (fun _ k => Z.of_nat k) 8 1
              20000%float 0%float 0%nat (fun _ => 7%float))
    as [[[r|] h']|] eqn:E;
    [| vm_compute in E; discriminate | vm_compute in E; discriminate].
  exists r, h'. split; [reflexivity|].
  destruct (SteadyStateExperiment_line _ _ _ _ _ _ _ _ _ _ _ _ _ _ _ _ E)
    as (_ & H2 & _ & _ & H5).
  split; assumption.
Defined.

(** ** ClientHandler *)

Section ClientHandlerFacts.

Variables block_count pct_set threads : Z.
Variable exps : nat -> experiment_env.

(** The experiment of index [k], as [ClientHandler] calls it. *)
Definition run (k : nat) (x : float) : option (option summary * heap) :=
  experiment block_count pct_set threads exps k x 0.

(** [sweep i loads]: from the value [i] of the loop variable, the loop makes
    one trip for each element of [loads], with the variable at that value,
    and stops. *)
Inductive sweep : float -> list float -> Prop :=
  | sweep_stop : forall i, (i <=? 600000)%float = false -> sweep i []
  | sweep_trip : forall i loads,
      (i <=? 600000)%float = true -> sweep (i + 20000)%float loads ->
      sweep i (i :: loads).

(** The lines [ls] are what the experiments of index [k], [k+1], ... print
    for the loads [loads]. *)
Inductive printed : nat -> list float -> list (option summary) -> Prop :=
  | printed_nil : forall k, printed k [] []
  | printed_cons : forall k x loads line h ls,
      run k x = Some (line, h) -> printed (S k) loads ls ->
      printed k (x :: loads) (line :: ls).

Lemma ClientHandler_loop_printed :
  forall i loads, sweep i loads ->
  forall fuel k out lines,
    ClientHandler_loop block_count pct_set threads exps fuel k i out = Some lines ->
    exists ls, lines = out ++ ls /\ printed k loads ls.
Proof.
  induction 1 as [i E | i loads E Sw IH]; intros fuel k out lines H.
  - destruct fuel; simpl in H; rewrite E in H; injection H as <-;
      exists []; (split; [now rewrite app_nil_r | constructor]).
  - destruct fuel as [|fuel]; simpl in H; rewrite E in H; [discriminate|].
    fold (run k i) in H.
    destruct (run k i) as [[line h]|] eqn:Ex; [|discriminate].
    apply IH in H. destruct H as (ls & -> & P).
    exists (line :: ls). rewrite <- app_assoc. split; [reflexivity|].
    econstructor; eassumption.
Qed.

Lemma ClientHandler_loop_returns :
  forall i loads, sweep i loads ->
  forall fuel k out,
    (length loads <= fuel)%nat ->
    (forall j x, nth_error loads j = Some x ->
                 run (k + j) x <> None) ->
    exists lines, ClientHandler_loop block_count pct_set threads exps fuel k i out = Some lines.
Proof.
  induction 1 as [i E | i loads E Sw IH]; intros fuel k out Hf Hr.
  - exists out. destruct fuel; simpl; now rewrite E.
  - destruct fuel as [|fuel]; [simpl in Hf; lia|]. simpl. rewrite E.
    fold (run k i).
    destruct (run k i) as [[line h]|] eqn:Ex.
    + apply IH; [simpl in Hf; lia|]. intros j x Hj.
      replace (S k + j)%nat with (k + S j)%nat by lia. now apply Hr.
    + exfalso. apply (Hr 0%nat i eq_refl). now rewrite Nat.add_0_r.
Qed.

Lemma printed_nth :
  forall k loads ls, printed k loads ls ->
    length ls = length loads /\
    forall j x, nth_error loads j = Some x ->
      exists line h,
        nth_error ls j = Some line /\
        run (k + j) x = Some (line, h).
Proof.
  induction 1 as [k | k x loads line h ls Ex P [IHl IH]].
  - split; [reflexivity|]. intros [|j]; discriminate.
  - split; [simpl; now rewrite IHl|]. intros [|j] y Hj; simpl in Hj.
    + injection Hj as <-. exists line, h. rewrite Nat.add_0_r. now split.
    + destruct (IH j y Hj) as (line' & h' & H1 & H2).
      exists line', h'. replace (k + S j)%nat with (S k + j)%nat by lia.
      now split.
Qed.

(** The loads of the sweep: 20000, 40000, ..., 600000. *)
Definition loads : list float :=
  map (fun k => Cxx.double_of_Z (20000 * (Z.of_nat k + 1))) (seq 0 30).

Lemma sweep_loads : sweep 20000 loads.
Proof.
  vm_compute. repeat (apply sweep_trip; [reflexivity|]).
  apply sweep_stop. reflexivity.
Qed.

Lemma nth_error_loads : forall k,
  (k < 30)%nat ->
  nth_error loads k = Some (Cxx.double_of_Z (20000 * (Z.of_nat k + 1))).
Proof.
  intros k Hk. unfold loads. rewrite nth_error_map.
  rewrite (nth_error_nth' _ 0%nat) by (rewrite length_seq; lia).
  now rewrite seq_nth by lia.
Qed.

End ClientHandlerFacts.

(** The fields of a line that the experiment passes through. *)
Lemma experiment_line_fields :
  forall block_count pct_set threads exps k x service_time r h,
    experiment block_count pct_set threads exps k x service_time
    = Some (Some r, h) ->
    out_threads r = threads /\ out_offered_rps r = x.
Proof.
  intros block_count pct_set threads exps k x service_time r h H.
  unfold experiment, SteadyStateExperiment in H.
  destruct (RunExperiment _ _ _ _ _ _ _ _ _) as [[w h1]|]; [|discriminate].
  injection H as Hp _. unfold PrintStatResults in Hp.
  repeat match type of Hp with
         | match ?x with Some _ => _ | None => _ end = _ =>
             destruct x; [|discriminate]
         end.
  injection Hp as <-. split; reflexivity.
Qed.

(** X19. ClientHandler runs the experiments for the offered loads 20000,
    40000, ..., 600000 in this order and no other: when it returns it has
    printed 30 lines, the line of index [k] being the one of the experiment
    at the load [20000 (k + 1)], with the global threads and the service
    time 0, and showing that load and that number of threads; and it
    returns when each of these 30 experiments does. *)
Theorem ClientHandler_sweep :
  forall block_count pct_set threads exps,
    (forall fuel lines,
       ClientHandler block_count pct_set threads exps fuel = Some lines ->
       length lines = 30%nat /\
       forall k, (k < 30)%nat ->
         exists line h,
           nth_error lines k = Some line /\
           experiment block_count pct_set threads exps k
             (Cxx.double_of_Z (20000 * (Z.of_nat k + 1))) 0
           = Some (line, h) /\
           (forall r, line = Some r ->
              out_threads r = threads /\
              out_offered_rps r
              = Cxx.double_of_Z (20000 * (Z.of_nat k + 1)))) /\
    ((forall k, (k < 30)%nat ->
        experiment block_count pct_set threads exps k
          (Cxx.double_of_Z (20000 * (Z.of_nat k + 1))) 0 <> None) ->
     forall fuel, (30 <= fuel)%nat ->
       exists lines,
         ClientHandler block_count pct_set threads exps fuel = Some lines).
Proof.
  intros block_count pct_set threads exps. split.
  - intros fuel lines H. unfold ClientHandler in H.
    apply (ClientHandler_loop_printed _ _ _ _ _ _ sweep_loads) in H.
    destruct H as (ls & -> & P). simpl.
    apply printed_nth in P. destruct P as [L N]. split.
    + rewrite L. reflexivity.
    + intros k Hk.
      destruct (N k _ (nth_error_loads k Hk)) as (line & h & H1 & H2).
      exists line, h. split; [exact H1|]. split; [exact H2|].
      intros r ->. exact (experiment_line_fields _ _ _ _ _ _ _ _ _ H2).
  - intros Hr fuel Hf. unfold ClientHandler.
    apply (ClientHandler_loop_returns _ _ _ _ _ _ sweep_loads).
    + exact Hf.
    + intros j x Hj.
      assert (Hlt : (j < 30)%nat).
      { change 30%nat with (length loads).
        apply nth_error_Some. congruence. }
      rewrite nth_error_loads in Hj by exact Hlt. injection Hj as <-.
      apply Hr. exact Hlt.
Qed.

Lemma ClientHandler_sweep_witness :
  let env := mk_worker_env 0
               (fun i => 3000000000 * (Z.of_nat i + 1))
               (fun i => 3000000000 * (Z.of_nat i + 1))
               (fun i => 3000000000 * (Z.of_nat i + 1))
               (fun i => 3000000000 * (Z.of_nat i + 1) + 2500)
               (fun _ _ => 0) in
  let exps := fun _ : nat =>
    mk_experiment_env (fun _ => env) 0 9000000000
      (fun _ _ => 3000000%float) (fun _ k => Z.of_nat k) 8 0
      (fun _ => 7%float) in
  exists lines, ClientHandler 8 50 1 exps 30 = Some lines.
Proof.
  intros env exps.
  apply (proj2 (ClientHandler_sweep 8 50 1 exps)); [|apply le_n].
  intros k _. generalize (Cxx.double_of_Z (20000 * (Z.of_nat k + 1))).
  intros x. vm_compute. discriminate.
Defined.

(** ** main *)

(** X21. The outcomes of main. With fewer than 5 arguments it prints the
    usage line and returns [-EINVAL] (-22), and the globals are not set. It
    calls [runtime_init] only with 5 arguments or more and after the three
    conversions succeeded, with [argv[1]] and the globals set to the
    converted values (block_count and pct_set converted to [size_t], modulo
    [2^64]); it then returns the status of [runtime_init], and prints the
    failure line exactly when that status is not 0. When a conversion
    throws, nothing was printed and the runtime was not started. *)
Theorem main_runtime_init :
  forall stoi runtime_init argv g res evs g',
    main stoi runtime_init argv g = (res, evs, g') ->
    (Z.of_nat (length argv) < 5 ->
     res = Exit (-22) /\ evs = [Usage] /\ g' = g) /\
    (forall cfg gi, In (Runtime_init cfg gi) evs ->
       5 <= Z.of_nat (length argv) /\
       cfg = nth 1 argv String.EmptyString /\
       gi = g' /\
       (exists v2 v3 v4,
          stoi (nth 2 argv String.EmptyString) = Some v2 /\
          stoi (nth 3 argv String.EmptyString) = Some v3 /\
          stoi (nth 4 argv String.EmptyString) = Some v4 /\
          gi = mk_globals v2 (v3 mod 2 ^ 64) (v4 mod 2 ^ 64)) /\
       res = Exit (runtime_init cfg gi) /\
       (In Failed_to_start evs <-> runtime_init cfg gi <> 0)) /\
    (res = Uncaught -> evs = []).
Proof.
  intros stoi runtime_init argv g res evs g' H. unfold main in H.
  destruct (Z.of_nat (length argv) <? 5) eqn:E.
  - apply Z.ltb_lt in E. injection H as <- <- <-.
    split; [now intros _|]. split; [|discriminate].
    intros cfg gi [Hin|[]]. discriminate.
  - apply Z.ltb_ge in E. split; [lia|].
    destruct (stoi (nth 2 argv String.EmptyString)) as [v2|];
      [|injection H as <- <- <-; split; [intros ? ? []|reflexivity]].
    destruct (stoi (nth 3 argv String.EmptyString)) as [v3|];
      [|injection H as <- <- <-; split; [intros ? ? []|reflexivity]].
    destruct (stoi (nth 4 argv String.EmptyString)) as [v4|];
      [|injection H as <- <- <-; split; [intros ? ? []|reflexivity]].
    cbn [g_threads g_block_count g_pct_set] in H.
    set (gi := mk_globals v2 (Cxx.to_size_t v3) (Cxx.to_size_t v4)) in *.
    set (cfg := nth 1 argv String.EmptyString) in *.
    assert (Main : forall c g0, In (Runtime_init c g0) evs ->
                     c = cfg /\ g0 = gi /\ g' = gi /\
                     res = Exit (runtime_init cfg gi) /\
                     (In Failed_to_start evs <-> runtime_init cfg gi <> 0)).
    { destruct (Z.eqb_spec (runtime_init cfg gi) 0) as [E0|E0];
        injection H as <- <- <-; intros c g0 Hin.
      - destruct Hin as [Hin|[]]. injection Hin as <- <-.
        rewrite E0. repeat split; auto.
        + intros [Hf|[]]. discriminate.
        + intros Hf. now elim Hf.
      - destruct Hin as [Hin|[Hin|[]]]; [|discriminate].
        injection Hin as <- <-. repeat split; auto.
        intros _. right. now left. }
    split.
    + intros c g0 Hin. destruct (Main c g0 Hin) as (-> & -> & -> & Hr & Hf).
      split; [exact E|]. split; [reflexivity|]. split; [reflexivity|].
      split; [|split; assumption].
      exists v2, v3, v4. now repeat split.
    + destruct (runtime_init cfg gi =? 0); injection H as <- _ _; discriminate.
Qed.

Lemma main_runtime_init_witness :
  main (fun _ => Some (-1)) (fun _ _ => 0)
    [String.EmptyString; String.EmptyString; String.EmptyString;
     String.EmptyString] (mk_globals 0 0 0)
  = (Exit (-22), [Usage], mk_globals 0 0 0).
Proof.
  pose proof (main_runtime_init (fun _ => Some (-1)) (fun _ _ => 0)
    [String.EmptyString; String.EmptyString; String.EmptyString;
     String.EmptyString] (mk_globals 0 0 0)) as H.
  destruct (main (fun _ => Some (-1)) (fun _ _ => 0)
    [String.EmptyString; String.EmptyString; String.EmptyString;
     String.EmptyString] (mk_globals 0 0 0)) as [[res evs] g'].
  destruct (H res evs g' eq_refl) as [H1 _].
  destruct (H1 ltac:(simpl; lia)) as (-> & -> & ->). reflexivity.
Defined.

(** X22. main does not check the range of pct_set: when the runtime is
    started with a fifth argument converted to a negative [int] or to 100 or
    more, every item GenerateWork produces under that pct_set is a write (a
    negative value becomes a [size_t] of at least [2^64 - 2^31]); with 0,
    none is. *)
Theorem main_pct_set_unchecked :
  forall stoi runtime_init argv g res evs g' cfg gi v4,
    main stoi runtime_init argv g = (res, evs, g') ->
    In (Runtime_init cfg gi) evs ->
    stoi (nth 4 argv String.EmptyString) = Some v4 ->
    - 2 ^ 31 <= v4 < 2 ^ 31 ->
    forall a s fuel cur_us last_us w,
      GenerateWork (g_pct_set gi) a s fuel cur_us last_us = Some w ->
      (v4 < 0 \/ 100 <= v4 -> Forall (fun u => is_set u = true) w) /\
      (v4 = 0 -> Forall (fun u => is_set u = false) w).
Proof.
  intros stoi runtime_init argv g res evs g' cfg gi v4 H Hin H4 Hv
    a s fuel cur_us last_us w Hw.
  assert (Hp : g_pct_set gi = v4 mod 2 ^ 64).
  { unfold main in H.
    destruct (Z.of_nat (length argv) <? 5).
    { injection H as _ <- _. destruct Hin as [Hin|[]]. discriminate. }
    destruct (stoi (nth 2 argv String.EmptyString)) as [v2|];
      [|injection H as _ <- _; destruct Hin].
    destruct (stoi (nth 3 argv String.EmptyString)) as [v3|];
      [|injection H as _ <- _; destruct Hin].
    rewrite H4 in H.
    destruct (_ =? 0); injection H as _ <- _.
    - destruct Hin as [Hin|[]]. injection Hin as _ <-. reflexivity.
    - destruct Hin as [Hin|[Hin|[]]]; [|discriminate].
      injection Hin as _ <-. reflexivity. }
  apply GenerateWork_generated, generated_is_set in Hw. rewrite Hp in Hw.
  split; intros Hc; apply Forall_impl with (2 := Hw); intros u (d & Hd & ->).
  - apply Z.ltb_lt. destruct Hc as [Hc|Hc].
    + rewrite <- (Z.mod_add v4 1) by lia.
      rewrite Z.mod_small by lia. lia.
    + rewrite Z.mod_small by lia. lia.
  - subst v4. apply Z.ltb_ge. rewrite Z.mod_0_l by lia. lia.
Qed.

Lemma main_pct_set_unchecked_witness :
  Forall (fun u => is_set u = true)
    [mk_work_unit 2.5 8 true 0; mk_work_unit 5 32 true 0].
Proof.
  refine (proj1 (main_pct_set_unchecked (fun _ => Some (-1)) (fun _ _ => 0)
    [String.EmptyString; String.EmptyString; String.EmptyString;
     String.EmptyString; String.EmptyString] (mk_globals 0 0 0)
    (Exit 0)
    [Runtime_init String.EmptyString
       (mk_globals (-1) (2 ^ 64 - 1) (2 ^ 64 - 1))]
    (mk_globals (-1) (2 ^ 64 - 1) (2 ^ 64 - 1))
    String.EmptyString (mk_globals (-1) (2 ^ 64 - 1) (2 ^ 64 - 1)) (-1)
    eq_refl (or_introl eq_refl) eq_refl _
    (fun _ => 2.5%float) (fun k => Z.of_nat k * 13) 8%nat 0%float 5%float
    [mk_work_unit 2.5 8 true 0; mk_work_unit 5 32 true 0] _) _).
  - lia.
  - vm_compute. reflexivity.
  - left. lia.
Defined.
